(** * Trial's asynchronous [TestCase]: fixture sequencing, timeouts, cleanups

    A shallow embedding of [twisted/trial/_asynctest.py].  The methods of
    [TestCase] become functions in a state-and-exception monad over a
    [World] that holds what the methods mutate: the [TestResult] they report
    to, the cleanup stack, the [_passed] and [_timedOut] flags, the reactor's
    delayed calls and the module-level [_wait_is_running] list.

    User code (fixtures, test methods, cleanups) is not part of the engine; a
    callable is described by what the engine can observe of it: its
    [__name__], whether it is a generator function, the cleanups it registers
    while it runs and what it returns or raises.

    The fixtures run in a coroutine, which gives way to the reactor whenever
    it awaits a Deferred that has no result yet.  The model runs the
    coroutine in one go, delivering at each such await what the reactor
    delivers, and counts these suspensions: the count tells whether the
    Deferred of the coroutine has its result when [_wait] is called, and so
    whether [_wait] runs the reactor. *)

From Stdlib Require Import List String ZArith Bool Arith Lia.
From Stdlib Require Import SpecFloat.
Import ListNotations.

Set Warnings "-register-all".

(** ** Python values and exceptions *)

(** The exception classes the module names, and any other class by name. *)
Inductive ExcClass : Type :=
| BaseException
| Exception
| KeyboardInterrupt
| FailTest
| SkipTest
| TimeoutError
| AlreadyCalledError
| TypeError
| ValueError
| OverflowError
| AttributeError
| RuntimeError
| UserClass (name : string).

Definition ExcClass_eq_dec (a b : ExcClass) : {a = b} + {a <> b}.
Proof. decide equality. apply string_dec. Defined.

Definition ExcClass_eqb (a b : ExcClass) : bool :=
  if ExcClass_eq_dec a b then true else false.

(** A Python [float] is an IEEE binary64 number. *)
Definition pyfloat : Type := spec_float.

(** The arguments an exception is built with.  The three messages the module
    formats itself are kept structured. *)
Inductive Message : Type :=
| Text (s : string)
| StillRunning (funcDescription : string) (timeout : pyfloat)
    (* f"{self!r} ({funcDescription}) still running at {timeout} secs" *)
| NeverRuns (func_name : option string)
    (* "{!r} is a generator function and therefore will never run" *)
| NotReentrant.
    (* "_wait is not reentrant" *)

(** An exception instance: the classes of its type's [__mro__]
    ([BaseException] and [object] left implicit) and its arguments.  A
    [failure.Failure] is identified with the exception it wraps. *)
Record Exn : Type := mkExn {
  exn_mro : list ExcClass;
  exn_args : Message }.

(** [isinstance(e, cls)]; everything that can be raised is a
    [BaseException]. *)
Definition isinstance (e : Exn) (cls : ExcClass) : bool :=
  match cls with
  | BaseException => true
  | _ => existsb (ExcClass_eqb cls) (exn_mro e)
  end.

(** [Failure.check] on a tuple of classes, as a truth value. *)
Definition check (f : Exn) (errorTypes : list ExcClass) : bool :=
  existsb (isinstance f) errorTypes.

Inductive PyValue : Type :=
| PyNone
| PyBool (b : bool)
| PyInt (z : Z)
| PyFloat (f : pyfloat)
| PyStr (s : string)
| PyObject (repr : string).   (* an object with no numeric protocol, e.g. a bound method *)

(** Truth value testing. *)
Definition truthy (v : PyValue) : bool :=
  match v with
  | PyNone => false
  | PyBool b => b
  | PyInt z => negb (Z.eqb z 0)
  | PyFloat f => match f with S754_zero _ => false | _ => true end
  | PyStr s => negb (String.eqb s EmptyString)
  | PyObject _ => true
  end.

(** What a Deferred's callback chain passes along: a result or a Failure. *)
Inductive Outcome : Type :=
| Success (v : PyValue)
| Failed (f : Exn).

(** ** Results of the test, and the todo annotation *)

(** Modelled from the spec: the todo annotation [getTodo()] returns, which is
    declared outside this module.  It carries a reason and a predicate over
    the failures it expects. *)
Record Todo : Type := mkTodo {
  reason : string;
  expected : Exn -> bool }.

(** The calls a [TestResult] receives. *)
Inductive ResultCall : Type :=
| addSuccess
| addFailure (f : Exn)
| addError (f : Exn)
| addSkip (why : string)
| addExpectedFailure (f : Exn) (todo : Todo)
| addUnexpectedSuccess (todo : Todo)
| stop.

(** ** Deferreds and delayed calls *)

(** A callback added with [addBoth]: a pure user callback, or the
    continuation [_run] attaches to cancel the timeout call. *)
Inductive Callback : Type :=
| User (f : Outcome -> Outcome)
| CancelTimeout (call : nat).
    (* lambda x: call.active() and call.cancel() or x *)

(** Modelled from the spec: [defer.Deferred], which is declared outside this
    module.  It fires at most once; [d_paused] holds while its chain waits
    for a Deferred one of its callbacks returned; [d_callbacks] are the
    callbacks not run yet. *)
Record Deferred : Type := mkDeferred {
  d_called : bool;
  d_paused : bool;
  d_result : Outcome;
  d_callbacks : list Callback }.

(** Modelled from the spec: the handle [reactor.callLater] returns.  Every
    call the module schedules is [onTimeout] on the Deferred of the phase. *)
Record DelayedCall : Type := mkDelayedCall {
  dc_time : pyfloat;           (* the delay it was scheduled with *)
  dc_description : string;     (* the funcDescription its onTimeout closes over *)
  dc_called : bool;
  dc_cancelled : bool }.

(** ** Callables *)

(** What calling a function does, as far as the engine sees.  A returned
    Deferred comes with what the reactor delivers to it before the timeout
    elapses, if anything: the result it is fired with when it had not been
    fired, the result its chain resumes with when it was paused. *)
Inductive Behaviour : Type :=
| Returns (v : PyValue)
| Raises (e : Exn)
| ReturnsDeferred (d : Deferred) (later : option Outcome).

(** A callable: a fixture, a test method, or a cleanup [(f, args, kwargs)]. *)
Inductive Action : Type := mkAction {
  __name__ : option string;          (* None: the callable has no __name__ *)
  isgeneratorfunction : bool;        (* inspect.isgeneratorfunction *)
  registers : list Action;           (* its addCleanup calls, in order *)
  behaves : Behaviour }.

(** ** The world the methods run in *)

(** The states of the fixture sequence, entered in this order. *)
Inductive SeqState : Type := SettingUp | RunningTest | CleaningUp | TearingDown.

(** Ghost trace: which state was entered, which function [_run] called. *)
Inductive TraceEvent : Type :=
| Enter (s : SeqState)
| Call (funcDescription : string) (func : Action).

Record World : Type := mkWorld {
  log : list ResultCall;             (* calls received by [result] *)
  _cleanups : list Action;           (* self._cleanups *)
  _passed : bool;                    (* self._passed *)
  _timedOut : bool;                  (* self._timedOut *)
  delayedCalls : list DelayedCall;   (* handles given out by callLater *)
  crashes : nat;                     (* reactor.crash() calls *)
  warnings : list string;            (* warnings.warn calls *)
  running : list unit;               (* _wait_is_running *)
  trace : list TraceEvent;
  suspensions : nat }.               (* ghost: the times the coroutine gave way to the reactor *)

Definition report (c : ResultCall) (w : World) : World :=
  mkWorld (log w ++ [c]) (_cleanups w) (_passed w) (_timedOut w)
          (delayedCalls w) (crashes w) (warnings w) (running w) (trace w)
          (suspensions w).

Definition set_cleanups (cs : list Action) (w : World) : World :=
  mkWorld (log w) cs (_passed w) (_timedOut w)
          (delayedCalls w) (crashes w) (warnings w) (running w) (trace w)
          (suspensions w).

Definition set_passed (b : bool) (w : World) : World :=
  mkWorld (log w) (_cleanups w) b (_timedOut w)
          (delayedCalls w) (crashes w) (warnings w) (running w) (trace w)
          (suspensions w).

Definition set_timedOut (b : bool) (w : World) : World :=
  mkWorld (log w) (_cleanups w) (_passed w) b
          (delayedCalls w) (crashes w) (warnings w) (running w) (trace w)
          (suspensions w).

Definition set_delayedCalls (cs : list DelayedCall) (w : World) : World :=
  mkWorld (log w) (_cleanups w) (_passed w) (_timedOut w)
          cs (crashes w) (warnings w) (running w) (trace w)
          (suspensions w).

Definition crash (w : World) : World :=
  mkWorld (log w) (_cleanups w) (_passed w) (_timedOut w)
          (delayedCalls w) (S (crashes w)) (warnings w) (running w) (trace w)
          (suspensions w).

Definition warn (msg : string) (w : World) : World :=
  mkWorld (log w) (_cleanups w) (_passed w) (_timedOut w)
          (delayedCalls w) (crashes w) (warnings w ++ [msg]) (running w) (trace w)
          (suspensions w).

Definition set_running (r : list unit) (w : World) : World :=
  mkWorld (log w) (_cleanups w) (_passed w) (_timedOut w)
          (delayedCalls w) (crashes w) (warnings w) r (trace w)
          (suspensions w).

Definition note (ev : TraceEvent) (w : World) : World :=
  mkWorld (log w) (_cleanups w) (_passed w) (_timedOut w)
          (delayedCalls w) (crashes w) (warnings w) (running w) (trace w ++ [ev])
          (suspensions w).

Definition suspension (w : World) : World :=
  mkWorld (log w) (_cleanups w) (_passed w) (_timedOut w)
          (delayedCalls w) (crashes w) (warnings w) (running w) (trace w)
          (S (suspensions w)).

(** ** The monad of the methods *)

(** How a call ends: it returns, it raises, or control never comes back (a
    coroutine that is never resumed, a reactor that is never stopped). *)
Inductive Res (A : Type) : Type :=
| Ret (a : A)
| Raise (e : Exn)
| Hang.

Arguments Ret {A} a.
Arguments Raise {A} e.
Arguments Hang {A}.

Definition M (A : Type) : Type := World -> World * Res A.

Definition ret {A} (a : A) : M A := fun w => (w, Ret a).

Definition raise {A} (e : Exn) : M A := fun w => (w, Raise e).

Definition bind {A B} (m : M A) (k : A -> M B) : M B :=
  fun w =>
    match m w with
    | (w', Ret a) => k a w'
    | (w', Raise e) => (w', Raise e)
    | (w', Hang) => (w', Hang)
    end.

(** A statement executed for its effect on the world. *)
Definition exec (f : World -> World) : M unit := fun w => (f w, Ret tt).

(** [try: m  except BaseException as e: h e]. *)
Definition try_except {A} (m : M A) (h : Exn -> M A) : M A :=
  fun w =>
    match m w with
    | (w', Raise e) => h e w'
    | r => r
    end.

(** [try: m  finally: fin].  The finally clause runs when [m] returns or
    raises; what it raises replaces the result of [m].  It does not run while
    [m] is suspended. *)
Definition try_finally {A} (m : M A) (fin : M unit) : M A :=
  fun w =>
    match m w with
    | (w', Hang) => (w', Hang)
    | (w', r) =>
        match fin w' with
        | (w'', Ret _) => (w'', r)
        | (w'', Raise e) => (w'', Raise e)
        | (w'', Hang) => (w'', Hang)
        end
    end.

Declare Scope py_scope.
Delimit Scope py_scope with py.
Notation "x <- m ;; k" := (bind m (fun x => k))
  (at level 61, m at next level, right associativity) : py_scope.
Notation "m ;; k" := (bind m (fun _ => k))
  (at level 61, right associativity) : py_scope.
Open Scope py_scope.

(** ** The test case *)

(** What [util._Janitor(self, result).postCaseCleanup()] does: the errors it
    reports to the result itself, then whether it found the reactor clean, or
    the exception it raises. *)
Record JanitorRun : Type := mkJanitorRun {
  janitor_reports : list Exn;
  janitor_returns : Res bool }.

(** The attributes and inherited methods of the instance the module reads,
    and the collaborators it calls at the end of the test. *)
Record TestCase : Type := mkTestCase {
  _parents : list (option PyValue);   (* the timeout attribute of self, class, module, packages *)
  getTodo : option Todo;
  failureException : ExcClass;
  setUp : Action;
  _testMethodName : string;
  testMethod : Action;                (* getattr(self, self._testMethodName) *)
  tearDown : Action;
  _getSkipReason : Action -> Exn -> string;
  postCaseCleanup : JanitorRun;
  postClassCleanup : option Exn;      (* the exception postClassCleanup raises, if any *)
  getErrors : list Exn }.             (* self._observer.getErrors() *)

Section Trial.

(** The text-to-float conversion of the interpreter: [None] when the string
    is not a float literal. *)
Variable float_of_str : string -> option pyfloat.

(** [util.DEFAULT_TIMEOUT_DURATION]. *)
Variable DEFAULT_TIMEOUT_DURATION : pyfloat.

(** ** The timeout *)

(** The builtin [float] on an [int]: the nearest binary64 number, rounding
    to even; [None] when it is out of range. *)
Definition float_of_int (z : Z) : option pyfloat :=
  match binary_normalize 53 1024 z 0 false with
  | S754_infinity _ => None
  | f => Some f
  end.

(** The builtin [float]. *)
Definition float (x : PyValue) : Res pyfloat :=
  match x with
  | PyFloat f => Ret f
  | PyInt z =>
      match float_of_int z with
      | Some f => Ret f
      | None =>
          Raise (mkExn [OverflowError; UserClass "ArithmeticError"; Exception]
                       (Text "int too large to convert to float"))
      end
  | PyBool b => Ret (binary_normalize 53 1024 (if b then 1 else 0) 0 false)
  | PyStr s =>
      match float_of_str s with
      | Some f => Ret f
      | None =>
          Raise (mkExn [ValueError; Exception]
                       (Text "could not convert string to float"))
      end
  | PyNone | PyObject _ =>
      Raise (mkExn [TypeError; Exception]
                   (Text "float() argument must be a string or a real number"))
  end.

(** Modelled from the spec: [util.acquireAttribute], which is declared
    outside this module.  The first scope that has the attribute wins, in the
    order instance, class, module, package; otherwise the default. *)
Fixpoint acquireAttribute (objects : list (option PyValue)) (default : PyValue)
  : PyValue :=
  match objects with
  | [] => default
  | Some v :: _ => v
  | None :: rest => acquireAttribute rest default
  end.

Definition timeout_warning : string :=
  "'timeout' attribute needs to be a number.".

Definition getTimeout (self : TestCase) : M pyfloat :=
  let timeout :=
    acquireAttribute (_parents self) (PyFloat DEFAULT_TIMEOUT_DURATION) in
  try_except (fun w => (w, float timeout))
    (fun e =>
       if check e [ValueError; TypeError] then
         exec (warn timeout_warning) ;;
         ret DEFAULT_TIMEOUT_DURATION
       else raise e).

(** ** Deferreds

    [twisted.internet.defer] and the reactor are declared outside this
    module; what the module uses of them is modelled here. *)

(** Modelled from the spec: [defer.succeed], a Deferred fired with a
    result. *)
Definition succeed (v : PyValue) : Deferred :=
  mkDeferred true false (Success v) [].

(** Modelled from the spec: [defer.fail], a Deferred fired with a failure. *)
Definition fail (e : Exn) : Deferred :=
  mkDeferred true false (Failed e) [].

(** Modelled from the spec: [reactor.callLater(timeout, onTimeout, d)], which
    schedules the call; the new handle is the index of the call. *)
Definition callLater (timeout : pyfloat) (funcDescription : string) : M nat :=
  fun w =>
    (set_delayedCalls
       (delayedCalls w ++ [mkDelayedCall timeout funcDescription false false]) w,
     Ret (List.length (delayedCalls w))).

(** Modelled from the spec: [call.active()], whether the call is still to
    come. *)
Definition active (call : nat) : M PyValue :=
  fun w =>
    (w, Ret (PyBool match nth_error (delayedCalls w) call with
                    | Some c => negb (dc_cancelled c || dc_called c)
                    | None => false
                    end)).

Fixpoint update_nth {A} (n : nat) (f : A -> A) (l : list A) : list A :=
  match l, n with
  | [], _ => []
  | x :: t, O => f x :: t
  | x :: t, S n' => x :: update_nth n' f t
  end.

(** Modelled from the spec: [call.cancel()], which returns [None] and raises
    when the call was cancelled or called already. *)
Definition cancel (call : nat) : M PyValue :=
  fun w =>
    match nth_error (delayedCalls w) call with
    | Some c =>
        if dc_cancelled c then
          (w, Raise (mkExn [UserClass "AlreadyCancelled"; Exception] (Text "")))
        else if dc_called c then
          (w, Raise (mkExn [UserClass "AlreadyCalled"; Exception] (Text "")))
        else
          (set_delayedCalls
             (update_nth call
                (fun c => mkDelayedCall (dc_time c) (dc_description c)
                                        (dc_called c) true)
                (delayedCalls w)) w,
           Ret PyNone)
    | None =>
        (w, Raise (mkExn [UserClass "AlreadyCalled"; Exception] (Text "")))
    end.

(** [l or x], where [x] is what a callback was called with. *)
Definition py_or (l : PyValue) (x : Outcome) : Outcome :=
  if truthy l then Success l else x.

(** [lambda x: call.active() and call.cancel() or x]. *)
Definition cancelTimeout (call : nat) (x : Outcome) : M Outcome :=
  a <- active call ;;
  a_and_c <- (if truthy a then cancel call else ret a) ;;
  ret (py_or a_and_c x).

(** Modelled from the spec: the callbacks of a Deferred run in the order
    they were attached; what a callback raises becomes the result. *)
Fixpoint _runCallbacks_from (cbs : list Callback) (current : Outcome)
  : World -> World * Outcome :=
  fun w =>
    match cbs with
    | [] => (w, current)
    | User f :: rest => _runCallbacks_from rest (f current) w
    | CancelTimeout call :: rest =>
        match cancelTimeout call current w with
        | (w', Ret x) => _runCallbacks_from rest x w'
        | (w', Raise e) => _runCallbacks_from rest (Failed e) w'
        | (w', Hang) => _runCallbacks_from rest current w'
        end
    end.

(** Modelled from the spec: the chain runs once the Deferred has fired and
    is not waiting. *)
Definition _runCallbacks (d : Deferred) : M Deferred :=
  fun w =>
    if d_called d && negb (d_paused d) then
      let (w', r) := _runCallbacks_from (d_callbacks d) (d_result d) w in
      (w', Ret (mkDeferred true false r []))
    else (w, Ret d).

(** Modelled from the spec: [d.addBoth(cb)] attaches the callback, which
    runs at once when the Deferred has fired already. *)
Definition addBoth (d : Deferred) (cb : Callback) : M Deferred :=
  _runCallbacks
    (mkDeferred (d_called d) (d_paused d) (d_result d) (d_callbacks d ++ [cb])).

(** Modelled from the spec: [d.callback(v)] and [d.errback(f)]; firing a
    Deferred that has fired raises [AlreadyCalledError]. *)
Definition fire (d : Deferred) (o : Outcome) : M Deferred :=
  if d_called d then
    raise (mkExn [AlreadyCalledError; Exception] (Text ""))
  else
    _runCallbacks (mkDeferred true (d_paused d) o (d_callbacks d)).

Definition errback (d : Deferred) (f : Exn) : M Deferred := fire d (Failed f).

(** Modelled from the spec: the Deferred the chain was waiting for fires,
    and the chain resumes with its result. *)
Definition resume (d : Deferred) (o : Outcome) : M Deferred :=
  _runCallbacks (mkDeferred (d_called d) false o (d_callbacks d)).

(** The final result of a Deferred whose chain has run to its end. *)
Definition settled (d : Deferred) : option Outcome :=
  match d_callbacks d with
  | [] => if d_called d && negb (d_paused d) then Some (d_result d) else None
  | _ :: _ => None
  end.

(** ** Running one phase *)

(** Modelled from the spec: [defer.maybeDeferred(..., func)] calls the
    function and wraps what it returns or raises in a Deferred.  The
    [addCleanup] calls of the function land on [self._cleanups]. *)
Definition maybeDeferred (func : Action) : M Deferred :=
  exec (fun w => set_cleanups (_cleanups w ++ registers func) w) ;;
  match behaves func with
  | Returns v => ret (succeed v)
  | Raises e => ret (fail e)
  | ReturnsDeferred d _ => ret d
  end.

Definition onTimeout (self : TestCase) (funcDescription : string)
    (timeout : pyfloat) (d : Deferred) : M Deferred :=
  let e := mkExn [TimeoutError; Exception] (StillRunning funcDescription timeout) in
  let f := e in
  try_except (errback d f)
    (fun err =>
       if isinstance err AlreadyCalledError then
         exec crash ;;
         exec (set_timedOut true) ;;
         let todo := getTodo self in
         match todo with
         | Some t =>
             if expected t f then exec (report (addExpectedFailure f t))
             else exec (report (addError f))
         | None => exec (report (addError f))
         end ;;
         ret d
       else raise err).

(** [_run] returns the Deferred; the model returns with it the handle of the
    timeout call that guards it, if one was scheduled. *)
Definition _run (self : TestCase) (func : Action) (funcDescription : string)
  : M (Deferred * option nat) :=
  timeout <- getTimeout self ;;
  if isgeneratorfunction func then
    let exc := mkExn [TypeError; Exception] (NeverRuns (__name__ func)) in
    ret (fail exc, None)
  else
    exec (note (Call funcDescription func)) ;;       (* ghost *)
    d <- maybeDeferred func ;;
    call <- callLater timeout funcDescription ;;
    d' <- addBoth d (CancelTimeout call) ;;
    ret (d', Some call).

(** The reactor runs a delayed call that is still active: here, always
    [onTimeout] on the Deferred it guards. *)
Definition runDelayedCall (self : TestCase) (call : nat) (d : Deferred)
  : M Deferred :=
  fun w =>
    match nth_error (delayedCalls w) call with
    | Some c =>
        if negb (dc_cancelled c || dc_called c) then
          onTimeout self (dc_description c) (dc_time c) d
            (set_delayedCalls
               (update_nth call
                  (fun c => mkDelayedCall (dc_time c) (dc_description c)
                                          true (dc_cancelled c))
                  (delayedCalls w)) w)
        else (w, Ret d)
    | None => (w, Ret d)
    end.

Definition deliver (d : Deferred) (o : Outcome) : M Deferred :=
  if d_called d then resume d o else fire d o.

Definition hang {A} : M A := fun w => (w, Hang).

(** [StopIteration], which the module does not name. *)
Definition StopIteration : ExcClass := UserClass "StopIteration".

(** The [value] of a [StopIteration]: the argument it was built with,
    [None] without one.  The awaits of the module discard it. *)
Definition stop_value (e : Exn) : PyValue :=
  match exn_args e with
  | Text s => if String.eqb s EmptyString then PyNone else PyStr s
  | _ => PyNone
  end.

(** Modelled from the spec: [await d] on a Deferred that has its result.
    The interpreter asks the Deferred for its next item, and
    [Deferred.__next__] raises [StopIteration(result)] for a result and the
    exception of a Failure itself; any [StopIteration] that comes out ends
    the await with its value.  So a Failure that holds a [StopIteration]
    counts as a result and is not raised into the coroutine. *)
Definition result_of (o : Outcome) : M PyValue :=
  match o with
  | Success v => ret v
  | Failed e => if isinstance e StopIteration then ret (stop_value e) else raise e
  end.

(** Modelled from the spec: what [_inlineCallbacks] resumes a coroutine or a
    generator with: it sends a result, and throws the exception of a Failure
    into it, where it is raised at the [await] or the [yield], whatever its
    class. *)
Definition resumed_with (o : Outcome) : M PyValue :=
  match o with
  | Success v => ret v
  | Failed e => raise e
  end.

(** Modelled from the spec: the coroutine, or the generator, is suspended
    on the Deferred of [_run] and the reactor goes on: it delivers what the
    function's Deferred is due before the timeout, if anything, and then
    runs the timeout call if that is still to come.  A Deferred still
    unsettled after that never resumes the coroutine. *)
Definition suspend (self : TestCase) (later : option Outcome)
    (p : Deferred * option nat) : M PyValue :=
  let (d, call) := p in
  exec suspension ;;                                   (* ghost *)
  d1 <- match later with
        | Some o => deliver d o
        | None => ret d
        end ;;
  match settled d1 with
  | Some o => resumed_with o
  | None =>
      d2 <- match call with
            | Some c => runDelayedCall self c d1
            | None => ret d1
            end ;;
      match settled d2 with
      | Some o => resumed_with o
      | None => hang
      end
  end.

(** [await d] for the Deferred of [_run], in the coroutines. *)
Definition await (self : TestCase) (later : option Outcome)
    (p : Deferred * option nat) : M PyValue :=
  match settled (fst p) with
  | Some o => result_of o
  | None => suspend self later p
  end.

(** [yield d] for the Deferred of [_run], in the generator of
    [_deferRunCleanups]: [_inlineCallbacks] resumes the generator at once
    when the Deferred has its result. *)
Definition yield (self : TestCase) (later : option Outcome)
    (p : Deferred * option nat) : M PyValue :=
  match settled (fst p) with
  | Some o => resumed_with o
  | None => suspend self later p
  end.

Definition later_of (b : Behaviour) : option Outcome :=
  match b with
  | ReturnsDeferred _ later => later
  | _ => None
  end.

(** [await self._run(func, funcDescription, result)]. *)
Definition await_run (self : TestCase) (func : Action)
    (funcDescription : string) : M PyValue :=
  p <- _run self func funcDescription ;;
  await self (later_of (behaves func)) p.

(** [yield self._run(func, funcDescription, result)]. *)
Definition yield_run (self : TestCase) (func : Action)
    (funcDescription : string) : M PyValue :=
  p <- _run self func funcDescription ;;
  yield self (later_of (behaves func)) p.

(** ** The cleanup stack *)

(** [list.pop()]: the last element, and the list without it. *)
Definition pop {A} (l : list A) : option (list A * A) :=
  match rev l with
  | [] => None
  | x :: r => Some (rev r, x)
  end.

(** The function [_deferRunCleanups] hands to [_run] for a cleanup: a lambda
    that calls it with its arguments.  A lambda is no generator function. *)
Definition thunk (func : Action) : Action :=
  mkAction (Some "<lambda>"%string) false (registers func) (behaves func).

(** The number of calls a callable can cause when it is unwound: itself and
    whatever the cleanups it registers cause. *)
Fixpoint weight (a : Action) : nat :=
  match a with
  | mkAction _ _ regs _ =>
      S ((fix weights (l : list Action) : nat :=
            match l with
            | [] => 0
            | x :: t => weight x + weights t
            end) regs)
  end.

Definition stack_weight (cs : list Action) : nat := list_sum (map weight cs).

Fixpoint for_each {A} (l : list A) (body : A -> M unit) : M unit :=
  match l with
  | [] => ret tt
  | x :: t => body x ;; for_each t body
  end.

(** The [while] loop of [_deferRunCleanups], which returns its [failures].
    [fuel] bounds the iterations; [stack_weight] of the stack is enough:
    more changes nothing (lemma [while_fuel_irrelevant]). *)
Fixpoint _deferRunCleanups_while (self : TestCase) (fuel : nat)
    (failures : list Exn) : M (list Exn) :=
  fun w =>
    match pop (_cleanups w) with
    | None => (w, Ret failures)
    | Some (rest, func) =>
        match fuel with
        | O => (w, Hang)
        | S fuel' =>
            (exec (set_cleanups rest) ;;
             failures' <-
               try_except
                 (match __name__ func with
                  | Some name =>
                      yield_run self (thunk func) ("cleanup function " ++ name)
                  | None =>
                      raise (mkExn [AttributeError; Exception] (Text "__name__"))
                  end ;;
                  ret failures)
                 (fun e =>
                    if isinstance e Exception then ret (failures ++ [e])
                    else raise e) ;;
             _deferRunCleanups_while self fuel' failures') w
        end
    end.

Definition _deferRunCleanups (self : TestCase) : M unit :=
  exec (note (Enter CleaningUp)) ;;                    (* ghost *)
  failures <-
    (fun w =>
       _deferRunCleanups_while self (stack_weight (_cleanups w)) [] w) ;;
  for_each failures
    (fun f => exec (report (addError f)) ;; exec (set_passed false)).

(** ** The fixture sequence *)

Definition _ebDeferTestMethod (self : TestCase) (f : Exn) : M unit :=
  let todo := getTodo self in
  let unexpected :=
    if check f [failureException self; FailTest] then
      exec (report (addFailure f))
    else if check f [KeyboardInterrupt] then
      exec (report (addError f)) ;;
      exec (report stop)
    else if check f [SkipTest] then
      exec (report (addSkip (_getSkipReason self (testMethod self) f)))
    else
      exec (report (addError f)) in
  match todo with
  | Some t =>
      if expected t f then exec (report (addExpectedFailure f t))
      else unexpected
  | None => unexpected
  end.

Definition _deferTearDown (self : TestCase) : M unit :=
  exec (note (Enter TearingDown)) ;;                   (* ghost *)
  try_except
    (await_run self (tearDown self) "tearDown" ;; ret tt)
    (fun e =>
       if isinstance e KeyboardInterrupt then
         exec (report (addError e)) ;;
         exec (report stop) ;;
         exec (set_passed false)
       else
         exec (report (addError e)) ;;
         exec (set_passed false)).

(** The innermost [try] of [_deferSetUp]: the test method and the
    classification of what it did. *)
Definition _deferSetUp_testMethod (self : TestCase) : M unit :=
  try_except
    (await_run self (testMethod self) (_testMethodName self) ;;
     match getTodo self with
     | Some todo => exec (report (addUnexpectedSuccess todo))
     | None => exec (set_passed true)
     end)
    (fun e => _ebDeferTestMethod self e ;; raise e).

Definition _deferSetUp (self : TestCase) : M unit :=
  exec (note (Enter SettingUp)) ;;                     (* ghost *)
  proceed <-
    try_except
      (await_run self (setUp self) "setUp" ;; ret true)
      (fun e =>
         if isinstance e SkipTest then
           exec (report (addSkip (_getSkipReason self (setUp self) e))) ;;
           _deferRunCleanups self ;;
           ret false
         else if isinstance e KeyboardInterrupt then
           exec (report (addError e)) ;;
           exec (report stop) ;;
           _deferRunCleanups self ;;
           ret false
         else
           exec (report (addError e)) ;;
           _deferRunCleanups self ;;
           ret false) ;;
  if proceed : bool then
    try_finally
      (try_finally
         (exec (note (Enter RunningTest)) ;;           (* ghost *)
          _deferSetUp_testMethod self)
         (_deferRunCleanups self))
      (_deferTearDown self)
  else ret tt.

(** ** The end of the test *)

Definition _cleanUp (self : TestCase) : M unit :=
  try_except
    (for_each (janitor_reports (postCaseCleanup self))
       (fun e => exec (report (addError e))) ;;
     clean <- (fun w => (w, janitor_returns (postCaseCleanup self))) ;;
     if negb clean then exec (set_passed false) else ret tt)
    (fun e => exec (report (addError e)) ;; exec (set_passed false)) ;;
  for_each (getErrors self)
    (fun error => exec (report (addError error)) ;; exec (set_passed false)) ;;
  fun w => if _passed w then exec (report addSuccess) w else ret tt w.

Definition _classCleanUp (self : TestCase) : M unit :=
  match postClassCleanup self with
  | Some e => exec (report (addError e))
  | None => ret tt
  end.

(** ** Waiting for a Deferred *)

(** What [reactor.run()] does before it returns, as far as [_wait] can tell:
    the Deferred waited for fires; the reactor is stopped or crashed by
    someone else; [run] raises; it never returns; or, first, one of the
    callbacks it runs calls [_wait] itself on some Deferred [d'], with
    [inner] for the run that call would start. *)
Inductive ReactorRun : Type :=
| Firing (o : Outcome)
| Stopped
| RunRaises (e : Exn)
| Forever
| Waiting (d' : option Outcome) (inner : ReactorRun) (rest : ReactorRun).

(** The body of [_wait], for a given [reactor.run()].  [d] is the result of
    the Deferred if it has fired already.  [run] returns [results]. *)
Definition _wait_with (self : TestCase) (run : M (list Outcome))
    (d : option Outcome) : M unit :=
  fun w =>
    match running w with
    | _ :: _ =>
        (w, Raise (mkExn [RuntimeError; Exception] NotReentrant))
    | [] =>
        (exec (fun w => set_running (running w ++ [tt]) w) ;;
         try_finally
           (match d with
            | Some o => ret tt          (* append ran at once: results = [o] *)
            | None =>
                results <- run ;;
                timedOut <- (fun w => (w, Ret (_timedOut w))) ;;
                match results with
                | _ :: _ => ret tt
                | [] =>
                    if timedOut : bool then ret tt
                    else raise (mkExn [KeyboardInterrupt] (Text ""))
                end
            end)
           (exec (fun w => set_running (removelast (running w)) w))) w
    end.

(** [reactor.run()] under [_wait]: when the Deferred fires, [append] records
    the result and [crash] crashes the reactor.  What a callback raises is
    logged by the reactor and goes no further. *)
Fixpoint reactor_run (self : TestCase) (s : ReactorRun) : M (list Outcome) :=
  match s with
  | Firing o => exec crash ;; ret [o]
  | Stopped => ret []
  | RunRaises e => raise e
  | Forever => hang
  | Waiting d' inner rest =>
      fun w =>
        match _wait_with self (reactor_run self inner) d' w with
        | (w', Hang) => (w', Hang)
        | (w', _) => reactor_run self rest w'
        end
  end.

Definition _wait (self : TestCase) (s : ReactorRun) (d : option Outcome)
  : M unit :=
  _wait_with self (reactor_run self s) d.

(** What leaves a coroutine: the interpreter replaces a [StopIteration]
    that would leave it by a [RuntimeError]. *)
Definition leaving (e : Exn) : Exn :=
  if isinstance e StopIteration then
    mkExn [RuntimeError; Exception] (Text "coroutine raised StopIteration")
  else e.

(** Modelled from the spec: the Deferred of a coroutine after [coro], the
    rest of it, has run as far as it ever gets.  The Deferred has its result at once when the
    coroutine came to its end without giving way to the reactor since it was
    started, with [since] suspensions on the count; when it gave way, the
    Deferred is without a result until the reactor has run. *)
Definition deferred_since (since : nat) (coro : M unit) : M (option Outcome) :=
  fun w =>
    match coro w with
    | (w', Hang) => (w', Ret None)
    | (w', r) =>
        (w', Ret (if Nat.eqb (suspensions w') since then
                    Some (match r with
                          | Raise e => Failed (leaving e)
                          | _ => Success PyNone
                          end)
                  else None))
    end.

(** Modelled from the spec: [defer.Deferred.fromCoroutine(coro)], which
    runs the coroutine until it ends or gives way for the first time, and
    returns its Deferred.  A coroutine that has given way goes on under the
    reactor, which is run by [_wait]; what it does there is accounted for
    here, ahead of [_wait]: it reads neither [_wait_is_running] nor the
    count of crashes, and [_wait] reads [_timedOut] after the reactor has
    run.  So a run of the reactor in which the coroutine comes to its end
    is one that fires the Deferred. *)
Definition fromCoroutine (coro : M unit) : M (option Outcome) :=
  fun w => deferred_since (suspensions w) coro w.

Definition _runFixturesAndTest (self : TestCase) (s : ReactorRun) : M unit :=
  exec (set_timedOut false) ;;
  d <- fromCoroutine (_deferSetUp self) ;;
  try_finally (_wait self s d) (_cleanUp self ;; _classCleanUp self).

(** ** What a phase amounts to

    The functions above thread the world through Deferreds and delayed
    calls.  The definitions below say what awaiting a phase comes to, without
    the world; the lemmas [getTimeout_eq] and [await_run_spec] relate the
    two. *)

(** The value of [getTimeout]. *)
Definition getTimeout_value (self : TestCase) : Res pyfloat :=
  match float (acquireAttribute (_parents self) (PyFloat DEFAULT_TIMEOUT_DURATION)) with
  | Raise e =>
      if check e [ValueError; TypeError] then Ret DEFAULT_TIMEOUT_DURATION
      else Raise e
  | r => r
  end.

(** Whether [getTimeout] warns. *)
Definition getTimeout_warns (self : TestCase) : bool :=
  match float (acquireAttribute (_parents self) (PyFloat DEFAULT_TIMEOUT_DURATION)) with
  | Raise e => check e [ValueError; TypeError]
  | _ => false
  end.

(** The result at the end of a callback chain. *)
Definition chain (cbs : list Callback) (o : Outcome) : Outcome :=
  fold_left
    (fun x cb => match cb with User f => f x | CancelTimeout _ => x end)
    cbs o.

Definition timeoutFailure (funcDescription : string) (timeout : pyfloat) : Exn :=
  mkExn [TimeoutError; Exception] (StillRunning funcDescription timeout).

(** The final result of the Deferred of a phase, [None] when it never has
    one; [f] is the failure [onTimeout] would errback it with. *)
Definition phase_outcome (f : Exn) (b : Behaviour) : option Outcome :=
  match b with
  | Returns v => Some (Success v)
  | Raises e => Some (Failed e)
  | ReturnsDeferred d later =>
      if d_called d && negb (d_paused d) then
        Some (chain (d_callbacks d) (d_result d))
      else if d_paused d then
        match later with
        | Some o => if d_called d then Some (chain (d_callbacks d) o) else None
        | None => None
        end
      else
        match later with
        | Some o => Some (chain (d_callbacks d) o)
        | None => Some (chain (d_callbacks d) (Failed f))
        end
  end.

(** Whether [_run] gets to call the function. *)
Definition invoked (self : TestCase) (func : Action) : bool :=
  match getTimeout_value self with
  | Ret _ => negb (isgeneratorfunction func)
  | _ => false
  end.

(** The function returns a Deferred that has no final result yet when
    [_run] hands it over, so that whoever waits for it is suspended. *)
Definition suspends (b : Behaviour) : bool :=
  match b with
  | ReturnsDeferred d _ => negb (d_called d && negb (d_paused d))
  | _ => false
  end.

(** What [yield self._run(func, funcDescription, result)] comes to. *)
Definition yield_result (self : TestCase) (func : Action)
    (funcDescription : string) : Res PyValue :=
  match getTimeout_value self with
  | Ret timeout =>
      if isgeneratorfunction func then
        Raise (mkExn [TypeError; Exception] (NeverRuns (__name__ func)))
      else
        match phase_outcome (timeoutFailure funcDescription timeout) (behaves func) with
        | Some (Success v) => Ret v
        | Some (Failed e) => Raise e
        | None => Hang
        end
  | Raise e => Raise e
  | Hang => Hang
  end.

(** What [await self._run(func, funcDescription, result)] comes to: the
    same, but that a [StopIteration] the function raised, or failed a
    Deferred with before it returned it, ends the await like a result. *)
Definition phase_result (self : TestCase) (func : Action)
    (funcDescription : string) : Res PyValue :=
  match yield_result self func funcDescription with
  | Raise e =>
      if invoked self func && negb (suspends (behaves func)) &&
         isinstance e StopIteration
      then Ret (stop_value e)
      else Raise e
  | r => r
  end.

(** When the timeout elapses the function's Deferred has fired, before it
    was returned or by what the reactor delivered, and its chain is still
    waiting. *)
Definition stalls (b : Behaviour) : bool :=
  match b with
  | ReturnsDeferred d None => d_called d && d_paused d
  | ReturnsDeferred d (Some _) => negb (d_called d) && d_paused d
  | _ => false
  end.

(** What [onTimeout] reports itself when it cannot errback the Deferred. *)
Definition timeout_report (self : TestCase) (f : Exn) : ResultCall :=
  match getTodo self with
  | Some t => if expected t f then addExpectedFailure f t else addError f
  | None => addError f
  end.

(** The reports made by [onTimeout] during a phase. *)
Definition phase_reports (self : TestCase) (func : Action)
    (funcDescription : string) : list ResultCall :=
  match getTimeout_value self with
  | Ret timeout =>
      if negb (isgeneratorfunction func) && stalls (behaves func) then
        [timeout_report self (timeoutFailure funcDescription timeout)]
      else []
  | _ => []
  end.

(** [w'] differs from [w] in the delayed calls at most. *)
Definition only_calls (w w' : World) : Prop :=
  w' = set_delayedCalls (delayedCalls w') w.

(** [w'] differs from [w] in the delayed calls and the warnings at most. *)
Definition same_test (w w' : World) : Prop :=
  log w' = log w /\ _cleanups w' = _cleanups w /\ trace w' = trace w /\
  _passed w' = _passed w /\ running w' = running w /\
  _timedOut w' = _timedOut w /\ crashes w' = crashes w.

Definition deferred_of (b : Behaviour) : Deferred :=
  match b with
  | Returns v => succeed v
  | Raises e => fail e
  | ReturnsDeferred d _ => d
  end.

(** The end of [_run] and the [await] on its Deferred. *)
Definition guarded_await (self : TestCase) (funcDescription : string)
    (timeout : pyfloat) (d : Deferred) (later : option Outcome) : M PyValue :=
  p <- (call <- callLater timeout funcDescription ;;
        d' <- addBoth d (CancelTimeout call) ;;
        ret (d', Some call)) ;;
  await self later p.

(** The end of [_run] and the [yield] of its Deferred. *)
Definition guarded_yield (self : TestCase) (funcDescription : string)
    (timeout : pyfloat) (d : Deferred) (later : option Outcome) : M PyValue :=
  p <- (call <- callLater timeout funcDescription ;;
        d' <- addBoth d (CancelTimeout call) ;;
        ret (d', Some call)) ;;
  yield self later p.

(** Whether the one who waits for [_run] is suspended. *)
Definition phase_suspends (self : TestCase) (func : Action) : bool :=
  invoked self func && suspends (behaves func).

(** Whether [onTimeout] finds the Deferred of the phase fired already. *)
Definition phase_stalls (self : TestCase) (func : Action) : bool :=
  invoked self func && stalls (behaves func).

(** *** The cleanup stack, unwound *)

(** The calls unwinding one cleanup causes: the cleanup, then the cleanups
    it registered, last registered first, each unwound in turn. *)
Fixpoint unwind (a : Action) : list Action :=
  match a with
  | mkAction _ _ regs _ =>
      a :: (fix unwind_all (l : list Action) : list Action :=
              match l with
              | [] => []
              | x :: t => unwind_all t ++ unwind x
              end) regs
  end.

(** The order in which a stack is unwound: from its top, the last element. *)
Definition unwind_order (cs : list Action) : list Action :=
  flat_map unwind (rev cs).

(** A property of a callable and of every cleanup it can cause. *)
Fixpoint deep (P : Action -> bool) (a : Action) : bool :=
  match a with
  | mkAction _ _ regs _ => P a && forallb (deep P) regs
  end.

Definition cleanup_description (a : Action) : string :=
  "cleanup function " ++ match __name__ a with Some name => name | None => "" end.

(** The trace of the call of a cleanup. *)
Definition cleanup_call (a : Action) : TraceEvent :=
  Call (cleanup_description a) (thunk a).

(** One turn of the loop of [_deferRunCleanups], after the pop: the
    arguments of [_run] are evaluated, then [_run] is awaited. *)
Definition cleanup_turn (self : TestCase) (func : Action) : M PyValue :=
  match __name__ func with
  | Some name => yield_run self (thunk func) ("cleanup function " ++ name)
  | None => raise (mkExn [AttributeError; Exception] (Text "__name__"))
  end.

(** What that turn gets for a cleanup. *)
Definition cleanup_result (self : TestCase) (a : Action) : Res PyValue :=
  match __name__ a with
  | Some name => yield_result self (thunk a) ("cleanup function " ++ name)
  | None => Raise (mkExn [AttributeError; Exception] (Text "__name__"))
  end.

(** Whether that turn gets to call the cleanup. *)
Definition cleanup_called (self : TestCase) (a : Action) : bool :=
  match __name__ a with
  | Some _ => invoked self (thunk a)
  | None => false
  end.

Definition cleanup_reports (self : TestCase) (a : Action) : list ResultCall :=
  match __name__ a with
  | Some name => phase_reports self (thunk a) ("cleanup function " ++ name)
  | None => []
  end.

(** The loop calls the cleanup and goes on to the next after it: the
    cleanup returns, or fails with an [Exception]. *)
Definition unwinds (self : TestCase) (a : Action) : bool :=
  cleanup_called self a &&
  match cleanup_result self a with
  | Ret _ => true
  | Raise e => isinstance e Exception
  | Hang => false
  end.

(** The coroutine is resumed after the cleanup. *)
Definition settles (self : TestCase) (a : Action) : bool :=
  match cleanup_result self a with
  | Hang => false
  | _ => true
  end.

(** The failures of the cleanups called, in the order of the calls. *)
Definition failures_of (self : TestCase) (order : list Action) : list Exn :=
  flat_map
    (fun a => match cleanup_result self a with Raise e => [e] | _ => [] end)
    order.

(** The states entered, read off the trace. *)
Definition entries (tr : list TraceEvent) : list SeqState :=
  flat_map (fun ev => match ev with Enter s => [s] | Call _ _ => [] end) tr.

(** A report of an error: [addError], or the [addExpectedFailure] of
    [onTimeout]. *)
Definition error_report (c : ResultCall) : Prop :=
  match c with
  | addError _ | addExpectedFailure _ _ => True
  | _ => False
  end.

(** *** The classification of the test method, as the specification words it *)

Inductive Classification : Type :=
| UnexpectedSuccess (todo : Todo)
| Passed
| ExpectedFailure (f : Exn) (todo : Todo)
| FailedAssertion (f : Exn)
| Interrupted (f : Exn)
| Skipped (f : Exn)
| Errored (f : Exn).


(** An assertion-style failure. *)
Definition assertion_failure (self : TestCase) (f : Exn) : bool :=
  isinstance f (failureException self) || isinstance f FailTest.


(** The classification the rules give, computed. *)
Definition classify_unexpected (self : TestCase) (f : Exn) : Classification :=
  if assertion_failure self f then FailedAssertion f
  else if isinstance f KeyboardInterrupt then Interrupted f
  else if isinstance f SkipTest then Skipped f
  else Errored f.

Definition classify (self : TestCase) (r : PyValue + Exn) : Classification :=
  match r, getTodo self with
  | inl _, Some todo => UnexpectedSuccess todo
  | inl _, None => Passed
  | inr f, Some todo =>
      if expected todo f then ExpectedFailure f todo
      else classify_unexpected self f
  | inr f, None => classify_unexpected self f
  end.

(** What each classification does to the result and to [_passed]. *)
Definition classified (self : TestCase) (c : Classification) (w : World) : World :=
  match c with
  | UnexpectedSuccess todo => report (addUnexpectedSuccess todo) w
  | Passed => set_passed true w
  | ExpectedFailure f todo => report (addExpectedFailure f todo) w
  | FailedAssertion f => report (addFailure f) w
  | Interrupted f => report stop (report (addError f) w)
  | Skipped f => report (addSkip (_getSkipReason self (testMethod self) f)) w
  | Errored f => report (addError f) w
  end.

(** *** Steps that cannot make the test a success *)

(** From a world where [_passed] is false, [m] leaves it false and reports
    no success. *)
Definition quiet {A} (m : M A) : Prop :=
  forall w, _passed w = false ->
    exists evs,
      log (fst (m w)) = log w ++ evs /\
      Forall (fun c => c <> addSuccess) evs /\
      _passed (fst (m w)) = false.

(** *** What the handlers report *)

(** What an [except] clause that reports an error sends to the result:
    [addError], and [stop] after it for a [KeyboardInterrupt]. *)
Definition error_calls (e : Exn) : list ResultCall :=
  addError e :: (if isinstance e KeyboardInterrupt then [stop] else []).

(** [w'] differs from [w] in the log and in [_passed] at most. *)
Definition same_run (w w' : World) : Prop :=
  _cleanups w' = _cleanups w /\ trace w' = trace w /\ running w' = running w /\
  _timedOut w' = _timedOut w /\ crashes w' = crashes w /\
  delayedCalls w' = delayedCalls w.

(** [w'] differs from [w] in [_wait_is_running] and in the crashes of the
    reactor at most. *)
Definition only_reactor (w w' : World) : Prop :=
  log w' = log w /\ _passed w' = _passed w /\ _cleanups w' = _cleanups w /\
  trace w' = trace w /\ _timedOut w' = _timedOut w /\
  delayedCalls w' = delayedCalls w.

(** *** Delayed calls that are still to come *)

(** The truth value [call.active()] returns. *)
Definition is_active (call : nat) (w : World) : bool :=
  match nth_error (delayedCalls w) call with
  | Some c => negb (dc_cancelled c || dc_called c)
  | None => false
  end.

(** No delayed call is still to come: each was cancelled or has run. *)
Definition idle (w : World) : Prop :=
  forall call, snd (active call w) = Ret (PyBool false).

(** [m] leaves no delayed call behind when it comes back. *)
Definition tidy {A} (m : M A) : Prop :=
  forall w, idle w -> snd (m w) <> Hang -> idle (fst (m w)).

(** From [w] to [w'] no delayed call has become active. *)
Definition calmer (w w' : World) : Prop :=
  forall call, is_active call w' = true -> is_active call w = true.

(** ** assertFailure *)

(** The classes that follow a class in its [__mro__] ([BaseException] and
    [object] left implicit). *)
Variable bases : ExcClass -> list ExcClass.

(** [repr] of a value, [repr] of a tuple of classes and [str] of a
    Failure, which the messages of [assertFailure] are made of. *)
Variable repr : PyValue -> string.
Variable repr_classes : list ExcClass -> string.
Variable str_failure : Exn -> string.

(** [failure.value]: the exception a Failure wraps, as a value. *)
Variable value : Exn -> PyValue.

(** [cls(args)]: a new instance of an exception class. *)
Definition instance (cls : ExcClass) (args : Message) : Exn :=
  mkExn (cls :: bases cls) args.

Definition nl : string := String (Ascii.ascii_of_nat 10) EmptyString.

(** The callback of [assertFailure]; what it raises is the Failure the
    chain goes on with. *)
Definition _cb (self : TestCase) (ignore : PyValue) : Outcome :=
  Failed (instance (failureException self)
            (Text ("did not catch an error, instead got " ++ repr ignore))).

(** The errback of [assertFailure]. *)
Definition _eb (self : TestCase) (expectedFailures : list ExcClass)
    (failure : Exn) : Outcome :=
  if check failure expectedFailures then Success (value failure)
  else
    let output :=
      (nl ++ "Expected: " ++ repr_classes expectedFailures ++ nl ++
       "Got:" ++ nl ++ str_failure failure)%string in
    Failed (instance (failureException self) (Text output)).

(** Modelled from the spec: [d.addCallbacks(callback, errback)], which
    attaches the pair as one step of the chain: the callback for a result,
    the errback for a Failure. *)
Definition addCallbacks (d : Deferred) (callback : PyValue -> Outcome)
    (errback : Exn -> Outcome) : M Deferred :=
  addBoth d (User (fun o => match o with
                            | Success v => callback v
                            | Failed f => errback f
                            end)).

Definition assertFailure (self : TestCase) (deferred : Deferred)
    (expectedFailures : list ExcClass) : M Deferred :=
  addCallbacks deferred (_cb self) (_eb self expectedFailures).

(** What the two callbacks of [assertFailure] make of a result. *)
Definition asserted (self : TestCase) (expectedFailures : list ExcClass)
    (o : Outcome) : Outcome :=
  match o with
  | Success v => _cb self v
  | Failed f => _eb self expectedFailures f
  end.

(** ** The reactor methods a test must not use *)

(** A callable found as an attribute of the reactor: one the reactor had
    (with what a call of it returns or raises), or a function made by
    [_makeReactorMethod]. *)
Inductive Method : Type :=
| Native (id : string) (result : Res PyValue)
| Deprecating (name : string).

(** A [dict] with [str] keys, in insertion order. *)
Definition Dict : Type := list (string * Method).

(** [d[k]], [None] for a missing key. *)
Fixpoint dict_get (k : string) (d : Dict) : option Method :=
  match d with
  | [] => None
  | (k', v) :: rest => if String.eqb k' k then Some v else dict_get k rest
  end.

(** [d[k] = v]: a key that is there keeps its place. *)
Fixpoint dict_set (k : string) (v : Method) (d : Dict) : Dict :=
  match d with
  | [] => [(k, v)]
  | (k', v') :: rest =>
      if String.eqb k' k then (k, v) :: rest else (k', v') :: dict_set k v rest
  end.

(** What the three methods read and write: the attributes of the reactor
    as [getattr] finds them, [self._reactorMethods], the deprecation
    warnings issued and, as a ghost, the calls the reactor's own methods
    received. *)
Record Patching : Type := mkPatching {
  reactor_attrs : Dict;
  _reactorMethods : Dict;
  deprecations : list string;
  reactor_calls : list string }.

Definition setattr (name : string) (m : Method) (s : Patching) : Patching :=
  mkPatching (dict_set name m (reactor_attrs s)) (_reactorMethods s)
             (deprecations s) (reactor_calls s).

Definition set_reactorMethods (d : Dict) (s : Patching) : Patching :=
  mkPatching (reactor_attrs s) d (deprecations s) (reactor_calls s).

Definition deprecation_message (name : string) : string :=
  "reactor." ++ name ++ " cannot be used inside unit tests. " ++
  "In the future, using " ++ name ++ " will fail the test and may " ++
  "crash or hang the test run.".

Definition _makeReactorMethod (name : string) : Method := Deprecating name.

(** A call of a method.  The function of [_makeReactorMethod] warns, then
    looks the original up in [self._reactorMethods], at the time of the
    call, and calls it.  [depth] is the number of nested calls the
    interpreter still allows.  A warning is recorded as issued: the warning
    filters, which may drop it or raise it, are left out. *)
Fixpoint call_method (depth : nat) (m : Method) (s : Patching)
  : Patching * Res PyValue :=
  match m with
  | Native id result =>
      (mkPatching (reactor_attrs s) (_reactorMethods s) (deprecations s)
                  (reactor_calls s ++ [id]), result)
  | Deprecating name =>
      let s1 := mkPatching (reactor_attrs s) (_reactorMethods s)
                           (deprecations s ++ [deprecation_message name])
                           (reactor_calls s) in
      match dict_get name (_reactorMethods s1) with
      | None =>
          (s1, Raise (mkExn [UserClass "KeyError"; UserClass "LookupError"; Exception]
                            (Text name)))
      | Some original =>
          match depth with
          | O =>
              (s1, Raise (mkExn [UserClass "RecursionError"; RuntimeError; Exception]
                                (Text "maximum recursion depth exceeded")))
          | S depth' => call_method depth' original s1
          end
      end
  end.

(** The [for] loop of [_deprecateReactor]. *)
Fixpoint _deprecateReactor_for (names : list string) (s : Patching)
  : Patching * Res unit :=
  match names with
  | [] => (s, Ret tt)
  | name :: rest =>
      match dict_get name (reactor_attrs s) with      (* getattr(reactor, name) *)
      | None => (s, Raise (mkExn [AttributeError; Exception] (Text name)))
      | Some m =>
          _deprecateReactor_for rest
            (setattr name (_makeReactorMethod name)
               (set_reactorMethods (dict_set name m (_reactorMethods s)) s))
      end
  end.

Definition _deprecateReactor (s : Patching) : Patching * Res unit :=
  _deprecateReactor_for ["crash"; "iterate"; "stop"]%string (set_reactorMethods [] s).

Definition _undeprecateReactor (s : Patching) : Patching * Res unit :=
  (set_reactorMethods []
     (fold_left (fun s item => setattr (fst item) (snd item) s)
        (_reactorMethods s) s),
   Ret tt).

(** The Deferred of a coroutine started in [w], as [_wait] finds it when
    the coroutine has got to [w1] with [r]: it has its result only if the
    coroutine came to its end without giving way to the reactor. *)
Definition coroutine_deferred (w w1 : World) (r : Res unit) : option Outcome :=
  match r with
  | Hang => None
  | r =>
      if Nat.eqb (suspensions w1) (suspensions w) then
        Some (match r with
              | Raise e => Failed (leaving e)
              | _ => Success PyNone
              end)
      else None
  end.

(** Whether the generator of [_deferRunCleanups] is suspended on a
    cleanup. *)
Definition cleanup_suspends (self : TestCase) (a : Action) : bool :=
  match __name__ a with
  | Some _ => phase_suspends self (thunk a)
  | None => false
  end.

(** [m] does not lower the count of suspensions. *)
Definition rising {A} (m : M A) : Prop :=
  forall w, suspensions w <= suspensions (fst (m w)).

(** [m] does not crash the reactor when it comes back. *)
Definition calm {A} (m : M A) : Prop :=
  forall w, snd (m w) <> Hang -> crashes (fst (m w)) = crashes w.

(** [m] leaves [_wait_is_running] as it is. *)
Definition keeps_lock {A} (m : M A) : Prop :=
  forall w, running (fst (m w)) = running w.

(** * Properties *)

#[local] Arguments String.append : simpl never.
#[local] Arguments isinstance : simpl never.

(** ** The world: what a step leaves alone *)

Lemma only_calls_refl w : only_calls w w.
Proof. destruct w; reflexivity. Qed.

Lemma only_calls_set dcs w : only_calls w (set_delayedCalls dcs w).
Proof. destruct w; reflexivity. Qed.

Lemma only_calls_trans w1 w2 w3 :
  only_calls w1 w2 -> only_calls w2 w3 -> only_calls w1 w3.
Proof.
  unfold only_calls; intros H12 H23.
  rewrite H23, H12. destruct w1; reflexivity.
Qed.

Lemma getTimeout_eq self w :
  getTimeout self w =
  ((if getTimeout_warns self then warn timeout_warning w else w),
   getTimeout_value self).
Proof.
  unfold getTimeout, getTimeout_value, getTimeout_warns, try_except.
  destruct (float _) as [f | e | ]; try reflexivity.
  destruct (check e _); reflexivity.
Qed.

(** ** The continuation that cancels the timeout *)

Lemma cancelTimeout_result call x w :
  snd (cancelTimeout call x w) = Ret x.
Proof.
  unfold cancelTimeout, bind, active, cancel, ret.
  destruct (nth_error (delayedCalls w) call) as [c | ] eqn:E; simpl.
  - destruct (dc_cancelled c) eqn:Ec; destruct (dc_called c) eqn:Ed; simpl;
      rewrite ?E, ?Ec, ?Ed; reflexivity.
  - reflexivity.
Qed.

Lemma cancelTimeout_only_calls call x w :
  only_calls w (fst (cancelTimeout call x w)).
Proof.
  unfold cancelTimeout, bind, active, cancel, ret.
  destruct (nth_error (delayedCalls w) call) as [c | ] eqn:E; simpl.
  - destruct (dc_cancelled c) eqn:Ec; destruct (dc_called c) eqn:Ed; simpl;
      rewrite ?E, ?Ec, ?Ed; simpl;
      auto using only_calls_refl, only_calls_set.
  - apply only_calls_refl.
Qed.

Lemma runCallbacks_from_spec cbs : forall o w,
  snd (_runCallbacks_from cbs o w) = chain cbs o /\
  only_calls w (fst (_runCallbacks_from cbs o w)).
Proof.
  induction cbs as [ | [f | call] rest IH]; intros o w; simpl.
  - split; [reflexivity | apply only_calls_refl].
  - apply IH.
  - pose proof (cancelTimeout_result call o w) as Hr.
    pose proof (cancelTimeout_only_calls call o w) as Hw.
    destruct (cancelTimeout call o w) as [w' r]; simpl in *; subst r.
    destruct (IH o w') as [IH1 IH2]. split; [exact IH1 | ].
    eapply only_calls_trans; eassumption.
Qed.

Lemma chain_app cbs1 cbs2 o : chain (cbs1 ++ cbs2) o = chain cbs2 (chain cbs1 o).
Proof. unfold chain. apply fold_left_app. Qed.

Lemma chain_cancel cbs call o : chain (cbs ++ [CancelTimeout call]) o = chain cbs o.
Proof. rewrite chain_app. reflexivity. Qed.

Lemma runCallbacks_ready d w :
  d_called d && negb (d_paused d) = true ->
  exists w',
    _runCallbacks d w =
      (w', Ret (mkDeferred true false (chain (d_callbacks d) (d_result d)) [])) /\
    only_calls w w'.
Proof.
  intros H. unfold _runCallbacks. rewrite H.
  destruct (runCallbacks_from_spec (d_callbacks d) (d_result d) w) as [Hr Hw].
  destruct (_runCallbacks_from (d_callbacks d) (d_result d) w) as [w' r].
  simpl in *. subst r. exists w'. split; [reflexivity | exact Hw].
Qed.

Lemma runCallbacks_waiting d w :
  d_called d && negb (d_paused d) = false -> _runCallbacks d w = (w, Ret d).
Proof. intros H. unfold _runCallbacks. rewrite H. reflexivity. Qed.

Lemma only_calls_same_test w w' : only_calls w w' -> same_test w w'.
Proof. unfold only_calls. intros ->. repeat split. Qed.

(** ** One phase *)

Lemma nth_error_last {A} (l : list A) (x : A) :
  nth_error (l ++ [x]) (List.length l) = Some x.
Proof.
  rewrite nth_error_app2 by lia. rewrite Nat.sub_diag. reflexivity.
Qed.

Lemma yield_run_unfold self func funcDescription w :
  let w0 := if getTimeout_warns self then warn timeout_warning w else w in
  yield_run self func funcDescription w =
  match getTimeout_value self with
  | Ret timeout =>
      if isgeneratorfunction func then
        (w0, Raise (mkExn [TypeError; Exception] (NeverRuns (__name__ func))))
      else
        guarded_yield self funcDescription timeout
          (deferred_of (behaves func)) (later_of (behaves func))
          (set_cleanups (_cleanups w0 ++ registers func)
             (note (Call funcDescription func) w0))
  | Raise e => (w0, Raise e)
  | Hang => (w0, Hang)
  end.
Proof.
  intros w0. unfold yield_run, _run, bind. rewrite getTimeout_eq. fold w0.
  destruct (getTimeout_value self) as [timeout | e | ]; try reflexivity.
  destruct (isgeneratorfunction func); [reflexivity | ].
  unfold guarded_yield, maybeDeferred, bind, exec. simpl.
  destruct (behaves func); reflexivity.
Qed.

Lemma await_run_unfold self func funcDescription w :
  let w0 := if getTimeout_warns self then warn timeout_warning w else w in
  await_run self func funcDescription w =
  match getTimeout_value self with
  | Ret timeout =>
      if isgeneratorfunction func then
        (w0, Raise (mkExn [TypeError; Exception] (NeverRuns (__name__ func))))
      else
        guarded_await self funcDescription timeout
          (deferred_of (behaves func)) (later_of (behaves func))
          (set_cleanups (_cleanups w0 ++ registers func)
             (note (Call funcDescription func) w0))
  | Raise e => (w0, Raise e)
  | Hang => (w0, Hang)
  end.
Proof.
  intros w0. unfold await_run, _run, bind. rewrite getTimeout_eq. fold w0.
  destruct (getTimeout_value self) as [timeout | e | ]; try reflexivity.
  destruct (isgeneratorfunction func); [reflexivity | ].
  unfold guarded_await, maybeDeferred, bind, exec. simpl.
  destruct (behaves func); reflexivity.
Qed.

Lemma phase_outcome_deferred_of f b :
  phase_outcome f b = phase_outcome f (ReturnsDeferred (deferred_of b) (later_of b)).
Proof. destruct b; reflexivity. Qed.

Lemma stalls_deferred_of b :
  stalls b = stalls (ReturnsDeferred (deferred_of b) (later_of b)).
Proof. destruct b; reflexivity. Qed.

Lemma suspends_deferred_of b :
  suspends b = negb (d_called (deferred_of b) && negb (d_paused (deferred_of b))).
Proof. destruct b; reflexivity. Qed.

Lemma settled_pending called paused res cbs cb :
  settled (mkDeferred called paused res (cbs ++ [cb])) = None.
Proof.
  unfold settled; simpl. destruct (cbs ++ [cb]) eqn:E; [ | reflexivity].
  destruct cbs; discriminate.
Qed.

Ltac same_test_rewrite :=
  repeat match goal with
         | H : only_calls _ _ |- _ => apply only_calls_same_test in H
         | H : same_test _ _ |- _ =>
             let Hl := fresh in let Hc := fresh in let Ht := fresh in
             let Hp := fresh in let Hr := fresh in
             let Ho := fresh in let Hx := fresh in
             destruct H as (Hl & Hc & Ht & Hp & Hr & Ho & Hx);
             try rewrite Hl; try rewrite Hc; try rewrite Ht;
             try rewrite Hp; try rewrite Hr; try rewrite Ho; try rewrite Hx
         end.

Lemma guarded_yield_spec self funcDescription timeout d later w :
  let f := timeoutFailure funcDescription timeout in
  let stalled := stalls (ReturnsDeferred d later) in
  exists w' r,
    guarded_yield self funcDescription timeout d later w = (w', r) /\
    r = match phase_outcome f (ReturnsDeferred d later) with
        | Some (Success v) => Ret v
        | Some (Failed e) => Raise e
        | None => Hang
        end /\
    _cleanups w' = _cleanups w /\
    trace w' = trace w /\
    log w' = log w ++ (if stalled then [timeout_report self f] else []) /\
    _passed w' = _passed w /\
    running w' = running w /\
    _timedOut w' = (if stalled then true else _timedOut w) /\
    crashes w' = (if stalled then S (crashes w) else crashes w).
Proof.
  intros f stalled.
  unfold guarded_yield, bind, callLater.
  set (c := List.length (delayedCalls w)).
  set (w1 := set_delayedCalls _ w).
  assert (Hc : nth_error (delayedCalls w1) c =
               Some (mkDelayedCall timeout funcDescription false false)).
  { subst w1 c. simpl. apply nth_error_last. }
  assert (H1 : same_test w w1) by (subst w1; repeat split).
  clearbody w1 c.
  unfold addBoth.
  destruct (d_called d && negb (d_paused d)) eqn:Eready.
  - (* the Deferred has fired and its chain runs to its end at once *)
    destruct (runCallbacks_ready
                (mkDeferred (d_called d) (d_paused d) (d_result d)
                            (d_callbacks d ++ [CancelTimeout c])) w1 Eready)
      as (w2 & E2 & H2).
    rewrite E2. unfold yield. simpl. rewrite chain_cancel.
    assert (Es : stalled = false).
    { subst stalled. simpl.
      destruct later, (d_called d), (d_paused d); auto; discriminate. }
    rewrite Es, Eready, app_nil_r.
    destruct (chain (d_callbacks d) (d_result d)) as [v | e];
      do 2 eexists; (split; [reflexivity | ]); same_test_rewrite; repeat split; auto.
  - (* the generator is suspended *)
    rewrite runCallbacks_waiting by exact Eready.
    unfold yield. simpl. rewrite settled_pending.
    unfold suspend, bind, exec. rewrite Eready.
    set (w1' := suspension w1).
    assert (Hc' : nth_error (delayedCalls w1') c =
                  Some (mkDelayedCall timeout funcDescription false false))
      by exact Hc.
    assert (H1' : same_test w w1').
    { subst w1'. destruct H1 as (? & ? & ? & ? & ? & ? & ?). repeat split; assumption. }
    clear Hc H1. clearbody w1'.
    destruct later as [o | ].
    + (* its result is delivered before the timeout *)
      unfold deliver, resume, fire, bind; simpl.
      destruct (d_called d) eqn:Ecalled.
      * assert (Ep : d_paused d = true) by (destruct (d_paused d); auto; discriminate).
        assert (Es : stalled = false).
        { subst stalled. simpl. rewrite Ecalled. reflexivity. }
        rewrite Es, app_nil_r. rewrite Ep.
        destruct (runCallbacks_ready
                    (mkDeferred true false o (d_callbacks d ++ [CancelTimeout c]))
                    w1' eq_refl) as (w2 & E2 & H2).
        rewrite E2. simpl. rewrite chain_cancel.
        destruct (chain (d_callbacks d) o) as [v | e];
          do 2 eexists; (split; [reflexivity | ]);
          same_test_rewrite; repeat split; auto.
      * destruct (d_paused d) eqn:Ep.
        -- (* fired while its chain is paused: the timeout finds it fired *)
           assert (Es : stalled = true).
           { subst stalled. simpl. rewrite Ecalled, Ep. reflexivity. }
           rewrite Es.
           rewrite runCallbacks_waiting by reflexivity.
           rewrite settled_pending.
           unfold runDelayedCall. rewrite Hc'. simpl.
           set (w2 := set_delayedCalls _ w1').
           assert (H2 : same_test w1' w2) by (subst w2; repeat split).
           clearbody w2.
           unfold onTimeout, try_except, errback, fire; simpl.
           change (mkExn [TimeoutError; Exception]
                         (StillRunning funcDescription timeout)) with f.
           unfold timeout_report, bind, exec, ret.
           destruct (getTodo self) as [t | ]; [destruct (expected t f) | ];
             rewrite settled_pending;
             do 2 eexists; (split; [reflexivity | ]); simpl;
             same_test_rewrite; repeat split; auto.
        -- assert (Es : stalled = false).
           { subst stalled. simpl. rewrite Ecalled, Ep. reflexivity. }
           rewrite Es, app_nil_r.
           destruct (runCallbacks_ready
                       (mkDeferred true false o (d_callbacks d ++ [CancelTimeout c]))
                       w1' eq_refl) as (w2 & E2 & H2).
           rewrite E2. simpl. rewrite chain_cancel.
           destruct (chain (d_callbacks d) o) as [v | e];
             do 2 eexists; (split; [reflexivity | ]);
             same_test_rewrite; repeat split; auto.
    + (* the timeout elapses: the reactor calls onTimeout *)
      simpl. rewrite settled_pending.
      unfold runDelayedCall. rewrite Hc'. simpl.
      set (w2 := set_delayedCalls _ w1').
      assert (H2 : same_test w1' w2) by (subst w2; repeat split).
      clearbody w2.
      unfold onTimeout, try_except, errback, fire; simpl.
      change (mkExn [TimeoutError; Exception]
                    (StillRunning funcDescription timeout)) with f.
      destruct (d_called d) eqn:Ecalled.
      * assert (Ep : d_paused d = true) by (destruct (d_paused d); auto; discriminate).
        assert (Es : stalled = true).
        { subst stalled. simpl. rewrite Ecalled, Ep. reflexivity. }
        rewrite Es, Ep. simpl.
        unfold timeout_report, bind, exec, ret.
        destruct (getTodo self) as [t | ]; [destruct (expected t f) | ];
          rewrite settled_pending;
          do 2 eexists; (split; [reflexivity | ]); simpl;
          same_test_rewrite; repeat split; auto.
      * assert (Es : stalled = false).
        { subst stalled. simpl. rewrite Ecalled. reflexivity. }
        rewrite Es, app_nil_r.
        destruct (d_paused d) eqn:Ep.
        -- rewrite runCallbacks_waiting by reflexivity.
           rewrite settled_pending.
           do 2 eexists; (split; [reflexivity | ]);
             same_test_rewrite; repeat split; auto.
        -- destruct (runCallbacks_ready
                       (mkDeferred true false (Failed f)
                                   (d_callbacks d ++ [CancelTimeout c]))
                       w2 eq_refl) as (w3 & E3 & H3).
           rewrite E3. simpl. rewrite chain_cancel.
           destruct (chain (d_callbacks d) (Failed f)) as [v | e];
             do 2 eexists; (split; [reflexivity | ]);
             same_test_rewrite; repeat split; auto.
Qed.

Lemma yield_run_spec self func funcDescription w :
  exists w',
    yield_run self func funcDescription w =
      (w', yield_result self func funcDescription) /\
    _cleanups w' =
      _cleanups w ++ (if invoked self func then registers func else []) /\
    trace w' =
      trace w ++ (if invoked self func then [Call funcDescription func] else []) /\
    log w' = log w ++ phase_reports self func funcDescription /\
    _passed w' = _passed w /\
    running w' = running w /\
    _timedOut w' = (if phase_stalls self func then true else _timedOut w) /\
    crashes w' = (if phase_stalls self func then S (crashes w) else crashes w).
Proof.
  rewrite yield_run_unfold.
  unfold yield_result, phase_stalls, invoked, phase_reports.
  set (w0 := if getTimeout_warns self then warn timeout_warning w else w).
  assert (H0 : same_test w w0).
  { subst w0. destruct (getTimeout_warns self); repeat split. }
  clearbody w0.
  destruct (getTimeout_value self) as [timeout | e | ]; simpl;
    [ | exists w0; rewrite !app_nil_r; same_test_rewrite; repeat split; auto
      | exists w0; rewrite !app_nil_r; same_test_rewrite; repeat split; auto ].
  destruct (isgeneratorfunction func); simpl.
  { exists w0; rewrite !app_nil_r; same_test_rewrite; repeat split; auto. }
  rewrite phase_outcome_deferred_of, stalls_deferred_of.
  destruct (guarded_yield_spec self funcDescription timeout
              (deferred_of (behaves func)) (later_of (behaves func))
              (set_cleanups (_cleanups w0 ++ registers func)
                 (note (Call funcDescription func) w0)))
    as (w' & r & E & Er & Hc & Ht & Hl & Hp & Hr & Ho & Hx).
  exists w'. rewrite E, Er. simpl in *.
  rewrite Hc, Ht, Hl, Hp, Hr, Ho, Hx.
  same_test_rewrite. repeat split; auto.
Qed.

(** An [await] differs from a [yield] only in what it makes of a
    [StopIteration] that the Deferred holds when it is awaited. *)
Lemma guarded_await_yield self funcDescription timeout d later w :
  guarded_await self funcDescription timeout d later w =
  let (w', r) := guarded_yield self funcDescription timeout d later w in
  (w', match r with
       | Raise e =>
           if d_called d && negb (d_paused d) && isinstance e StopIteration
           then Ret (stop_value e)
           else Raise e
       | r => r
       end).
Proof.
  unfold guarded_await, guarded_yield, bind, callLater, addBoth.
  set (c := List.length (delayedCalls w)).
  set (w1 := set_delayedCalls _ w). clearbody w1 c.
  destruct (d_called d && negb (d_paused d)) eqn:Eready.
  - destruct (runCallbacks_ready
                (mkDeferred (d_called d) (d_paused d) (d_result d)
                            (d_callbacks d ++ [CancelTimeout c])) w1 Eready)
      as (w2 & E2 & H2).
    rewrite E2. unfold await, yield. simpl.
    destruct (chain (d_callbacks d ++ [CancelTimeout c]) (d_result d)) as [v | e];
      simpl; [reflexivity | ].
    destruct (isinstance e StopIteration); reflexivity.
  - rewrite runCallbacks_waiting by exact Eready.
    unfold await, yield. simpl. rewrite settled_pending.
    match goal with
    | |- ?m w1 = _ => destruct (m w1) as [w' [v | e | ]]; reflexivity
    end.
Qed.

Lemma await_run_yield_run self func funcDescription w :
  await_run self func funcDescription w =
  let (w', r) := yield_run self func funcDescription w in
  (w', match r with
       | Raise e =>
           if invoked self func && negb (suspends (behaves func)) &&
              isinstance e StopIteration
           then Ret (stop_value e)
           else Raise e
       | r => r
       end).
Proof.
  rewrite await_run_unfold, yield_run_unfold. unfold invoked.
  destruct (getTimeout_value self) as [timeout | e | ]; try reflexivity.
  destruct (isgeneratorfunction func); [reflexivity | ].
  rewrite guarded_await_yield, suspends_deferred_of, negb_involutive.
  reflexivity.
Qed.

Lemma await_run_spec self func funcDescription w :
  exists w',
    await_run self func funcDescription w =
      (w', phase_result self func funcDescription) /\
    _cleanups w' =
      _cleanups w ++ (if invoked self func then registers func else []) /\
    trace w' =
      trace w ++ (if invoked self func then [Call funcDescription func] else []) /\
    log w' = log w ++ phase_reports self func funcDescription /\
    _passed w' = _passed w /\
    running w' = running w /\
    _timedOut w' = (if phase_stalls self func then true else _timedOut w) /\
    crashes w' = (if phase_stalls self func then S (crashes w) else crashes w).
Proof.
  destruct (yield_run_spec self func funcDescription w) as (w' & E & H).
  exists w'. split; [ | exact H].
  rewrite await_run_yield_run, E. unfold phase_result.
  destruct (yield_result self func funcDescription); reflexivity.
Qed.

Lemma stalls_outcome f b : stalls b = true -> phase_outcome f b = None.
Proof.
  destruct b as [v | e | d [o | ]]; simpl; try discriminate.
  - intros H. apply andb_true_iff in H. destruct H as [Hc Hp].
    apply negb_true_iff in Hc. rewrite Hc, Hp. reflexivity.
  - intros H. apply andb_true_iff in H. destruct H as [Hc Hp].
    rewrite Hc, Hp. reflexivity.
Qed.

Lemma phase_result_yield_result self func funcDescription :
  phase_result self func funcDescription =
  match yield_result self func funcDescription with
  | Ret v => Ret v
  | Raise e =>
      if invoked self func && negb (suspends (behaves func)) &&
         isinstance e StopIteration
      then Ret (stop_value e)
      else Raise e
  | Hang => Hang
  end.
Proof.
  unfold phase_result. destruct (yield_result self func funcDescription); reflexivity.
Qed.

Lemma phase_result_hang self func funcDescription :
  phase_result self func funcDescription = Hang <->
  yield_result self func funcDescription = Hang.
Proof.
  rewrite phase_result_yield_result.
  destruct (yield_result self func funcDescription) as [v | e | ];
    [split; discriminate | | split; reflexivity].
  destruct (_ && isinstance e StopIteration); split; discriminate.
Qed.

Lemma phase_result_raises self func funcDescription e :
  invoked self func = true ->
  behaves func = Raises e ->
  phase_result self func funcDescription =
    if isinstance e StopIteration then Ret (stop_value e) else Raise e.
Proof.
  intros Hi Hb. rewrite phase_result_yield_result. rewrite Hi.
  revert Hi. unfold invoked, yield_result.
  destruct (getTimeout_value self) as [timeout | e' | ]; try discriminate.
  destruct (isgeneratorfunction func); [discriminate | intros _].
  rewrite Hb. reflexivity.
Qed.

Lemma yield_result_stalls self func funcDescription :
  phase_stalls self func = true ->
  yield_result self func funcDescription = Hang.
Proof.
  unfold phase_stalls, invoked, yield_result. intros H.
  apply andb_true_iff in H. destruct H as [Hi Hs].
  destruct (getTimeout_value self) as [timeout | e | ]; try discriminate.
  destruct (isgeneratorfunction func); [discriminate | ].
  rewrite (stalls_outcome _ _ Hs). reflexivity.
Qed.

(** ** The timeout value *)

Lemma float_returns_or_raises x : float x <> Hang.
Proof.
  destruct x; simpl; try discriminate.
  - destruct (float_of_int z); discriminate.
  - destruct (float_of_str s); discriminate.
Qed.

(** C9 (amended).  [getTimeout] returns a float whenever [float] accepts the
    resolved timeout attribute or rejects it with a [ValueError] or a
    [TypeError].  A value [float] accepts, a numeric string among them, is
    returned converted, with no warning; a value rejected with one of these
    two is answered by the warning and the default.  An exception of another
    class raised by [float] is not caught: it leaves [getTimeout]. *)
Theorem getTimeout_float_or_default self w :
  let timeout :=
    acquireAttribute (_parents self) (PyFloat DEFAULT_TIMEOUT_DURATION) in
  float timeout <> Hang /\
  (forall f, float timeout = Ret f -> getTimeout self w = (w, Ret f)) /\
  (forall s f, timeout = PyStr s -> float_of_str s = Some f ->
     getTimeout self w = (w, Ret f)) /\
  (forall e, float timeout = Raise e -> check e [ValueError; TypeError] = true ->
     getTimeout self w =
       (warn timeout_warning w, Ret DEFAULT_TIMEOUT_DURATION)) /\
  (forall e, float timeout = Raise e -> check e [ValueError; TypeError] = false ->
     getTimeout self w = (w, Raise e)).
Proof.
  intros timeout. split; [apply float_returns_or_raises | ].
  assert (H : forall f, float timeout = Ret f -> getTimeout self w = (w, Ret f)).
  { intros f Hf. rewrite getTimeout_eq.
    unfold getTimeout_warns, getTimeout_value. fold timeout. rewrite Hf.
    reflexivity. }
  split; [exact H | ]. split.
  - intros s f Hs Hf. apply H. rewrite Hs. simpl. rewrite Hf. reflexivity.
  - split; intros e He Hc; rewrite getTimeout_eq;
      unfold getTimeout_warns, getTimeout_value; fold timeout;
      rewrite He, Hc; reflexivity.
Qed.

(** ** The phase runner *)

(** C10.  The continuation [_run] attaches to cancel the timeout call returns
    what it is called with, whether the call is still active (it is then
    cancelled) or not (nothing changes); so a callback chain that ends with
    it has the result the chain had without it. *)
Theorem cancelTimeout_identity call x w :
  snd (cancelTimeout call x w) = Ret x /\
  (snd (active call w) = Ret (PyBool true) ->
   snd (active call (fst (cancelTimeout call x w))) = Ret (PyBool false)) /\
  (snd (active call w) = Ret (PyBool false) ->
   fst (cancelTimeout call x w) = w) /\
  (forall cbs o,
     snd (_runCallbacks_from (cbs ++ [CancelTimeout call]) o w) =
     snd (_runCallbacks_from cbs o w)).
Proof.
  split; [apply cancelTimeout_result | ].
  split; [ | split].
  - unfold cancelTimeout, bind, active, cancel, ret; simpl.
    destruct (nth_error (delayedCalls w) call) as [c | ] eqn:E; [ | discriminate].
    destruct (dc_cancelled c) eqn:Ec; destruct (dc_called c) eqn:Ed;
      simpl; try discriminate.
    intros _. rewrite E, Ec, Ed. simpl.
    clear Ec Ed. revert call E.
    induction (delayedCalls w) as [ | c0 l IH]; intros [ | n] E; simpl in *;
      try discriminate.
    + reflexivity.
    + apply IH. exact E.
  - unfold cancelTimeout, bind, active, cancel, ret; simpl.
    destruct (nth_error (delayedCalls w) call) as [c | ] eqn:E; [ | reflexivity].
    destruct (dc_cancelled c) eqn:Ec; destruct (dc_called c) eqn:Ed;
      simpl; try discriminate; reflexivity.
  - intros cbs o.
    rewrite (proj1 (runCallbacks_from_spec (cbs ++ [CancelTimeout call]) o w)).
    rewrite (proj1 (runCallbacks_from_spec cbs o w)).
    apply chain_cancel.
Qed.

(** C8 (amended).  When [getTimeout] returns, [_run] on a generator function
    returns at once a Deferred failed with a [TypeError]; it neither calls
    the function nor schedules a timeout call. *)
Theorem run_generator_function self func funcDescription w timeout :
  isgeneratorfunction func = true ->
  snd (getTimeout self w) = Ret timeout ->
  let exc := mkExn [TypeError; Exception] (NeverRuns (__name__ func)) in
  exists w',
    _run self func funcDescription w = (w', Ret (fail exc, None)) /\
    delayedCalls w' = delayedCalls w /\
    trace w' = trace w /\
    _cleanups w' = _cleanups w /\
    snd (await_run self func funcDescription w) = Raise exc.
Proof.
  intros Hgen Ht exc.
  unfold await_run, _run, bind.
  destruct (getTimeout self w) as [w0 r] eqn:E. simpl in Ht. subst r.
  rewrite Hgen. exists w0.
  rewrite getTimeout_eq in E. inversion E as [[Ew Er]].
  split; [reflexivity | ].
  destruct (getTimeout_warns self); repeat split.
Qed.

(** C3.  When [onTimeout] finds that the Deferred has fired already, so that
    [errback] raises [AlreadyCalledError], it crashes the reactor, sets
    [_timedOut] and reports the timeout failure to the result itself: as an
    expected failure when the todo annotation expects it, as an error
    otherwise.  The coroutine that awaits the phase is not resumed, so the
    classification of the phase never sees the failure. *)
Theorem onTimeout_already_called self funcDescription timeout d w :
  d_called d = true ->
  let f := timeoutFailure funcDescription timeout in
  let w' := set_timedOut true (crash w) in
  snd (errback d f w) = Raise (mkExn [AlreadyCalledError; Exception] (Text "")) /\
  (forall t, getTodo self = Some t -> expected t f = true ->
     onTimeout self funcDescription timeout d w =
       (report (addExpectedFailure f t) w', Ret d)) /\
  (forall t, getTodo self = Some t -> expected t f = false ->
     onTimeout self funcDescription timeout d w = (report (addError f) w', Ret d)) /\
  (getTodo self = None ->
     onTimeout self funcDescription timeout d w = (report (addError f) w', Ret d)) /\
  (forall func w0,
     invoked self func = true -> stalls (behaves func) = true ->
     getTimeout_value self = Ret timeout ->
     exists w1,
       await_run self func funcDescription w0 = (w1, Hang) /\
       log w1 = log w0 ++ [timeout_report self f] /\
       _timedOut w1 = true /\
       crashes w1 = S (crashes w0)).
Proof.
  intros Hcalled f w'.
  assert (He : errback d f w =
               (w, Raise (mkExn [AlreadyCalledError; Exception] (Text "")))).
  { unfold errback, fire. rewrite Hcalled. reflexivity. }
  split; [rewrite He; reflexivity | ].
  unfold onTimeout, try_except.
  change (mkExn [TimeoutError; Exception]
                (StillRunning funcDescription timeout)) with f.
  rewrite He. simpl.
  unfold bind, exec, ret.
  split; [ | split; [ | split]].
  - intros t Ht Hx. rewrite Ht, Hx. reflexivity.
  - intros t Ht Hx. rewrite Ht, Hx. reflexivity.
  - intros Ht. rewrite Ht. reflexivity.
  - intros func w0 Hinv Hst Hto.
    destruct (await_run_spec self func funcDescription w0)
      as (w1 & E & _ & _ & Hl & _ & _ & Ho & Hx).
    assert (Hs : phase_stalls self func = true).
    { unfold phase_stalls. rewrite Hinv, Hst. reflexivity. }
    exists w1. rewrite Hs in *.
    unfold phase_reports in Hl.
    unfold invoked in Hinv. rewrite Hto in *.
    destruct (isgeneratorfunction func); [discriminate | ].
    rewrite Hst in Hl. simpl in Hl.
    split; [ | auto].
    rewrite E. f_equal.
    apply phase_result_hang. apply yield_result_stalls. exact Hs.
Qed.

(** ** The classification of the test method *)

Lemma deferSetUp_testMethod_eq self w :
  let (w1, r) := await_run self (testMethod self) (_testMethodName self) w in
  _deferSetUp_testMethod self w =
    match r with
    | Ret v => (classified self (classify self (inl v)) w1, Ret tt)
    | Raise e => (classified self (classify self (inr e)) w1, Raise e)
    | Hang => (w1, Hang)
    end.
Proof.
  unfold _deferSetUp_testMethod, try_except, bind.
  destruct (await_run self (testMethod self) (_testMethodName self) w)
    as [w1 [v | e | ]]; [ | | reflexivity].
  - unfold classify. destruct (getTodo self); reflexivity.
  - unfold _ebDeferTestMethod, classify, classify_unexpected, assertion_failure,
      check, exec, bind, raise.
    simpl. rewrite !orb_false_r.
    destruct (getTodo self) as [t | ]; [destruct (expected t e) | ]; simpl;
      repeat match goal with
             | |- context [if ?b then _ else _] => destruct b
             end; reflexivity.
Qed.




(** ** The cleanup stack *)

Lemma pop_snoc {A} (l : list A) (a : A) : pop (l ++ [a]) = Some (l, a).
Proof. unfold pop. rewrite rev_unit, rev_involutive. reflexivity. Qed.

Lemma pop_some {A} (l rest : list A) (a : A) :
  pop l = Some (rest, a) -> l = rest ++ [a].
Proof.
  unfold pop. intros H. rewrite <- (rev_involutive l).
  destruct (rev l) as [ | x r]; [discriminate | ].
  inversion H; subst. reflexivity.
Qed.

Lemma pop_none {A} (l : list A) : pop l = None -> l = [].
Proof.
  unfold pop. intros H. rewrite <- (rev_involutive l).
  destruct (rev l); [reflexivity | discriminate].
Qed.

Lemma weight_eq a : weight a = S (stack_weight (registers a)).
Proof.
  destruct a as [n g regs b]. simpl. f_equal. unfold stack_weight.
  induction regs as [ | x t IH]; simpl; [reflexivity | ].
  rewrite IH. reflexivity.
Qed.

Lemma stack_weight_app cs1 cs2 :
  stack_weight (cs1 ++ cs2) = stack_weight cs1 + stack_weight cs2.
Proof. unfold stack_weight. rewrite map_app, list_sum_app. reflexivity. Qed.

Lemma stack_weight_snoc cs a :
  stack_weight (cs ++ [a]) = S (stack_weight (cs ++ registers a)).
Proof.
  rewrite !stack_weight_app. unfold stack_weight at 2. simpl.
  rewrite weight_eq. lia.
Qed.

Lemma unwind_eq a : unwind a = a :: unwind_order (registers a).
Proof.
  destruct a as [n g regs b]. simpl. f_equal. unfold unwind_order.
  induction regs as [ | x t IH]; simpl; [reflexivity | ].
  rewrite IH, flat_map_app. simpl. rewrite app_nil_r. reflexivity.
Qed.

Lemma unwind_order_app cs1 cs2 :
  unwind_order (cs1 ++ cs2) = unwind_order cs2 ++ unwind_order cs1.
Proof. unfold unwind_order. rewrite rev_app_distr, flat_map_app. reflexivity. Qed.

(** The top of the stack is unwound first; what it registered takes its
    place on the stack. *)
Lemma unwind_order_snoc cs a :
  unwind_order (cs ++ [a]) = a :: unwind_order (cs ++ registers a).
Proof.
  rewrite !unwind_order_app. unfold unwind_order at 1. simpl.
  rewrite app_nil_r, unwind_eq. reflexivity.
Qed.

Lemma deep_eq P a : deep P a = P a && forallb (deep P) (registers a).
Proof. destruct a; reflexivity. Qed.

Lemma unwind_order_flat cs :
  Forall (fun a => registers a = []) cs -> unwind_order cs = rev cs.
Proof.
  intros H. unfold unwind_order.
  assert (Hr : Forall (fun a => registers a = []) (rev cs)).
  { apply Forall_forall. intros a Ha. apply in_rev in Ha.
    revert a Ha. apply Forall_forall. exact H. }
  induction Hr as [ | x l Hx _ IH]; simpl; [reflexivity | ].
  rewrite unwind_eq, Hx, IH. reflexivity.
Qed.

Lemma error_report_timeout self f : error_report (timeout_report self f).
Proof.
  unfold timeout_report.
  destruct (getTodo self) as [t | ]; [destruct (expected t f) | ]; exact I.
Qed.

Lemma phase_reports_error self func funcDescription :
  Forall error_report (phase_reports self func funcDescription).
Proof.
  unfold phase_reports.
  destruct (getTimeout_value self); auto.
  destruct (negb _ && _); auto using error_report_timeout.
Qed.

Lemma phase_reports_stalls self func funcDescription :
  phase_reports self func funcDescription <> [] ->
  phase_stalls self func = true.
Proof.
  unfold phase_reports, phase_stalls, invoked.
  destruct (getTimeout_value self) as [t | e | ]; try congruence.
  destruct (negb (isgeneratorfunction func) && stalls (behaves func));
    congruence.
Qed.

Lemma yield_reports_hang self func funcDescription :
  phase_reports self func funcDescription <> [] ->
  yield_result self func funcDescription = Hang.
Proof.
  intros H. apply yield_result_stalls. revert H. apply phase_reports_stalls.
Qed.

(** A phase that reports its own timeout is one that never resumes the
    coroutine. *)
Lemma phase_reports_hang self func funcDescription :
  phase_reports self func funcDescription <> [] ->
  phase_result self func funcDescription = Hang.
Proof.
  intros H. apply phase_result_hang. revert H. apply yield_reports_hang.
Qed.

Lemma cleanup_turn_spec self a w :
  exists w1,
    cleanup_turn self a w = (w1, cleanup_result self a) /\
    _cleanups w1 =
      _cleanups w ++ (if cleanup_called self a then registers a else []) /\
    trace w1 = trace w ++ (if cleanup_called self a then [cleanup_call a] else []) /\
    log w1 = log w ++ cleanup_reports self a /\
    _passed w1 = _passed w /\
    running w1 = running w.
Proof.
  unfold cleanup_turn, cleanup_called, cleanup_call, cleanup_description,
    cleanup_result, cleanup_reports.
  destruct (__name__ a) as [name | ].
  - destruct (yield_run_spec self (thunk a) ("cleanup function " ++ name) w)
      as (w1 & E & Hc & Ht & Hl & Hp & Hr & _).
    exists w1. repeat split; assumption.
  - exists w. rewrite !app_nil_r. repeat split; reflexivity.
Qed.

(** One turn of the loop. *)
Lemma while_unfold_turn self fuel failures w rest a :
  pop (_cleanups w) = Some (rest, a) ->
  _deferRunCleanups_while self (S fuel) failures w =
    let (w1, r) := cleanup_turn self a (set_cleanups rest w) in
    match r with
    | Ret _ => _deferRunCleanups_while self fuel failures w1
    | Raise e =>
        if isinstance e Exception
        then _deferRunCleanups_while self fuel (failures ++ [e]) w1
        else (w1, Raise e)
    | Hang => (w1, Hang)
    end.
Proof.
  intros Hpop. simpl. rewrite Hpop.
  unfold bind at 1. unfold exec at 1. unfold bind at 1. unfold try_except, bind.
  fold (cleanup_turn self a).
  destruct (cleanup_turn self a (set_cleanups rest w)) as [w1 [v | e | ]];
    try reflexivity.
  destruct (isinstance e Exception); reflexivity.
Qed.

Lemma while_step self fuel failures w rest a :
  pop (_cleanups w) = Some (rest, a) ->
  exists w1,
    _cleanups w1 = rest ++ (if cleanup_called self a then registers a else []) /\
    trace w1 = trace w ++ (if cleanup_called self a then [cleanup_call a] else []) /\
    log w1 = log w ++ cleanup_reports self a /\
    _passed w1 = _passed w /\
    running w1 = running w /\
    _deferRunCleanups_while self (S fuel) failures w =
      match cleanup_result self a with
      | Ret _ => _deferRunCleanups_while self fuel failures w1
      | Raise e =>
          if isinstance e Exception
          then _deferRunCleanups_while self fuel (failures ++ [e]) w1
          else (w1, Raise e)
      | Hang => (w1, Hang)
      end.
Proof.
  intros Hpop. rewrite (while_unfold_turn self fuel failures w rest a Hpop).
  destruct (cleanup_turn_spec self a (set_cleanups rest w))
    as (w1 & E & Hc & Ht & Hl & Hp & Hr).
  exists w1. rewrite E. simpl in *. repeat split; assumption.
Qed.

Lemma while_unfold_empty self fuel failures w :
  pop (_cleanups w) = None ->
  _deferRunCleanups_while self fuel failures w = (w, Ret failures).
Proof. intros H. destruct fuel; simpl; rewrite H; reflexivity. Qed.

Lemma cleanup_reports_error self a : Forall error_report (cleanup_reports self a).
Proof.
  unfold cleanup_reports. destruct (__name__ a); auto using phase_reports_error.
Qed.

Lemma cleanup_reports_hang self a :
  cleanup_result self a <> Hang -> cleanup_reports self a = [].
Proof.
  unfold cleanup_result, cleanup_reports. destruct (__name__ a) as [name | ]; auto.
  intros H.
  destruct (phase_reports self (thunk a) ("cleanup function " ++ name)) eqn:E; auto.
  exfalso. apply H. apply yield_reports_hang. rewrite E. discriminate.
Qed.

Lemma entries_app tr1 tr2 : entries (tr1 ++ tr2) = entries tr1 ++ entries tr2.
Proof. unfold entries. apply flat_map_app. Qed.

Lemma entries_cleanup_call self a :
  entries (if cleanup_called self a then [cleanup_call a] else []) = [].
Proof. destruct (cleanup_called self a); reflexivity. Qed.

(** Whatever the cleanups do, the loop enters no state of the sequence,
    reports nothing but errors and leaves [_passed] alone. *)
Lemma while_frame self fuel : forall failures w,
  exists w' r tr evs,
    _deferRunCleanups_while self fuel failures w = (w', r) /\
    trace w' = trace w ++ tr /\ entries tr = [] /\
    log w' = log w ++ evs /\ Forall error_report evs /\
    _passed w' = _passed w /\ running w' = running w.
Proof.
  assert (Hstay : forall (w : World) (r : Res (list Exn)),
            exists w' r' tr evs,
              (w, r) = (w', r') /\
              trace w' = trace w ++ tr /\ entries tr = [] /\
              log w' = log w ++ evs /\ Forall error_report evs /\
              _passed w' = _passed w /\ running w' = running w).
  { intros w r. exists w, r, [], []. rewrite !app_nil_r. repeat split; auto. }
  induction fuel as [ | fuel IH]; intros failures w.
  - simpl. destruct (pop (_cleanups w)) as [[rest a] | ]; apply Hstay.
  - destruct (pop (_cleanups w)) as [[rest a] | ] eqn:Hpop.
    + destruct (while_step self fuel failures w rest a Hpop)
        as (w1 & _ & Ht & Hl & Hp & Hr & E).
      rewrite E.
      assert (Hgo : forall fs,
                exists w' r tr evs,
                  _deferRunCleanups_while self fuel fs w1 = (w', r) /\
                  trace w' = trace w ++ tr /\ entries tr = [] /\
                  log w' = log w ++ evs /\ Forall error_report evs /\
                  _passed w' = _passed w /\ running w' = running w).
      { intros fs.
        destruct (IH fs w1) as (w' & r & tr & evs & E' & Ht' & He' & Hl' & Hf' & Hp' & Hr').
        exists w', r, ((if cleanup_called self a then [cleanup_call a] else []) ++ tr),
          (cleanup_reports self a ++ evs).
        rewrite E', Ht', Hl', Hp', Hr', Ht, Hl, Hp, Hr, !app_assoc, entries_app,
          entries_cleanup_call, He'.
        repeat split; auto.
        apply Forall_app; split; auto using cleanup_reports_error. }
      assert (Hstop : forall r : Res (list Exn),
                exists w' r' tr evs,
                  (w1, r) = (w', r') /\
                  trace w' = trace w ++ tr /\ entries tr = [] /\
                  log w' = log w ++ evs /\ Forall error_report evs /\
                  _passed w' = _passed w /\ running w' = running w).
      { intros r.
        exists w1, r, (if cleanup_called self a then [cleanup_call a] else []),
          (cleanup_reports self a).
        rewrite entries_cleanup_call.
        repeat split; auto using cleanup_reports_error. }
      destruct (cleanup_result self a) as [v | e | ]; auto.
      destruct (isinstance e Exception); auto.
    + rewrite while_unfold_empty by exact Hpop. apply Hstay.
Qed.

Lemma forallb_snoc {A} (P : A -> bool) l a :
  forallb P (l ++ [a]) = true -> forallb P l = true /\ P a = true.
Proof.
  rewrite forallb_app. simpl. rewrite andb_true_r. apply andb_true_iff.
Qed.

Lemma deep_stack_step P rest a (called : bool) :
  forallb (deep P) (rest ++ [a]) = true ->
  P a = true /\
  forallb (deep P) (rest ++ (if called then registers a else [])) = true.
Proof.
  intros H. apply forallb_snoc in H. destruct H as [Hrest Ha].
  rewrite deep_eq in Ha. apply andb_true_iff in Ha. destruct Ha as [Ha Hregs].
  split; [exact Ha | ].
  rewrite forallb_app, Hrest. destruct called; simpl; auto.
Qed.

Lemma stack_weight_step rest a (called : bool) fuel :
  stack_weight (rest ++ [a]) <= S fuel ->
  stack_weight (rest ++ (if called then registers a else [])) <= fuel.
Proof.
  rewrite stack_weight_snoc. intros H.
  destruct called; [lia | ].
  rewrite stack_weight_app in *. unfold stack_weight at 2. simpl. lia.
Qed.

(** The number of turns: [stack_weight] of the stack is fuel enough, when
    every cleanup that can come on the stack lets the coroutine resume. *)
Lemma while_fuel_enough self fuel : forall failures w,
  stack_weight (_cleanups w) <= fuel ->
  forallb (deep (settles self)) (_cleanups w) = true ->
  snd (_deferRunCleanups_while self fuel failures w) <> Hang.
Proof.
  induction fuel as [ | fuel IH]; intros failures w Hfuel Hdeep.
  - destruct (pop (_cleanups w)) as [[rest a] | ] eqn:Hpop.
    + apply pop_some in Hpop. rewrite Hpop, stack_weight_snoc in Hfuel. lia.
    + rewrite while_unfold_empty by exact Hpop. discriminate.
  - destruct (pop (_cleanups w)) as [[rest a] | ] eqn:Hpop.
    + destruct (while_step self fuel failures w rest a Hpop)
        as (w1 & Hc & _ & _ & _ & _ & E).
      rewrite E. apply pop_some in Hpop. rewrite Hpop in *.
      destruct (deep_stack_step _ _ _ (cleanup_called self a) Hdeep) as [Ha Hnext].
      apply (stack_weight_step _ _ (cleanup_called self a)) in Hfuel.
      rewrite <- Hc in Hnext, Hfuel.
      unfold settles in Ha.
      destruct (cleanup_result self a) as [v | e | ]; [ | | discriminate].
      * apply IH; assumption.
      * destruct (isinstance e Exception); [apply IH; assumption | discriminate].
    + rewrite while_unfold_empty by exact Hpop. discriminate.
Qed.

(** More fuel than [stack_weight] of the stack changes nothing. *)
Lemma while_fuel_irrelevant self : forall fuel1 fuel2 failures w,
  stack_weight (_cleanups w) <= fuel1 ->
  stack_weight (_cleanups w) <= fuel2 ->
  _deferRunCleanups_while self fuel1 failures w =
  _deferRunCleanups_while self fuel2 failures w.
Proof.
  induction fuel1 as [ | fuel1 IH]; intros fuel2 failures w H1 H2.
  - destruct (pop (_cleanups w)) as [[rest a] | ] eqn:Hpop.
    + apply pop_some in Hpop. rewrite Hpop, stack_weight_snoc in H1. lia.
    + rewrite !while_unfold_empty by exact Hpop. reflexivity.
  - destruct (pop (_cleanups w)) as [[rest a] | ] eqn:Hpop.
    + destruct fuel2 as [ | fuel2].
      { apply pop_some in Hpop. rewrite Hpop, stack_weight_snoc in H2. lia. }
      rewrite !(while_unfold_turn self _ failures w rest a Hpop).
      destruct (cleanup_turn_spec self a (set_cleanups rest w))
        as (w1 & E & Hc & _).
      rewrite E. simpl in Hc.
      apply pop_some in Hpop. rewrite Hpop in *.
      apply (stack_weight_step _ _ (cleanup_called self a)) in H1.
      apply (stack_weight_step _ _ (cleanup_called self a)) in H2.
      rewrite <- Hc in H1, H2.
      destruct (cleanup_result self a) as [v | e | ]; auto.
      destruct (isinstance e Exception); auto.
    + rewrite !while_unfold_empty by exact Hpop. reflexivity.
Qed.

(** When every cleanup that can come on the stack is called and lets the
    loop go on, the loop calls them in the order of [unwind_order], empties
    the stack and returns all their failures; it reports nothing itself. *)
Lemma while_unwinds self fuel : forall failures w,
  stack_weight (_cleanups w) <= fuel ->
  forallb (deep (unwinds self)) (_cleanups w) = true ->
  exists w',
    _deferRunCleanups_while self fuel failures w =
      (w', Ret (failures ++ failures_of self (unwind_order (_cleanups w)))) /\
    _cleanups w' = [] /\
    trace w' = trace w ++ map cleanup_call (unwind_order (_cleanups w)) /\
    log w' = log w /\
    _passed w' = _passed w /\
    running w' = running w.
Proof.
  induction fuel as [ | fuel IH]; intros failures w Hfuel Hdeep.
  - destruct (pop (_cleanups w)) as [[rest a] | ] eqn:Hpop.
    + apply pop_some in Hpop. rewrite Hpop, stack_weight_snoc in Hfuel. lia.
    + rewrite while_unfold_empty by exact Hpop. apply pop_none in Hpop.
      exists w. rewrite Hpop. simpl. rewrite !app_nil_r. repeat split; auto.
  - destruct (pop (_cleanups w)) as [[rest a] | ] eqn:Hpop.
    + destruct (while_step self fuel failures w rest a Hpop)
        as (w1 & Hc & Ht & Hl & Hp & Hr & E).
      rewrite E. apply pop_some in Hpop. rewrite Hpop in *.
      destruct (deep_stack_step _ _ _ (cleanup_called self a) Hdeep) as [Ha Hnext].
      apply (stack_weight_step _ _ (cleanup_called self a)) in Hfuel.
      rewrite <- Hc in Hnext, Hfuel.
      unfold unwinds in Ha. apply andb_true_iff in Ha. destruct Ha as [Hcalled Ha].
      rewrite Hcalled in *.
      assert (Hrep : cleanup_reports self a = []).
      { apply cleanup_reports_hang. destruct (cleanup_result self a); congruence. }
      rewrite Hrep, app_nil_r in Hl.
      rewrite unwind_order_snoc. simpl. unfold failures_of at 1. simpl.
      fold (failures_of self (unwind_order (rest ++ registers a))).
      destruct (cleanup_result self a) as [v | e | ]; [ | | discriminate].
      * destruct (IH failures w1 Hfuel Hnext) as (w' & E' & Hc' & Ht' & Hl' & Hp' & Hr').
        exists w'. rewrite E', Hc', Ht', Hl', Hp', Hr', Hc, Ht, Hl, Hp, Hr.
        rewrite <- !app_assoc. repeat split; auto.
      * rewrite Ha.
        destruct (IH (failures ++ [e]) w1 Hfuel Hnext)
          as (w' & E' & Hc' & Ht' & Hl' & Hp' & Hr').
        exists w'. rewrite E', Hc', Ht', Hl', Hp', Hr', Hc, Ht, Hl, Hp, Hr.
        rewrite <- !app_assoc. repeat split; auto.
    + rewrite while_unfold_empty by exact Hpop. apply pop_none in Hpop.
      exists w. rewrite Hpop. simpl. rewrite !app_nil_r. repeat split; auto.
Qed.

Lemma report_failures failures : forall w,
  exists w',
    for_each failures
      (fun f => exec (report (addError f)) ;; exec (set_passed false)) w =
      (w', Ret tt) /\
    log w' = log w ++ map addError failures /\
    _passed w' = match failures with [] => _passed w | _ :: _ => false end /\
    trace w' = trace w /\
    _cleanups w' = _cleanups w /\
    running w' = running w.
Proof.
  induction failures as [ | f fs IH]; intros w.
  - exists w. simpl. rewrite app_nil_r. repeat split; auto.
  - simpl. unfold bind at 1. unfold bind at 1. unfold exec at 1 2.
    destruct (IH (set_passed false (report (addError f) w)))
      as (w' & E & Hl & Hp & Ht & Hc & Hr).
    exists w'. rewrite E, Hl, Ht, Hc, Hr. simpl. rewrite <- app_assoc.
    repeat split; auto.
    rewrite Hp. destruct fs; reflexivity.
Qed.

Lemma deferRunCleanups_unfold self w :
  _deferRunCleanups self w =
  match _deferRunCleanups_while self (stack_weight (_cleanups w)) []
          (note (Enter CleaningUp) w) with
  | (w1, Ret failures) =>
      for_each failures
        (fun f => exec (report (addError f)) ;; exec (set_passed false)) w1
  | (w1, Raise e) => (w1, Raise e)
  | (w1, Hang) => (w1, Hang)
  end.
Proof. reflexivity. Qed.

(** The drain, whatever the cleanups do. *)
Lemma deferRunCleanups_frame self w :
  exists w' r tr evs,
    _deferRunCleanups self w = (w', r) /\
    trace w' = trace w ++ Enter CleaningUp :: tr /\ entries tr = [] /\
    log w' = log w ++ evs /\ Forall error_report evs /\
    (_passed w = false -> _passed w' = false) /\
    running w' = running w.
Proof.
  rewrite deferRunCleanups_unfold.
  destruct (while_frame self (stack_weight (_cleanups w)) []
              (note (Enter CleaningUp) w))
    as (w1 & r & tr & evs & E & Ht & He & Hl & Hf & Hp & Hr).
  rewrite E. simpl in *. rewrite <- app_assoc in Ht. simpl in Ht.
  destruct r as [failures | e | ].
  - destruct (report_failures failures w1) as (w' & E' & Hl' & Hp' & Ht' & _ & Hr').
    exists w', (Ret tt), tr, (evs ++ map addError failures).
    rewrite E', Ht', Hl', Hr', Ht, Hl, Hr, app_assoc.
    repeat split; auto.
    + apply Forall_app; split; auto.
      apply Forall_forall. intros c Hc. apply in_map_iff in Hc.
      destruct Hc as (f & <- & _). exact I.
    + intros Hw. rewrite Hp'. destruct failures; congruence.
  - exists w1, (Raise e), tr, evs. rewrite Hp. repeat split; auto.
  - exists w1, Hang, tr, evs. rewrite Hp. repeat split; auto.
Qed.

(** The drain comes to an end when every cleanup that can come on the stack
    lets the coroutine resume. *)
Lemma deferRunCleanups_settles self w :
  forallb (deep (settles self)) (_cleanups w) = true ->
  snd (_deferRunCleanups self w) <> Hang.
Proof.
  intros Hdeep. rewrite deferRunCleanups_unfold.
  pose proof (while_fuel_enough self (stack_weight (_cleanups w)) []
                (note (Enter CleaningUp) w) (le_n _) Hdeep) as H.
  destruct (_deferRunCleanups_while self (stack_weight (_cleanups w)) []
              (note (Enter CleaningUp) w)) as [w1 [failures | e | ]];
    simpl in *; try congruence.
  destruct (report_failures failures w1) as (w' & E' & _). rewrite E'.
  discriminate.
Qed.

(** The drain, when every cleanup that can come on the stack is called and
    lets the loop go on. *)
Lemma deferRunCleanups_spec self w :
  forallb (deep (unwinds self)) (_cleanups w) = true ->
  let order := unwind_order (_cleanups w) in
  let failures := failures_of self order in
  exists w1 w',
    _deferRunCleanups_while self (stack_weight (_cleanups w)) []
      (note (Enter CleaningUp) w) = (w1, Ret failures) /\
    _cleanups w1 = [] /\
    trace w1 = trace w ++ Enter CleaningUp :: map cleanup_call order /\
    log w1 = log w /\
    _deferRunCleanups self w = (w', Ret tt) /\
    _cleanups w' = [] /\
    trace w' = trace w1 /\
    log w' = log w ++ map addError failures /\
    _passed w' = match failures with [] => _passed w | _ :: _ => false end /\
    running w' = running w.
Proof.
  intros Hdeep order failures. rewrite deferRunCleanups_unfold.
  destruct (while_unwinds self (stack_weight (_cleanups w)) []
              (note (Enter CleaningUp) w) (le_n _) Hdeep)
    as (w1 & E & Hc & Ht & Hl & Hp & Hr).
  simpl in *. fold order in E, Ht. fold failures in E.
  rewrite <- app_assoc in Ht. simpl in Ht.
  destruct (report_failures failures w1) as (w' & E' & Hl' & Hp' & Ht' & Hc' & Hr').
  exists w1, w'. rewrite E, E', Hc', Hl', Hp', Hr', Hc, Hl, Hp, Hr.
  repeat split; auto.
Qed.

(** C1 (amended).  When every cleanup that can come on the stack has a
    [__name__], is called by [_run] (the timeout is a number) and either
    returns or fails with an [Exception], [_deferRunCleanups] calls the
    cleanups from the top of the stack down, each once, whether or not the
    ones before failed: in the order [unwind_order], where the top of the
    stack comes first and what it registered takes its place, which is the
    reverse of the stack when no cleanup registers another.  The loop ends
    with the stack empty and nothing reported, and then every failure
    collected is reported with [addError], in the order collected. *)
Theorem deferRunCleanups_unwinds self w :
  forallb (deep (unwinds self)) (_cleanups w) = true ->
  let order := unwind_order (_cleanups w) in
  let failures := failures_of self order in
  (forall cs a, unwind_order (cs ++ [a]) = a :: unwind_order (cs ++ registers a)) /\
  (Forall (fun a => registers a = []) (_cleanups w) -> order = rev (_cleanups w)) /\
  exists w1 w',
    _deferRunCleanups_while self (stack_weight (_cleanups w)) []
      (note (Enter CleaningUp) w) = (w1, Ret failures) /\
    _cleanups w1 = [] /\
    trace w1 = trace w ++ Enter CleaningUp :: map cleanup_call order /\
    log w1 = log w /\
    _deferRunCleanups self w = (w', Ret tt) /\
    trace w' = trace w1 /\
    log w' = log w ++ map addError failures.
Proof.
  intros Hdeep order failures.
  split; [exact unwind_order_snoc | ].
  split; [apply unwind_order_flat | ].
  destruct (deferRunCleanups_spec self w Hdeep)
    as (w1 & w' & E & Hc & Ht & Hl & E' & _ & Ht' & Hl' & _).
  exists w1, w'. repeat split; assumption.
Qed.

(** ** The fixture sequence *)

Lemma error_report_not_success c : error_report c -> c <> addSuccess.
Proof. destruct c; simpl; intros H; try discriminate; contradiction. Qed.

Lemma Forall_error_report_not_success evs :
  Forall error_report evs -> Forall (fun c => c <> addSuccess) evs.
Proof. apply Forall_impl. exact error_report_not_success. Qed.

Lemma classified_frame self c w :
  exists evs,
    log (classified self c w) = log w ++ evs /\
    Forall (fun c => c <> addSuccess) evs /\
    trace (classified self c w) = trace w /\
    _cleanups (classified self c w) = _cleanups w /\
    running (classified self c w) = running w.
Proof.
  destruct c as [t | | f t | f | f | f | f]; simpl.
  - exists [addUnexpectedSuccess t]. repeat split; auto.
    constructor; [discriminate | constructor].
  - exists []. rewrite app_nil_r. repeat split; auto.
  - exists [addExpectedFailure f t]. repeat split; auto.
    constructor; [discriminate | constructor].
  - exists [addFailure f]. repeat split; auto.
    constructor; [discriminate | constructor].
  - exists [addError f; stop]. rewrite <- app_assoc. repeat split; auto.
    constructor; [discriminate | constructor; [discriminate | constructor]].
  - exists [addSkip (_getSkipReason self (testMethod self) f)]. repeat split; auto.
    constructor; [discriminate | constructor].
  - exists [addError f]. repeat split; auto.
    constructor; [discriminate | constructor].
Qed.

(** The test method and its classification. *)
Lemma deferSetUp_testMethod_frame self w :
  exists w' evs,
    _deferSetUp_testMethod self w =
      (w', match phase_result self (testMethod self) (_testMethodName self) with
           | Ret _ => Ret tt
           | Raise e => Raise e
           | Hang => Hang
           end) /\
    trace w' =
      trace w ++ (if invoked self (testMethod self)
                  then [Call (_testMethodName self) (testMethod self)] else []) /\
    _cleanups w' =
      _cleanups w ++ (if invoked self (testMethod self)
                      then registers (testMethod self) else []) /\
    log w' = log w ++ evs /\
    Forall (fun c => c <> addSuccess) evs /\
    running w' = running w.
Proof.
  pose proof (deferSetUp_testMethod_eq self w) as E.
  destruct (await_run_spec self (testMethod self) (_testMethodName self) w)
    as (w1 & E1 & Hc & Ht & Hl & _ & Hr & _).
  rewrite E1 in E.
  pose proof (Forall_error_report_not_success _
                (phase_reports_error self (testMethod self) (_testMethodName self)))
    as Hq.
  destruct (phase_result self (testMethod self) (_testMethodName self))
    as [v | e | ].
  - destruct (classified_frame self (classify self (inl v)) w1)
      as (evs & Hl' & Hf' & Ht' & Hc' & Hr').
    eexists _, (_ ++ evs). split; [exact E | ].
    rewrite Ht', Hc', Hl', Hr', Ht, Hc, Hl, Hr, app_assoc.
    repeat split; auto. apply Forall_app; auto.
  - destruct (classified_frame self (classify self (inr e)) w1)
      as (evs & Hl' & Hf' & Ht' & Hc' & Hr').
    eexists _, (_ ++ evs). split; [exact E | ].
    rewrite Ht', Hc', Hl', Hr', Ht, Hc, Hl, Hr, app_assoc.
    repeat split; auto. apply Forall_app; auto.
  - eexists _, _. split; [exact E | ]. repeat split; eauto.
Qed.

Lemma deferTearDown_frame self w :
  exists w' r evs,
    _deferTearDown self w = (w', r) /\
    (r = Ret tt \/ r = Hang) /\
    trace w' =
      trace w ++ Enter TearingDown ::
        (if invoked self (tearDown self)
         then [Call "tearDown"%string (tearDown self)] else []) /\
    log w' = log w ++ evs /\
    Forall (fun c => c <> addSuccess) evs /\
    (_passed w = false -> _passed w' = false) /\
    running w' = running w.
Proof.
  unfold _deferTearDown, bind at 1, exec at 1, try_except, bind.
  destruct (await_run_spec self (tearDown self) "tearDown"%string
              (note (Enter TearingDown) w))
    as (w1 & E1 & _ & Ht & Hl & Hp & Hr & _).
  rewrite E1. simpl in *. rewrite <- app_assoc in Ht. simpl in Ht.
  pose proof (Forall_error_report_not_success _
                (phase_reports_error self (tearDown self) "tearDown"%string))
    as Hq.
  destruct (phase_result self (tearDown self) "tearDown"%string) as [v | e | ].
  - exists w1, (Ret tt), (phase_reports self (tearDown self) "tearDown"%string).
    rewrite Hp. repeat split; auto.
  - destruct (isinstance e KeyboardInterrupt); unfold exec, bind.
    + eexists _, (Ret tt),
        (phase_reports self (tearDown self) "tearDown"%string ++ [addError e; stop]).
      split; [reflexivity | ]. simpl.
      rewrite Ht, Hl, Hr, <- !app_assoc. simpl. repeat split; auto.
      apply Forall_app; split; auto.
      constructor; [discriminate | constructor; [discriminate | constructor]].
    + eexists _, (Ret tt),
        (phase_reports self (tearDown self) "tearDown"%string ++ [addError e]).
      split; [reflexivity | ]. simpl.
      rewrite Ht, Hl, Hr, <- !app_assoc. simpl. repeat split; auto.
      apply Forall_app; split; auto.
      constructor; [discriminate | constructor].
  - exists w1, Hang, (phase_reports self (tearDown self) "tearDown"%string).
    rewrite Hp. repeat split; auto.
Qed.

Lemma phase_reports_nil self func funcDescription :
  phase_result self func funcDescription <> Hang ->
  phase_reports self func funcDescription = [].
Proof.
  intros H.
  destruct (phase_reports self func funcDescription) eqn:E; auto.
  exfalso. apply H. apply phase_reports_hang. rewrite E. discriminate.
Qed.

Lemma phase_result_ret_invoked self func funcDescription v :
  phase_result self func funcDescription = Ret v ->
  invoked self func = true /\ invoked self func = negb (isgeneratorfunction func).
Proof.
  rewrite phase_result_yield_result. unfold yield_result, invoked.
  destruct (getTimeout_value self); try discriminate.
  destruct (isgeneratorfunction func); [discriminate | auto].
Qed.

Lemma invoked_after_ret self func funcDescription v func' :
  phase_result self func funcDescription = Ret v ->
  invoked self func' = negb (isgeneratorfunction func').
Proof.
  rewrite phase_result_yield_result. unfold yield_result, invoked.
  destruct (getTimeout_value self); try discriminate. reflexivity.
Qed.

Lemma deferSetUp_unfold self w :
  _deferSetUp self w =
  match await_run self (setUp self) "setUp" (note (Enter SettingUp) w) with
  | (w1, Ret _) =>
      try_finally
        (try_finally
           (exec (note (Enter RunningTest)) ;;           (* ghost *)
          _deferSetUp_testMethod self)
           (_deferRunCleanups self))
        (_deferTearDown self) w1
  | (w1, Raise e) =>
      let w2 :=
        if isinstance e SkipTest then
          report (addSkip (_getSkipReason self (setUp self) e)) w1
        else if isinstance e KeyboardInterrupt then
          report stop (report (addError e) w1)
        else report (addError e) w1 in
      match _deferRunCleanups self w2 with
      | (w3, Ret _) => (w3, Ret tt)
      | (w3, Raise e') => (w3, Raise e')
      | (w3, Hang) => (w3, Hang)
      end
  | (w1, Hang) => (w1, Hang)
  end.
Proof.
  unfold _deferSetUp, bind at 1, exec at 1, bind at 1, try_except, bind at 1.
  destruct (await_run self (setUp self) "setUp" (note (Enter SettingUp) w))
    as [w1 [v | e | ]]; try reflexivity.
  simpl.
  destruct (isinstance e SkipTest); [ | destruct (isinstance e KeyboardInterrupt)];
    unfold bind, exec, ret; simpl;
    match goal with
    | |- context [_deferRunCleanups self ?w2] =>
        destruct (_deferRunCleanups self w2) as [w3 [[] | e' | ]]; reflexivity
    end.
Qed.

Lemma forallb_app_l {A} (P : A -> bool) l1 l2 :
  forallb P (l1 ++ l2) = true -> forallb P l1 = true.
Proof. rewrite forallb_app. intros H. apply andb_true_iff in H. tauto. Qed.

(** C2 (amended).  When setUp completes successfully, the test method's
    phase ends (its result or failure reaches the coroutine, the failure of
    a timeout included) and every cleanup that can come on the stack lets
    the coroutine resume, the states are entered in the order SettingUp,
    RunningTest, CleaningUp, TearingDown, each once, whatever the test
    method did; and the sequence ends with tearDown called once (unless it
    is a generator function, which [_run] refuses to call). *)
Theorem finalizers_run_once self w v :
  phase_result self (setUp self) "setUp" = Ret v ->
  phase_result self (testMethod self) (_testMethodName self) <> Hang ->
  forallb (deep (settles self))
    (_cleanups w ++ registers (setUp self) ++ registers (testMethod self)) = true ->
  exists tr,
    trace (fst (_deferSetUp self w)) =
      trace w ++ tr ++ Enter TearingDown ::
        (if isgeneratorfunction (tearDown self) then []
         else [Call "tearDown"%string (tearDown self)]) /\
    entries tr = [SettingUp; RunningTest; CleaningUp].
Proof.
  intros HsetUp Htest Hdeep.
  rewrite deferSetUp_unfold.
  destruct (await_run_spec self (setUp self) "setUp"%string (note (Enter SettingUp) w))
    as (w1 & E1 & Hc1 & Ht1 & _).
  rewrite E1, HsetUp.
  destruct (phase_result_ret_invoked _ _ _ _ HsetUp) as [Hinv _].
  rewrite Hinv in *. simpl in Hc1, Ht1.
  unfold try_finally at 1. unfold try_finally at 1. unfold bind at 1, exec at 1.
  destruct (deferSetUp_testMethod_frame self (note (Enter RunningTest) w1))
    as (w3 & evs3 & E3 & Ht3 & Hc3 & _).
  rewrite E3. simpl in Ht3, Hc3.
  assert (Hdeep3 : forallb (deep (settles self)) (_cleanups w3) = true).
  { rewrite Hc3, Hc1, <- app_assoc.
    destruct (invoked self (testMethod self)); [exact Hdeep | ].
    rewrite app_nil_r. rewrite app_assoc in Hdeep.
    apply forallb_app_l in Hdeep. exact Hdeep. }
  pose proof (deferRunCleanups_settles self w3 Hdeep3) as Hsettle.
  destruct (deferRunCleanups_frame self w3)
    as (w4 & r4 & tr4 & evs4 & E4 & Ht4 & He4 & _).
  rewrite E4 in *. simpl in Hsettle.
  destruct (deferTearDown_frame self w4)
    as (w5 & r5 & evs5 & E5 & _ & Ht5 & _).
  rewrite (invoked_after_ret _ _ _ _ (tearDown self) HsetUp) in Ht5.
  exists ([Enter SettingUp; Call "setUp"%string (setUp self); Enter RunningTest]
          ++ (if invoked self (testMethod self)
              then [Call (_testMethodName self) (testMethod self)] else [])
          ++ Enter CleaningUp :: tr4).
  assert (Htrace : trace w5 =
            trace w ++
            ([Enter SettingUp; Call "setUp"%string (setUp self); Enter RunningTest]
             ++ (if invoked self (testMethod self)
                 then [Call (_testMethodName self) (testMethod self)] else [])
             ++ Enter CleaningUp :: tr4) ++
            Enter TearingDown ::
              (if isgeneratorfunction (tearDown self) then []
               else [Call "tearDown"%string (tearDown self)])).
  { rewrite Ht5, Ht4, Ht3, Ht1. simpl.
    destruct (isgeneratorfunction (tearDown self)); simpl;
      rewrite <- !app_assoc; simpl; rewrite <- ?app_assoc; reflexivity. }
  split.
  - destruct (phase_result self (testMethod self) (_testMethodName self))
      as [v3 | e3 | ]; [ | | congruence];
      destruct r4 as [[] | e4 | ]; try congruence;
      rewrite E5; destruct r5; simpl; exact Htrace.
  - rewrite !entries_app. simpl. rewrite He4.
    destruct (invoked self (testMethod self)); reflexivity.
Qed.

(** C5 (amended).  When setUp raises [SkipTest], one [addSkip] is reported
    and the cleanups registered so far are drained; the test method and
    tearDown are not run.  Whatever else is reported comes from the drain
    and is the report of an error, never an [addFailure]: when every cleanup
    that can come on the stack is called and lets the loop go on, it is one
    [addError] for each cleanup that failed, so none when none failed. *)
Theorem setUp_skip self w e :
  phase_result self (setUp self) "setUp" = Raise e ->
  isinstance e SkipTest = true ->
  exists w2 tr evs,
    _cleanups w2 =
      _cleanups w ++ (if invoked self (setUp self)
                      then registers (setUp self) else []) /\
    fst (_deferSetUp self w) = fst (_deferRunCleanups self w2) /\
    trace (fst (_deferSetUp self w)) = trace w ++ tr /\
    entries tr = [SettingUp; CleaningUp] /\
    log (fst (_deferSetUp self w)) =
      log w ++ addSkip (_getSkipReason self (setUp self) e) :: evs /\
    Forall error_report evs /\
    (forallb (deep (unwinds self)) (_cleanups w2) = true ->
     evs = map addError (failures_of self (unwind_order (_cleanups w2)))).
Proof.
  intros HsetUp Hskip.
  rewrite deferSetUp_unfold.
  destruct (await_run_spec self (setUp self) "setUp"%string (note (Enter SettingUp) w))
    as (w1 & E1 & Hc1 & Ht1 & Hl1 & _).
  rewrite E1, HsetUp, Hskip. cbv zeta.
  rewrite phase_reports_nil, app_nil_r in Hl1 by congruence.
  set (w2 := report (addSkip (_getSkipReason self (setUp self) e)) w1).
  destruct (deferRunCleanups_frame self w2)
    as (w3 & r3 & tr3 & evs3 & E3 & Ht3 & He3 & Hl3 & Hf3 & _).
  exists w2,
    (Enter SettingUp ::
       (if invoked self (setUp self) then [Call "setUp"%string (setUp self)] else [])
       ++ Enter CleaningUp :: tr3),
    evs3.
  assert (Hfst : fst (match _deferRunCleanups self w2 with
                      | (w3, Ret _) => (w3, Ret tt)
                      | (w3, Raise e') => (w3, Raise e')
                      | (w3, Hang) => (w3, Hang)
                      end) = w3).
  { rewrite E3. destruct r3; reflexivity. }
  rewrite Hfst, E3. simpl fst. subst w2. simpl in *.
  rewrite Ht3, Hl3, Ht1, Hl1, Hc1. simpl.
  split; [reflexivity | ]. split; [reflexivity | ].
  split; [rewrite <- !app_assoc; reflexivity | ].
  split.
  { change (Enter SettingUp :: ?l) with ([Enter SettingUp] ++ l).
    rewrite !entries_app. simpl. rewrite He3.
    destruct (invoked self (setUp self)); reflexivity. }
  split; [rewrite <- app_assoc; reflexivity | ].
  split; [exact Hf3 | ].
  intros Hdeep.
  destruct (deferRunCleanups_spec self
              (report (addSkip (_getSkipReason self (setUp self) e)) w1))
    as (w1' & w' & _ & _ & _ & _ & E' & _ & _ & Hl' & _).
  { simpl. rewrite Hc1. exact Hdeep. }
  rewrite E3 in E'. inversion E'; subst w' r3.
  rewrite Hl3 in Hl'. apply app_inv_head in Hl'.
  simpl in Hl'. rewrite Hc1 in Hl'. exact Hl'.
Qed.

(** ** Steps that cannot make the test a success *)

Lemma quiet_same {A} (r : Res A) (f : World -> World) :
  (forall w, log (f w) = log w /\ _passed (f w) = _passed w) ->
  quiet (fun w => (f w, r)).
Proof.
  intros H w Hp. exists []. destruct (H w) as [Hl Hp']. simpl.
  rewrite Hl, Hp', app_nil_r. auto.
Qed.

Lemma quiet_ret {A} (a : A) : quiet (ret a).
Proof. apply (quiet_same (Ret a) (fun w => w)). auto. Qed.

Lemma quiet_raise {A} (e : Exn) : quiet (@raise A e).
Proof. apply (quiet_same (Raise e) (fun w => w)). auto. Qed.

Lemma quiet_hang {A} : quiet (@hang A).
Proof. apply (quiet_same Hang (fun w => w)). auto. Qed.

Lemma quiet_then {A B} (m : M A) (k : World -> Res A -> World * Res B) :
  quiet m ->
  (forall r, quiet (fun w => k w r)) ->
  quiet (fun w => let (w', r) := m w in k w' r).
Proof.
  intros Hm Hk w Hp.
  destruct (Hm w Hp) as (evs1 & Hl1 & Hf1 & Hp1).
  destruct (m w) as [w1 r]. simpl in *.
  destruct (Hk r w1 Hp1) as (evs2 & Hl2 & Hf2 & Hp2). simpl in *.
  exists (evs1 ++ evs2). rewrite Hl2, Hl1, app_assoc.
  repeat split; auto. apply Forall_app; auto.
Qed.

Ltac quiet_chain Hl1 Hl2 :=
  rewrite Hl2, Hl1, app_assoc; repeat split; auto; apply Forall_app; auto.

Lemma quiet_bind {A B} (m : M A) (k : A -> M B) :
  quiet m -> (forall a, quiet (k a)) -> quiet (bind m k).
Proof.
  intros Hm Hk w Hp.
  destruct (Hm w Hp) as (evs1 & Hl1 & Hf1 & Hp1).
  unfold bind. destruct (m w) as [w1 [a | e | ]]; simpl in *;
    [ | exists evs1; auto | exists evs1; auto ].
  destruct (Hk a w1 Hp1) as (evs2 & Hl2 & Hf2 & Hp2).
  exists (evs1 ++ evs2). quiet_chain Hl1 Hl2.
Qed.

Lemma quiet_try_except {A} (m : M A) (h : Exn -> M A) :
  quiet m -> (forall e, quiet (h e)) -> quiet (try_except m h).
Proof.
  intros Hm Hh w Hp.
  destruct (Hm w Hp) as (evs1 & Hl1 & Hf1 & Hp1).
  unfold try_except. destruct (m w) as [w1 [a | e | ]]; simpl in *;
    [ exists evs1; auto | | exists evs1; auto ].
  destruct (Hh e w1 Hp1) as (evs2 & Hl2 & Hf2 & Hp2).
  exists (evs1 ++ evs2). quiet_chain Hl1 Hl2.
Qed.

Lemma quiet_try_finally {A} (m : M A) (fin : M unit) :
  quiet m -> quiet fin -> quiet (try_finally m fin).
Proof.
  intros Hm Hfin w Hp.
  destruct (Hm w Hp) as (evs1 & Hl1 & Hf1 & Hp1).
  unfold try_finally. destruct (m w) as [w1 [a | e | ]]; simpl in *;
    [ | | exists evs1; auto ];
    destruct (Hfin w1 Hp1) as (evs2 & Hl2 & Hf2 & Hp2);
    exists (evs1 ++ evs2);
    destruct (fin w1) as [w2 [[] | e' | ]]; simpl in *; quiet_chain Hl1 Hl2.
Qed.

Lemma quiet_exec (f : World -> World) :
  (forall w, log (f w) = log w /\ _passed (f w) = _passed w) -> quiet (exec f).
Proof. apply (quiet_same (Ret tt)). Qed.

Lemma quiet_report c : c <> addSuccess -> quiet (exec (report c)).
Proof. intros Hc w Hp. exists [c]. simpl. repeat split; auto. Qed.

Lemma quiet_fail : quiet (exec (set_passed false)).
Proof. intros w Hp. exists []. simpl. rewrite app_nil_r. auto. Qed.

Lemma quiet_for_each {A} (l : list A) (body : A -> M unit) :
  (forall x, quiet (body x)) -> quiet (for_each l body).
Proof.
  intros H. induction l as [ | x t IH]; simpl.
  - apply quiet_ret.
  - apply quiet_bind; auto.
Qed.

Lemma quiet_await_run self func funcDescription :
  quiet (await_run self func funcDescription).
Proof.
  intros w Hp.
  destruct (await_run_spec self func funcDescription w)
    as (w' & E & _ & _ & Hl & Hp' & _).
  rewrite E. simpl. exists (phase_reports self func funcDescription).
  repeat split; auto; [ | congruence].
  apply Forall_error_report_not_success, phase_reports_error.
Qed.

Lemma quiet_deferTearDown self : quiet (_deferTearDown self).
Proof.
  unfold _deferTearDown.
  apply quiet_bind; [apply quiet_exec; auto | intros _].
  apply quiet_try_except.
  - apply quiet_bind; [apply quiet_await_run | intros; apply quiet_ret].
  - intros e. destruct (isinstance e KeyboardInterrupt);
      repeat (apply quiet_bind; [ | intros _]);
      try apply quiet_fail; apply quiet_report; discriminate.
Qed.

Lemma quiet_cleanUp self : quiet (_cleanUp self).
Proof.
  unfold _cleanUp.
  apply quiet_bind; [ | intros _; apply quiet_bind; [ | intros _]].
  - apply quiet_try_except.
    + apply quiet_bind; [ | intros _; apply quiet_bind].
      * apply quiet_for_each. intros e. apply quiet_report. discriminate.
      * apply (quiet_same (janitor_returns (postCaseCleanup self)) (fun w => w)).
        auto.
      * intros clean. destruct (negb clean); [apply quiet_fail | apply quiet_ret].
    + intros e. apply quiet_bind; [ | intros _; apply quiet_fail].
      apply quiet_report. discriminate.
  - apply quiet_for_each. intros e.
    apply quiet_bind; [ | intros _; apply quiet_fail].
    apply quiet_report. discriminate.
  - intros w Hp. rewrite Hp. exists []. simpl. rewrite app_nil_r. auto.
Qed.

Lemma quiet_classCleanUp self : quiet (_classCleanUp self).
Proof.
  unfold _classCleanUp. destruct (postClassCleanup self).
  - apply quiet_report. discriminate.
  - apply quiet_ret.
Qed.

Lemma quiet_wait_with self run d : quiet run -> quiet (_wait_with self run d).
Proof.
  intros Hrun.
  assert (Hadmitted :
    quiet (exec (fun w => set_running (running w ++ [tt]) w) ;;
           try_finally
             (match d with
              | Some o => ret tt
              | None =>
                  results <- run ;;
                  timedOut <- (fun w => (w, Ret (_timedOut w))) ;;
                  match results with
                  | _ :: _ => ret tt
                  | [] =>
                      if timedOut : bool then ret tt
                      else raise (mkExn [KeyboardInterrupt] (Text ""))
                  end
              end)
             (exec (fun w => set_running (removelast (running w)) w)))).
  { apply quiet_bind; [apply quiet_exec; auto | intros _].
    apply quiet_try_finally; [ | apply quiet_exec; auto].
    destruct d; [apply quiet_ret | ].
    apply quiet_bind; [exact Hrun | intros results].
    apply quiet_bind.
    - intros w Hp. exists []. simpl. rewrite app_nil_r. auto.
    - intros timedOut. destruct results; [ | apply quiet_ret].
      destruct timedOut; [apply quiet_ret | apply quiet_raise]. }
  intros w Hp. unfold _wait_with.
  destruct (running w).
  - apply Hadmitted. exact Hp.
  - exists []. simpl. rewrite app_nil_r. auto.
Qed.

Lemma quiet_reactor_run self s : quiet (reactor_run self s).
Proof.
  induction s as [o | | e | | d' inner IHinner rest IHrest]; simpl.
  - apply quiet_bind; [apply quiet_exec; auto | intros _; apply quiet_ret].
  - apply quiet_ret.
  - apply quiet_raise.
  - apply quiet_hang.
  - apply (quiet_then (_wait_with self (reactor_run self inner) d')
             (fun w r => match r with
                         | Hang => (w, Hang)
                         | _ => reactor_run self rest w
                         end)).
    + apply quiet_wait_with. exact IHinner.
    + intros [a | e | ]; [exact IHrest | exact IHrest | apply quiet_hang].
Qed.

Lemma quiet_wait self s d : quiet (_wait self s d).
Proof. apply quiet_wait_with, quiet_reactor_run. Qed.

Lemma quiet_deferred_since since (coro : M unit) :
  quiet coro -> quiet (deferred_since since coro).
Proof.
  intros H w Hp. destruct (H w Hp) as (evs & Hl & Hf & Hp').
  exists evs. unfold deferred_since.
  destruct (coro w) as [w' [a | e | ]]; simpl in *; auto.
Qed.

Lemma quiet_fromCoroutine (coro : M unit) : quiet coro -> quiet (fromCoroutine coro).
Proof. intros H w. apply quiet_deferred_since. exact H. Qed.

(** ** Waiting *)

Lemma wait_with_refused self run d w :
  running w <> [] ->
  _wait_with self run d w =
    (w, Raise (mkExn [RuntimeError; Exception] NotReentrant)).
Proof.
  intros H. unfold _wait_with. destruct (running w); [congruence | reflexivity].
Qed.

Lemma wait_with_admitted self run d w :
  running w = [] ->
  _wait_with self run d w =
  try_finally
    (match d with
     | Some o => ret tt
     | None =>
         results <- run ;;
         timedOut <- (fun w => (w, Ret (_timedOut w))) ;;
         match results with
         | _ :: _ => ret tt
         | [] =>
             if timedOut : bool then ret tt
             else raise (mkExn [KeyboardInterrupt] (Text ""))
         end
     end)
    (exec (fun w => set_running (removelast (running w)) w))
    (set_running (running w ++ [tt]) w).
Proof.
  intros Er. unfold _wait_with. revert Er.
  generalize (running w) at 1 2. intros l ->. reflexivity.
Qed.

Lemma wait_with_running self run d w :
  (forall w0, snd (run w0) <> Hang -> running (fst (run w0)) = running w0) ->
  snd (_wait_with self run d w) <> Hang ->
  running (fst (_wait_with self run d w)) = running w.
Proof.
  intros Hrun.
  destruct (running w) as [ | u l] eqn:Er.
  2:{ rewrite wait_with_refused by congruence. intros _. exact Er. }
  rewrite wait_with_admitted by exact Er.
  assert (Hr1 : removelast (running (set_running (running w ++ [tt]) w)) = []).
  { simpl. rewrite Er. reflexivity. }
  revert Hr1. generalize (set_running (running w ++ [tt]) w). intros w1 Hr1.
  unfold try_finally, exec.
  destruct d as [o | ].
  - simpl. intros _. exact Hr1.
  - unfold bind. specialize (Hrun w1).
    destruct (run w1) as [w2 [results | e | ]]; simpl in *.
    + intros _. rewrite <- Hrun in Hr1 by discriminate.
      destruct results; [destruct (_timedOut w2) | ]; exact Hr1.
    + intros _. rewrite <- Hrun in Hr1 by discriminate. exact Hr1.
    + congruence.
Qed.

Lemma reactor_run_running self s : forall w,
  snd (reactor_run self s w) <> Hang ->
  running (fst (reactor_run self s w)) = running w.
Proof.
  induction s as [o | | e | | d' inner IHinner rest IHrest]; intros w; simpl;
    try reflexivity.
  pose proof (wait_with_running self (reactor_run self inner) d' w IHinner) as Hw.
  destruct (_wait_with self (reactor_run self inner) d' w) as [w' [a | e | ]];
    simpl in *; try congruence;
    intros H; rewrite IHrest by exact H; apply Hw; discriminate.
Qed.

(** C7.  [_wait] called while another [_wait] is in flight, that is while
    [_wait_is_running] is not empty, raises [RuntimeError] at once and
    leaves the list as it is; in particular a callback that calls [_wait]
    under the reactor run of an admitted wait is refused and the outer wait
    goes on as if it had not.  A wait that was admitted leaves the list
    empty again however it ends, by a return or by an exception. *)
Theorem wait_not_reentrant self s d w :
  (running w <> [] ->
   _wait self s d w = (w, Raise (mkExn [RuntimeError; Exception] NotReentrant))) /\
  (running w = [] -> snd (_wait self s d w) <> Hang ->
   running (fst (_wait self s d w)) = []) /\
  (running w = [] -> forall d' inner,
   _wait self (Waiting d' inner s) None w = _wait self s None w).
Proof.
  split; [apply wait_with_refused | split].
  - intros Er H. rewrite <- Er. unfold _wait in *.
    apply wait_with_running; [apply reactor_run_running | exact H].
  - intros Er d' inner. unfold _wait.
    rewrite !wait_with_admitted by exact Er.
    unfold try_finally, bind. simpl reactor_run.
    rewrite wait_with_refused; [reflexivity | ].
    simpl. rewrite Er. discriminate.
Qed.

(** ** The end of the test *)

Lemma try_finally_ret since (m : M unit) (fin : M unit) w w1 :
  m w = (w1, Ret tt) ->
  deferred_since since (try_finally m fin) w = deferred_since since fin w1.
Proof.
  intros E. unfold deferred_since, try_finally. rewrite E.
  destruct (fin w1) as [w2 [[] | e | ]]; reflexivity.
Qed.

(** C6 (amended).  When setUp and the test method complete successfully
    and every cleanup that can come on the stack is called and lets the loop
    go on, then, if at least one cleanup fails, the result receives
    [addError] for each cleanup failure and no [addSuccess]. *)
Theorem cleanup_failure_demotes self s w v1 v2 :
  phase_result self (setUp self) "setUp" = Ret v1 ->
  phase_result self (testMethod self) (_testMethodName self) = Ret v2 ->
  let cs := _cleanups w ++ registers (setUp self) ++ registers (testMethod self) in
  forallb (deep (unwinds self)) cs = true ->
  failures_of self (unwind_order cs) <> [] ->
  exists evs,
    log (fst (_runFixturesAndTest self s w)) = log w ++ evs /\
    (forall f, In f (failures_of self (unwind_order cs)) -> In (addError f) evs) /\
    ~ In addSuccess evs.
Proof.
  intros HsetUp Htest cs Hdeep Hfail.
  (* setUp *)
  destruct (await_run_spec self (setUp self) "setUp"%string
              (note (Enter SettingUp) (set_timedOut false w)))
    as (w1 & E1 & Hc1 & _ & Hl1 & _).
  rewrite HsetUp in E1.
  rewrite phase_reports_nil, app_nil_r in Hl1 by congruence.
  destruct (phase_result_ret_invoked _ _ _ _ HsetUp) as [Hinv1 _].
  rewrite Hinv1 in Hc1. simpl in Hc1, Hl1.
  (* the test method *)
  destruct (deferSetUp_testMethod_frame self (note (Enter RunningTest) w1))
    as (w3 & evs3 & E3 & _ & Hc3 & Hl3 & Hf3 & _).
  rewrite Htest in E3.
  destruct (phase_result_ret_invoked _ _ _ _ Htest) as [Hinv3 _].
  rewrite Hinv3 in Hc3. simpl in Hc3, Hl3.
  assert (Hcs : _cleanups w3 = cs).
  { rewrite Hc3, Hc1. subst cs. rewrite <- app_assoc. reflexivity. }
  (* the drain *)
  destruct (deferRunCleanups_spec self w3)
    as (w3' & w4 & _ & _ & _ & _ & E4 & _ & _ & Hl4 & Hp4 & _).
  { rewrite Hcs. exact Hdeep. }
  rewrite Hcs in Hl4, Hp4.
  assert (Hp4' : _passed w4 = false).
  { rewrite Hp4. destruct (failures_of self (unwind_order cs)); congruence. }
  (* the rest cannot make the test a success *)
  set (since := suspensions (set_timedOut false w)).
  assert (Hrest : quiet (d <- deferred_since since (_deferTearDown self) ;;
                         try_finally (_wait self s d)
                           (_cleanUp self ;; _classCleanUp self))).
  { apply quiet_bind.
    - apply quiet_deferred_since, quiet_deferTearDown.
    - intros d. apply quiet_try_finally; [apply quiet_wait | ].
      apply quiet_bind; [apply quiet_cleanUp | intros _; apply quiet_classCleanUp]. }
  destruct (Hrest w4 Hp4') as (evs5 & Hl5 & Hf5 & _).
  assert (Hrun : _runFixturesAndTest self s w =
                 (d <- deferred_since since (_deferTearDown self) ;;
                  try_finally (_wait self s d)
                    (_cleanUp self ;; _classCleanUp self)) w4).
  { unfold _runFixturesAndTest. unfold bind at 1, exec at 1.
    unfold bind at 1. unfold bind at 3.
    replace (fromCoroutine (_deferSetUp self) (set_timedOut false w))
      with (deferred_since since (_deferTearDown self) w4); [reflexivity | ].
    symmetry. unfold fromCoroutine. fold since.
    unfold deferred_since at 1. rewrite deferSetUp_unfold, E1.
    apply try_finally_ret.
    unfold try_finally, bind, exec. rewrite E3, E4. reflexivity. }
  rewrite Hrun.
  exists (evs3 ++ map addError (failures_of self (unwind_order cs)) ++ evs5).
  rewrite Hl5, Hl4, Hl3, Hl1. simpl. rewrite <- !app_assoc.
  split; [reflexivity | split].
  - intros f Hf. apply in_or_app. right. apply in_or_app. left.
    apply in_map. exact Hf.
  - intros Hin. apply in_app_or in Hin. destruct Hin as [Hin | Hin].
    + rewrite Forall_forall in Hf3. apply (Hf3 _ Hin). reflexivity.
    + apply in_app_or in Hin. destruct Hin as [Hin | Hin].
      * apply in_map_iff in Hin. destruct Hin as (f & Hf & _). discriminate.
      * rewrite Forall_forall in Hf5. apply (Hf5 _ Hin). reflexivity.
Qed.


(** * Further properties *)

Ltac in_list := simpl; repeat first [left; reflexivity | right].

Ltac list_eq :=
  rewrite ?map_app; repeat (rewrite <- app_assoc; simpl);
  rewrite ?app_nil_r; reflexivity.

(** ** Running the monad *)

Lemma bind_Ret {A B} (m : M A) (k : A -> M B) w w1 a :
  m w = (w1, Ret a) -> bind m k w = k a w1.
Proof. intros E. unfold bind. rewrite E. reflexivity. Qed.

Lemma bind_Raise {A B} (m : M A) (k : A -> M B) w w1 e :
  m w = (w1, Raise e) -> bind m k w = (w1, Raise e).
Proof. intros E. unfold bind. rewrite E. reflexivity. Qed.

Lemma bind_Hang {A B} (m : M A) (k : A -> M B) w w1 :
  m w = (w1, Hang) -> bind m k w = (w1, Hang).
Proof. intros E. unfold bind. rewrite E. reflexivity. Qed.

Lemma try_finally_eq {A} (m : M A) (fin : M unit) w w1 r :
  m w = (w1, r) ->
  try_finally m fin w =
    match r with
    | Hang => (w1, Hang)
    | _ =>
        (fst (fin w1),
         match snd (fin w1) with
         | Ret _ => r
         | Raise e => Raise e
         | Hang => Hang
         end)
    end.
Proof.
  intros E. unfold try_finally. rewrite E.
  destruct r; try reflexivity; destruct (fin w1) as [w2 [[] | e' | ]]; reflexivity.
Qed.

(** ** tearDown *)

Lemma deferTearDown_eq self w :
  let (w1, r) :=
    await_run self (tearDown self) "tearDown" (note (Enter TearingDown) w) in
  _deferTearDown self w =
    match r with
    | Ret _ => (w1, Ret tt)
    | Raise e =>
        (set_passed false
           (fold_left (fun w c => report c w) (error_calls e) w1), Ret tt)
    | Hang => (w1, Hang)
    end.
Proof.
  unfold _deferTearDown, bind at 1, exec at 1, try_except, bind.
  destruct (await_run self (tearDown self) "tearDown" (note (Enter TearingDown) w))
    as [w1 [v | e | ]]; try reflexivity.
  unfold error_calls.
  destruct (isinstance e KeyboardInterrupt); reflexivity.
Qed.

Lemma log_fold_report evs : forall w,
  log (fold_left (fun w c => report c w) evs w) = log w ++ evs.
Proof.
  induction evs as [ | c evs IH]; intros w; simpl.
  - rewrite app_nil_r. reflexivity.
  - rewrite IH. simpl. rewrite <- app_assoc. reflexivity.
Qed.

(** X1.  [_deferTearDown] never raises.  Whatever the await of tearDown
    raises, a [KeyboardInterrupt] included, is reported with [addError] (and
    [stop] after it for a [KeyboardInterrupt]), [_passed] is set to [False]
    and the coroutine goes on; an await that returns reports nothing and
    leaves [_passed] alone.  The await raises what tearDown raised, except a
    [StopIteration], with which it returns: a tearDown that raises
    [StopIteration] is reported by nothing. *)
Theorem deferTearDown_never_raises self w :
  let r := phase_result self (tearDown self) "tearDown" in
  let w' := fst (_deferTearDown self w) in
  snd (_deferTearDown self w) = match r with Hang => Hang | _ => Ret tt end /\
  log w' = log w ++ match r with
                    | Ret _ => []
                    | Raise e => error_calls e
                    | Hang => phase_reports self (tearDown self) "tearDown"
                    end /\
  _passed w' = match r with Raise _ => false | _ => _passed w end /\
  (forall e, invoked self (tearDown self) = true ->
     behaves (tearDown self) = Raises e ->
     r = if isinstance e StopIteration then Ret (stop_value e) else Raise e).
Proof.
  intros r w'. subst r w'.
  assert (H :
    snd (_deferTearDown self w) =
      match phase_result self (tearDown self) "tearDown" with
      | Hang => Hang
      | _ => Ret tt
      end /\
    log (fst (_deferTearDown self w)) =
      log w ++ match phase_result self (tearDown self) "tearDown" with
               | Ret _ => []
               | Raise e => error_calls e
               | Hang => phase_reports self (tearDown self) "tearDown"
               end /\
    _passed (fst (_deferTearDown self w)) =
      match phase_result self (tearDown self) "tearDown" with
      | Raise _ => false
      | _ => _passed w
      end).
  { pose proof (deferTearDown_eq self w) as E.
    destruct (await_run_spec self (tearDown self) "tearDown"%string
                (note (Enter TearingDown) w))
      as (w1 & E1 & _ & _ & Hl & Hp & _).
    rewrite E1 in E. rewrite E. simpl in Hl, Hp.
    pose proof (phase_reports_nil self (tearDown self) "tearDown"%string) as Hnil.
    destruct (phase_result self (tearDown self) "tearDown"%string) as [v | e | ];
      cbn [fst snd set_passed _passed log].
    - rewrite Hnil in Hl by discriminate. auto.
    - rewrite Hnil, app_nil_r in Hl by discriminate.
      rewrite log_fold_report, Hl. auto.
    - auto. }
  destruct H as (H1 & H2 & H3).
  split; [exact H1 | split; [exact H2 | split; [exact H3 | ]]].
  intros e Hi Hb. apply phase_result_raises; assumption.
Qed.

(** ** setUp *)

(** X2.  When the await of setUp raises anything but a [SkipTest] (the
    timeout of its Deferred, the [TypeError] for a generator function and an
    exception of [getTimeout] included), the failure is reported with
    [addError], followed by [stop] for a [KeyboardInterrupt]; then the
    cleanups registered so far are drained and the coroutine ends as the
    drain ends.  The test method and tearDown are not entered.  (The await
    raises what setUp raised, except a [StopIteration], with which it
    returns: see [phase_result].) *)
Theorem setUp_failure self w e :
  phase_result self (setUp self) "setUp" = Raise e ->
  isinstance e SkipTest = false ->
  exists w2 tr evs,
    _deferSetUp self w = _deferRunCleanups self w2 /\
    log w2 = log w ++ error_calls e /\
    _cleanups w2 =
      _cleanups w ++ (if invoked self (setUp self)
                      then registers (setUp self) else []) /\
    _passed w2 = _passed w /\
    trace (fst (_deferSetUp self w)) = trace w ++ tr /\
    entries tr = [SettingUp; CleaningUp] /\
    log (fst (_deferSetUp self w)) = log w2 ++ evs /\
    Forall error_report evs.
Proof.
  intros HsetUp Hskip.
  rewrite deferSetUp_unfold.
  destruct (await_run_spec self (setUp self) "setUp"%string (note (Enter SettingUp) w))
    as (w1 & E1 & Hc1 & Ht1 & Hl1 & Hp1 & _).
  rewrite E1, HsetUp, Hskip. cbv zeta.
  rewrite phase_reports_nil, app_nil_r in Hl1 by congruence.
  set (w2 := if isinstance e KeyboardInterrupt
             then report stop (report (addError e) w1)
             else report (addError e) w1).
  assert (Hsame : match _deferRunCleanups self w2 with
                  | (w3, Ret _) => (w3, Ret tt)
                  | (w3, Raise e') => (w3, Raise e')
                  | (w3, Hang) => (w3, Hang)
                  end = _deferRunCleanups self w2).
  { destruct (_deferRunCleanups self w2) as [w3 [[] | e' | ]]; reflexivity. }
  rewrite Hsame.
  destruct (deferRunCleanups_frame self w2)
    as (w3 & r3 & tr3 & evs3 & E3 & Ht3 & He3 & Hl3 & Hf3 & _).
  exists w2,
    (Enter SettingUp ::
       (if invoked self (setUp self) then [Call "setUp"%string (setUp self)] else [])
       ++ Enter CleaningUp :: tr3),
    evs3.
  rewrite E3. cbn [fst].
  assert (Hw2 : log w2 = log w ++ error_calls e /\ _cleanups w2 = _cleanups w1 /\
                _passed w2 = _passed w1 /\ trace w2 = trace w1).
  { subst w2. unfold error_calls.
    destruct (isinstance e KeyboardInterrupt); simpl;
      rewrite Hl1, <- ?app_assoc; auto. }
  destruct Hw2 as (Hl2 & Hc2 & Hp2 & Ht2).
  rewrite Ht3, Hl3, Ht2, Ht1, Hc2, Hc1, Hp2, Hp1. simpl.
  repeat split; auto.
  - rewrite <- !app_assoc. reflexivity.
  - change (Enter SettingUp :: ?l) with ([Enter SettingUp] ++ l).
    rewrite !entries_app. simpl. rewrite He3.
    destruct (invoked self (setUp self)); reflexivity.
Qed.

(** ** The order of the states *)

(** X3.  Whatever the fixtures, the test method and the cleanups do, the
    states are entered in one of five ways, each a state at most once:
    tearDown is never entered before the drain, the drain never before the
    test method when there is one, and the test method never after a setUp
    whose await raised.  When the coroutine comes to its end, by a return or
    by an exception, the cleanups have been drained exactly once; tearDown
    has been entered exactly once if the await of setUp returned and not at
    all if it raised.  (The await of a setUp that raises [StopIteration]
    returns: see [phase_result].) *)
Theorem deferSetUp_sequence self w :
  exists tr,
    trace (fst (_deferSetUp self w)) = trace w ++ tr /\
    In (entries tr)
       [ [SettingUp];
         [SettingUp; CleaningUp];
         [SettingUp; RunningTest];
         [SettingUp; RunningTest; CleaningUp];
         [SettingUp; RunningTest; CleaningUp; TearingDown] ] /\
    (snd (_deferSetUp self w) <> Hang ->
     entries tr =
       match phase_result self (setUp self) "setUp" with
       | Ret _ => [SettingUp; RunningTest; CleaningUp; TearingDown]
       | _ => [SettingUp; CleaningUp]
       end).
Proof.
  rewrite deferSetUp_unfold.
  destruct (await_run_spec self (setUp self) "setUp"%string (note (Enter SettingUp) w))
    as (w1 & E1 & _ & Ht1 & _).
  rewrite E1. simpl in Ht1. rewrite <- app_assoc in Ht1. simpl in Ht1.
  set (call1 := if invoked self (setUp self)
                then [Call "setUp"%string (setUp self)] else []) in *.
  assert (Hcall1 : entries call1 = []).
  { subst call1. destruct (invoked self (setUp self)); reflexivity. }
  destruct (phase_result self (setUp self) "setUp"%string) as [v | e | ].
  - (* setUp returned *)
    match goal with
    | |- context [try_finally ?a ?b w1] =>
        remember (try_finally a b w1) as res eqn:Eres
    end.
    unfold try_finally at 1 in Eres. unfold try_finally at 1 in Eres.
    unfold bind at 1, exec at 1 in Eres.
    destruct (deferSetUp_testMethod_frame self (note (Enter RunningTest) w1))
      as (w3 & evs3 & E3 & Ht3 & _).
    rewrite E3 in Eres. simpl in Ht3.
    set (call3 := if invoked self (testMethod self)
                  then [Call (_testMethodName self) (testMethod self)] else []) in *.
    assert (Hcall3 : entries call3 = []).
    { subst call3. destruct (invoked self (testMethod self)); reflexivity. }
    destruct (deferRunCleanups_frame self w3)
      as (w4 & r4 & tr4 & evs4 & E4 & Ht4 & He4 & _).
    destruct (deferTearDown_frame self w4)
      as (w5 & r5 & evs5 & E5 & _ & Ht5 & _).
    set (call5 := if invoked self (tearDown self)
                  then [Call "tearDown"%string (tearDown self)] else []) in *.
    assert (Hcall5 : entries call5 = []).
    { subst call5. destruct (invoked self (tearDown self)); reflexivity. }
    assert (H3 : trace w3 = trace w ++ Enter SettingUp :: call1 ++ Enter RunningTest :: call3).
    { rewrite Ht3, Ht1. list_eq. }
    assert (H4 : trace w4 = trace w ++ Enter SettingUp :: call1 ++ Enter RunningTest ::
                              call3 ++ Enter CleaningUp :: tr4).
    { rewrite Ht4, H3. list_eq. }
    assert (H5 : trace w5 = trace w ++ Enter SettingUp :: call1 ++ Enter RunningTest ::
                              call3 ++ Enter CleaningUp :: tr4 ++
                              Enter TearingDown :: call5).
    { rewrite Ht5, H4. list_eq. }
    assert (He3 : entries (Enter SettingUp :: call1 ++ Enter RunningTest :: call3) =
                  [SettingUp; RunningTest]).
    { change (Enter SettingUp :: ?l) with ([Enter SettingUp] ++ l).
      rewrite !entries_app, Hcall1. simpl. rewrite Hcall3. reflexivity. }
    assert (He4' : entries (Enter SettingUp :: call1 ++ Enter RunningTest ::
                              call3 ++ Enter CleaningUp :: tr4) =
                   [SettingUp; RunningTest; CleaningUp]).
    { change (Enter SettingUp :: ?l) with ([Enter SettingUp] ++ l).
      rewrite !entries_app, Hcall1. simpl.
      change (Enter RunningTest :: ?l) with ([Enter RunningTest] ++ l).
      rewrite !entries_app, Hcall3. simpl. rewrite He4. reflexivity. }
    assert (He5 : entries (Enter SettingUp :: call1 ++ Enter RunningTest ::
                             call3 ++ Enter CleaningUp :: tr4 ++
                             Enter TearingDown :: call5) =
                  [SettingUp; RunningTest; CleaningUp; TearingDown]).
    { change (Enter SettingUp :: ?l) with ([Enter SettingUp] ++ l).
      rewrite !entries_app, Hcall1. simpl.
      change (Enter RunningTest :: ?l) with ([Enter RunningTest] ++ l).
      rewrite !entries_app, Hcall3. simpl.
      change (Enter CleaningUp :: ?l) with ([Enter CleaningUp] ++ l).
      rewrite !entries_app, He4. simpl. rewrite Hcall5. reflexivity. }
    assert (Hfull : fst res = w5 ->
              exists tr, trace (fst res) = trace w ++ tr /\
                In (entries tr)
                   [ [SettingUp];
                     [SettingUp; CleaningUp];
                     [SettingUp; RunningTest];
                     [SettingUp; RunningTest; CleaningUp];
                     [SettingUp; RunningTest; CleaningUp; TearingDown] ] /\
                (snd res <> Hang ->
                 entries tr = [SettingUp; RunningTest; CleaningUp; TearingDown])).
    { intros ->. eexists. split; [exact H5 | ].
      rewrite He5. simpl. split; [in_list | reflexivity]. }
    destruct (phase_result self (testMethod self) (_testMethodName self))
      as [v3 | e3 | ].
    + rewrite E4 in Eres. destruct r4 as [[] | e4 | ].
      * rewrite E5 in Eres. apply Hfull. subst res. destruct r5; reflexivity.
      * rewrite E5 in Eres. apply Hfull. subst res. destruct r5; reflexivity.
      * subst res. eexists. split; [exact H4 | ].
        rewrite He4'. simpl. split; [in_list | congruence].
    + rewrite E4 in Eres. destruct r4 as [[] | e4 | ].
      * rewrite E5 in Eres. apply Hfull. subst res. destruct r5; reflexivity.
      * rewrite E5 in Eres. apply Hfull. subst res. destruct r5; reflexivity.
      * subst res. eexists. split; [exact H4 | ].
        rewrite He4'. simpl. split; [in_list | congruence].
    + subst res. eexists. split; [exact H3 | ].
      rewrite He3. simpl. split; [in_list | congruence].
  - (* setUp failed *)
    cbv zeta.
    match goal with
    | |- context [_deferRunCleanups self ?w2] =>
        assert (Ht2 : trace w2 = trace w1)
          by (destruct (isinstance e SkipTest);
              [ | destruct (isinstance e KeyboardInterrupt)]; reflexivity);
        destruct (deferRunCleanups_frame self w2)
          as (w3 & r3 & tr3 & evs3 & E3 & Ht3 & He3 & _)
    end.
    rewrite E3.
    exists (Enter SettingUp :: call1 ++ Enter CleaningUp :: tr3).
    assert (H3 : trace w3 = trace w ++ Enter SettingUp :: call1 ++ Enter CleaningUp :: tr3).
    { rewrite Ht3, Ht2, Ht1. list_eq. }
    split; [destruct r3 as [[] | | ]; exact H3 | ].
    change (Enter SettingUp :: ?l) with ([Enter SettingUp] ++ l).
    rewrite !entries_app, Hcall1. simpl. rewrite He3.
    split; [in_list | reflexivity].
  - (* setUp never resumes the coroutine *)
    exists (Enter SettingUp :: call1).
    split; [exact Ht1 | ].
    change (Enter SettingUp :: ?l) with ([Enter SettingUp] ++ l).
    rewrite !entries_app, Hcall1. simpl. split; [in_list | congruence].
Qed.

(** ** The drain, however the cleanups behave *)

(** The loop ends with the stack empty when it returns, and only an
    exception that is not an [Exception] leaves it; it reports nothing
    unless a cleanup leaves the coroutine suspended. *)
Lemma while_ends self fuel : forall failures w,
  match _deferRunCleanups_while self fuel failures w with
  | (w', Ret _) => _cleanups w' = [] /\ log w' = log w /\ _passed w' = _passed w
  | (w', Raise e) =>
      isinstance e Exception = false /\ log w' = log w /\ _passed w' = _passed w
  | (w', Hang) => True
  end.
Proof.
  induction fuel as [ | fuel IH]; intros failures w.
  - simpl. destruct (pop (_cleanups w)) as [[rest a] | ] eqn:Hpop; [exact I | ].
    apply pop_none in Hpop. auto.
  - destruct (pop (_cleanups w)) as [[rest a] | ] eqn:Hpop.
    + destruct (while_step self fuel failures w rest a Hpop)
        as (w1 & _ & _ & Hl & Hp & _ & E).
      rewrite E.
      pose proof (cleanup_reports_hang self a) as Hnil.
      destruct (cleanup_result self a) as [v | e | ]; [ | | exact I].
      * rewrite Hnil, app_nil_r in Hl by discriminate.
        specialize (IH failures w1).
        destruct (_deferRunCleanups_while self fuel failures w1) as [w' [fs | e' | ]];
          rewrite <- ?Hl, <- ?Hp; exact IH.
      * rewrite Hnil, app_nil_r in Hl by discriminate.
        destruct (isinstance e Exception) eqn:Ee; [ | auto].
        specialize (IH (failures ++ [e]) w1).
        destruct (_deferRunCleanups_while self fuel (failures ++ [e]) w1)
          as [w' [fs | e' | ]];
          rewrite <- ?Hl, <- ?Hp; exact IH.
    + rewrite while_unfold_empty by exact Hpop. apply pop_none in Hpop. auto.
Qed.

(** X4.  When [_deferRunCleanups] returns, the cleanup stack is empty,
    whatever the cleanups did and registered.  An exception leaves it only
    if it is not an [Exception] (a [KeyboardInterrupt], say), and then
    nothing has been reported, not even the failures collected before, and
    [_passed] is as it was. *)
Theorem deferRunCleanups_ends self w :
  let r := _deferRunCleanups self w in
  (snd r = Ret tt -> _cleanups (fst r) = []) /\
  (forall e, snd r = Raise e ->
     isinstance e Exception = false /\
     log (fst r) = log w /\
     _passed (fst r) = _passed w).
Proof.
  intros r. subst r. rewrite deferRunCleanups_unfold.
  pose proof (while_ends self (stack_weight (_cleanups w)) []
                (note (Enter CleaningUp) w)) as H.
  destruct (_deferRunCleanups_while self (stack_weight (_cleanups w)) []
              (note (Enter CleaningUp) w)) as [w1 [failures | e | ]].
  - destruct H as (Hc & _).
    destruct (report_failures failures w1) as (w' & E & _ & _ & _ & Hc' & _).
    rewrite E. simpl. split; [intros _; congruence | discriminate].
  - simpl. split; [discriminate | ].
    intros e' He'. inversion He'; subst e'. exact H.
  - simpl. split; discriminate.
Qed.

Lemma stack_weight_zero cs : stack_weight cs = 0 -> cs = [].
Proof.
  destruct cs as [ | a cs]; [reflexivity | ].
  unfold stack_weight. simpl. rewrite weight_eq. discriminate.
Qed.

Lemma failures_of_cons self a order :
  failures_of self (a :: order) =
    match cleanup_result self a with Raise e => [e] | _ => [] end ++
    failures_of self order.
Proof. reflexivity. Qed.

(** The part of the stack above [base], when every cleanup that can come
    on it is called and lets the loop go on: the loop unwinds it and goes on
    with [base]. *)
Lemma while_above self : forall n top,
  stack_weight top = n ->
  forallb (deep (unwinds self)) top = true ->
  forall k failures w base,
    _cleanups w = base ++ top ->
    exists w1,
      _deferRunCleanups_while self (n + k) failures w =
        _deferRunCleanups_while self k
          (failures ++ failures_of self (unwind_order top)) w1 /\
      _cleanups w1 = base /\
      trace w1 = trace w ++ map cleanup_call (unwind_order top) /\
      log w1 = log w /\
      _passed w1 = _passed w /\
      running w1 = running w.
Proof.
  induction n as [ | n IH]; intros top Hn Hdeep k failures w base Hc.
  - apply stack_weight_zero in Hn. subst top.
    exists w. simpl. rewrite !app_nil_r in *. repeat split; auto.
  - destruct (exists_last (l := top)) as (rest & a & ->).
    { intros ->. discriminate. }
    rewrite stack_weight_snoc in Hn. injection Hn as Hn.
    assert (Hpop : pop (_cleanups w) = Some (base ++ rest, a)).
    { rewrite Hc, app_assoc. apply pop_snoc. }
    destruct (while_step self (n + k) failures w (base ++ rest) a Hpop)
      as (w1 & Hc1 & Ht1 & Hl1 & Hp1 & Hr1 & E1).
    destruct (deep_stack_step _ _ _ true Hdeep) as [Ha Hnext].
    unfold unwinds in Ha. apply andb_true_iff in Ha. destruct Ha as [Hcalled Ha].
    rewrite Hcalled in *. rewrite <- app_assoc in Hc1.
    assert (Hrep : cleanup_reports self a = []).
    { apply cleanup_reports_hang. destruct (cleanup_result self a); congruence. }
    rewrite Hrep, app_nil_r in Hl1.
    change (S n + k) with (S (n + k)). rewrite E1.
    rewrite unwind_order_snoc, failures_of_cons. simpl map.
    destruct (cleanup_result self a) as [v | e | ]; [ | | discriminate].
    + destruct (IH (rest ++ registers a) Hn Hnext k failures w1 base Hc1)
        as (w2 & E2 & Hc2 & Ht2 & Hl2 & Hp2 & Hr2).
      exists w2. rewrite E2, Hc2, Ht2, Hl2, Hp2, Hr2, Ht1, Hl1, Hp1, Hr1.
      repeat split; auto. list_eq.
    + rewrite Ha.
      destruct (IH (rest ++ registers a) Hn Hnext k (failures ++ [e]) w1 base Hc1)
        as (w2 & E2 & Hc2 & Ht2 & Hl2 & Hp2 & Hr2).
      exists w2. rewrite E2, Hc2, Ht2, Hl2, Hp2, Hr2, Ht1, Hl1, Hp1, Hr1.
      rewrite <- !app_assoc. repeat split; auto.
Qed.

(** X5.  A cleanup that raises an exception that is not an [Exception] ends
    the drain at once, after the cleanups above it on the stack (and those
    they registered) have run: the exception leaves [_deferRunCleanups], the
    cleanups below stay on the stack and are not called, and the failures
    collected from the cleanups above are not reported. *)
Theorem deferRunCleanups_interrupted self w base a top e :
  _cleanups w = base ++ a :: top ->
  forallb (deep (unwinds self)) top = true ->
  cleanup_result self a = Raise e ->
  isinstance e Exception = false ->
  exists w',
    _deferRunCleanups self w = (w', Raise e) /\
    _cleanups w' = base ++ (if cleanup_called self a then registers a else []) /\
    trace w' =
      trace w ++ Enter CleaningUp :: map cleanup_call (unwind_order top) ++
        (if cleanup_called self a then [cleanup_call a] else []) /\
    log w' = log w /\
    _passed w' = _passed w.
Proof.
  intros Hc Hdeep Ha He.
  rewrite deferRunCleanups_unfold.
  assert (Hfuel : stack_weight (_cleanups w) =
                  stack_weight top + S (stack_weight (base ++ registers a))).
  { rewrite Hc. change (a :: top) with ([a] ++ top).
    rewrite app_assoc, stack_weight_app, stack_weight_snoc. lia. }
  rewrite Hfuel.
  destruct (while_above self (stack_weight top) top eq_refl Hdeep
              (S (stack_weight (base ++ registers a))) []
              (note (Enter CleaningUp) w) (base ++ [a]))
    as (w1 & E1 & Hc1 & Ht1 & Hl1 & Hp1 & _).
  { simpl. rewrite Hc, <- app_assoc. reflexivity. }
  rewrite E1.
  assert (Hpop : pop (_cleanups w1) = Some (base, a)).
  { rewrite Hc1. apply pop_snoc. }
  destruct (while_step self (stack_weight (base ++ registers a))
              ([] ++ failures_of self (unwind_order top)) w1 base a Hpop)
    as (w2 & Hc2 & Ht2 & Hl2 & Hp2 & _ & E2).
  rewrite E2, Ha, He.
  exists w2. split; [reflexivity | ].
  rewrite cleanup_reports_hang, app_nil_r in Hl2 by congruence.
  rewrite Hc2, Ht2, Hl2, Hp2, Ht1, Hl1, Hp1. simpl.
  repeat split; auto. list_eq.
Qed.

(** ** The end of the test, in full *)

Lemma same_run_refl w : same_run w w.
Proof. repeat split. Qed.

Lemma same_run_trans w1 w2 w3 : same_run w1 w2 -> same_run w2 w3 -> same_run w1 w3.
Proof.
  unfold same_run. intros (A1 & A2 & A3 & A4 & A5 & A6) (B1 & B2 & B3 & B4 & B5 & B6).
  repeat split; congruence.
Qed.

Lemma for_each_report (l : list Exn) : forall w,
  exists w',
    for_each l (fun e => exec (report (addError e))) w = (w', Ret tt) /\
    log w' = log w ++ map addError l /\
    _passed w' = _passed w /\
    same_run w w'.
Proof.
  induction l as [ | e l IH]; intros w.
  - exists w. simpl. rewrite app_nil_r. repeat split.
  - simpl. unfold bind at 1, exec at 1.
    destruct (IH (report (addError e) w)) as (w' & E & Hl & Hp & Hs).
    exists w'. rewrite E, Hl, Hp. simpl. rewrite <- app_assoc.
    repeat split; apply Hs.
Qed.

Lemma for_each_demote (l : list Exn) : forall w,
  exists w',
    for_each l (fun e => exec (report (addError e)) ;; exec (set_passed false)) w =
      (w', Ret tt) /\
    log w' = log w ++ map addError l /\
    _passed w' = match l with [] => _passed w | _ :: _ => false end /\
    same_run w w'.
Proof.
  induction l as [ | e l IH]; intros w.
  - exists w. simpl. rewrite app_nil_r. repeat split.
  - simpl. unfold bind at 1. unfold bind at 1. unfold exec at 1 2.
    destruct (IH (set_passed false (report (addError e) w)))
      as (w' & E & Hl & Hp & Hs).
    exists w'. rewrite E, Hl. simpl. rewrite <- app_assoc.
    split; [reflexivity | split; [reflexivity | split]].
    + rewrite Hp. destruct l; reflexivity.
    + repeat split; apply Hs.
Qed.

(** What [_cleanUp] does, for each way the janitor can end. *)
Lemma cleanUp_spec self w :
  let janitor := postCaseCleanup self in
  let clean := match janitor_returns janitor with Ret true => true | _ => false end in
  let no_errors := match getErrors self with [] => true | _ :: _ => false end in
  let passed := _passed w && clean && no_errors in
  exists w',
    same_run w w' /\
    match janitor_returns janitor with
    | Hang =>
        _cleanUp self w = (w', Hang) /\
        _passed w' = _passed w /\
        log w' = log w ++ map addError (janitor_reports janitor)
    | r =>
        _cleanUp self w = (w', Ret tt) /\
        _passed w' = passed /\
        log w' =
          log w ++
          map addError
            (janitor_reports janitor ++
             match r with Raise e => [e] | _ => [] end ++
             getErrors self) ++
          (if passed then [addSuccess] else [])
    end.
Proof.
  intros janitor clean no_errors passed.
  subst passed clean no_errors janitor.
  destruct (for_each_report (janitor_reports (postCaseCleanup self)) w)
    as (w1 & E1 & Hl1 & Hp1 & Hs1).
  (* the try block and its handler *)
  assert (Htry : exists w2,
            same_run w w2 /\
            match janitor_returns (postCaseCleanup self) with
            | Ret clean =>
                try_except
                  (for_each (janitor_reports (postCaseCleanup self))
                     (fun e => exec (report (addError e))) ;;
                   clean <- (fun w => (w, janitor_returns (postCaseCleanup self))) ;;
                   if negb clean then exec (set_passed false) else ret tt)
                  (fun e => exec (report (addError e)) ;; exec (set_passed false)) w =
                  (w2, Ret tt) /\
                _passed w2 = _passed w && clean /\
                log w2 = log w ++ map addError (janitor_reports (postCaseCleanup self))
            | Raise e =>
                try_except
                  (for_each (janitor_reports (postCaseCleanup self))
                     (fun e => exec (report (addError e))) ;;
                   clean <- (fun w => (w, janitor_returns (postCaseCleanup self))) ;;
                   if negb clean then exec (set_passed false) else ret tt)
                  (fun e => exec (report (addError e)) ;; exec (set_passed false)) w =
                  (w2, Ret tt) /\
                _passed w2 = false /\
                log w2 = log w ++
                         map addError (janitor_reports (postCaseCleanup self) ++ [e])
            | Hang =>
                try_except
                  (for_each (janitor_reports (postCaseCleanup self))
                     (fun e => exec (report (addError e))) ;;
                   clean <- (fun w => (w, janitor_returns (postCaseCleanup self))) ;;
                   if negb clean then exec (set_passed false) else ret tt)
                  (fun e => exec (report (addError e)) ;; exec (set_passed false)) w =
                  (w2, Hang) /\
                _passed w2 = _passed w /\
                log w2 = log w ++ map addError (janitor_reports (postCaseCleanup self))
            end).
  { unfold try_except. rewrite (bind_Ret _ _ _ _ _ E1). unfold bind.
    destruct (janitor_returns (postCaseCleanup self)) as [[ | ] | e | ]; simpl.
    - exists w1. rewrite andb_true_r. auto.
    - exists (set_passed false w1). rewrite andb_false_r.
      split; [exact Hs1 | auto].
    - exists (set_passed false (report (addError e) w1)).
      split; [exact Hs1 | ]. simpl. rewrite Hl1, map_app, <- app_assoc. auto.
    - exists w1. auto. }
  destruct Htry as (w2 & Hs2 & Htry).
  unfold _cleanUp.
  destruct (for_each_demote (getErrors self) w2) as (w3 & E3 & Hl3 & Hp3 & Hs3).
  assert (Hs : same_run w w3) by (eapply same_run_trans; eassumption).
  assert (Hend : forall w3 : World,
            (fun w => if _passed w then exec (report addSuccess) w else ret tt w) w3 =
            ((if _passed w3 then report addSuccess w3 else w3), Ret tt)).
  { intros w0. destruct (_passed w0); reflexivity. }
  destruct (janitor_returns (postCaseCleanup self)) as [clean | e | ].
  - destruct Htry as (Etry & Hp2 & Hl2).
    rewrite (bind_Ret _ _ _ _ _ Etry), (bind_Ret _ _ _ _ _ E3), Hend.
    assert (Hp : _passed w3 =
                 _passed w && (if clean then true else false) &&
                 match getErrors self with [] => true | _ :: _ => false end).
    { rewrite Hp3, Hp2.
      destruct (getErrors self); destruct clean;
        rewrite ?andb_true_r, ?andb_false_r; reflexivity. }
    rewrite <- Hp.
    exists (if _passed w3 then report addSuccess w3 else w3).
    split; [destruct (_passed w3); exact Hs | ].
    split; [reflexivity | ].
    destruct (_passed w3) eqn:Ep3; simpl; rewrite ?Ep3, Hl3, Hl2;
      (split; [reflexivity | ]); rewrite !map_app; list_eq.
  - destruct Htry as (Etry & Hp2 & Hl2).
    rewrite (bind_Ret _ _ _ _ _ Etry), (bind_Ret _ _ _ _ _ E3), Hend.
    assert (Hp : _passed w3 = false).
    { rewrite Hp3, Hp2. destruct (getErrors self); reflexivity. }
    rewrite Hp, andb_false_r. simpl andb. cbv iota.
    exists w3. split; [exact Hs | ].
    split; [reflexivity | split; [exact Hp | ]].
    rewrite Hl3, Hl2, !map_app. list_eq.
  - destruct Htry as (Etry & Hp2 & Hl2).
    rewrite (bind_Hang _ _ _ _ Etry).
    exists w2. auto.
Qed.

(** X6.  [_cleanUp] does not raise.  It reports an error for each thing
    the janitor reports, for what the janitor raises and for each logged
    error; it reports [addSuccess], last, exactly when the test had passed
    so far, the janitor found the reactor clean and no error was logged. *)
Theorem cleanUp_verdict self w :
  janitor_returns (postCaseCleanup self) <> Hang ->
  let janitor := postCaseCleanup self in
  let clean := match janitor_returns janitor with Ret true => true | _ => false end in
  let no_errors := match getErrors self with [] => true | _ :: _ => false end in
  let passed := _passed w && clean && no_errors in
  exists w',
    _cleanUp self w = (w', Ret tt) /\
    _passed w' = passed /\
    log w' =
      log w ++
      map addError
        (janitor_reports janitor ++
         match janitor_returns janitor with Raise e => [e] | _ => [] end ++
         getErrors self) ++
      (if passed then [addSuccess] else []).
Proof.
  intros Hjanitor janitor clean no_errors passed.
  subst passed no_errors clean janitor.
  destruct (cleanUp_spec self w) as (w' & _ & H).
  exists w'.
  destruct (janitor_returns (postCaseCleanup self));
    [exact H | exact H | congruence].
Qed.

(** ** Waiting, in full *)

Lemma only_reactor_refl w : only_reactor w w.
Proof. repeat split. Qed.

Lemma only_reactor_trans w1 w2 w3 :
  only_reactor w1 w2 -> only_reactor w2 w3 -> only_reactor w1 w3.
Proof.
  unfold only_reactor.
  intros (A1 & A2 & A3 & A4 & A5 & A6) (B1 & B2 & B3 & B4 & B5 & B6).
  repeat split; congruence.
Qed.

Lemma wait_with_frame self run d w :
  (forall w0, only_reactor w0 (fst (run w0))) ->
  only_reactor w (fst (_wait_with self run d w)).
Proof.
  intros Hrun.
  destruct (running w) as [ | u l] eqn:Er.
  2:{ rewrite wait_with_refused by congruence. apply only_reactor_refl. }
  rewrite wait_with_admitted by exact Er.
  set (w1 := set_running (running w ++ [tt]) w).
  assert (H1 : only_reactor w w1) by (subst w1; repeat split).
  clearbody w1.
  assert (Hfin : forall w2, only_reactor w2 (set_running (removelast (running w2)) w2))
    by (intros w2; repeat split).
  destruct d as [o | ].
  - unfold try_finally, ret, exec. simpl.
    eapply only_reactor_trans; [exact H1 | apply Hfin].
  - specialize (Hrun w1).
    unfold try_finally, bind, exec.
    destruct (run w1) as [w2 [results | e | ]]; simpl in *.
    + destruct results; [destruct (_timedOut w2) | ]; simpl;
        (eapply only_reactor_trans; [exact H1 | ]);
        (eapply only_reactor_trans; [exact Hrun | apply Hfin]).
    + eapply only_reactor_trans; [exact H1 | ].
      eapply only_reactor_trans; [exact Hrun | apply Hfin].
    + eapply only_reactor_trans; [exact H1 | exact Hrun].
Qed.

Lemma reactor_run_frame self s : forall w,
  only_reactor w (fst (reactor_run self s w)).
Proof.
  induction s as [o | | e | | d' inner IHinner rest IHrest]; intros w; simpl;
    try (repeat split; fail).
  pose proof (wait_with_frame self (reactor_run self inner) d' w IHinner) as Hw.
  destruct (_wait_with self (reactor_run self inner) d' w) as [w' [a | e | ]];
    simpl in *; try exact Hw;
    (eapply only_reactor_trans; [exact Hw | apply IHrest]).
Qed.

Lemma wait_frame self s d w : only_reactor w (fst (_wait self s d w)).
Proof. apply wait_with_frame, reactor_run_frame. Qed.

Lemma wait_fired self s o w :
  running w = [] -> _wait self s (Some o) w = (w, Ret tt).
Proof.
  intros Er. unfold _wait. rewrite wait_with_admitted by exact Er.
  unfold try_finally, ret, exec. simpl. rewrite Er. simpl.
  destruct w; simpl in *; subst; reflexivity.
Qed.

(** X7.  What [_wait] comes to when no other wait is in flight.  On a
    Deferred that has fired already it returns at once and the reactor is not
    run, whatever the reactor would have done.  Otherwise it runs the
    reactor: if the Deferred fires, the reactor is crashed and [_wait]
    returns; if the reactor stops without that, [_wait] returns when
    [_timedOut] is set and raises [KeyboardInterrupt], which no
    [except Exception] catches, when it is not; what [reactor.run] raises
    leaves [_wait].  In all these cases [_wait_is_running] is empty again;
    it stays locked only while the reactor runs. *)
Theorem wait_outcomes self w :
  running w = [] ->
  (forall s o, _wait self s (Some o) w = (w, Ret tt)) /\
  (forall o, _wait self (Firing o) None w = (crash w, Ret tt)) /\
  _wait self Stopped None w =
    (w, if _timedOut w then Ret tt
        else Raise (mkExn [KeyboardInterrupt] (Text ""))) /\
  isinstance (mkExn [KeyboardInterrupt] (Text "")) Exception = false /\
  (forall e, _wait self (RunRaises e) None w = (w, Raise e)) /\
  _wait self Forever None w = (set_running [tt] w, Hang).
Proof.
  intros Er. unfold _wait.
  repeat split; intros; try reflexivity;
    rewrite wait_with_admitted by exact Er;
    unfold try_finally, bind, exec, ret, raise, hang; simpl;
    rewrite ?Er; simpl;
    try (destruct (_timedOut w)); simpl;
    try reflexivity;
    destruct w; simpl in *; subst; reflexivity.
Qed.

(** ** The whole run *)

Lemma classCleanUp_eq self w :
  _classCleanUp self w =
    (match postClassCleanup self with
     | Some e => report (addError e) w
     | None => w
     end, Ret tt).
Proof. unfold _classCleanUp. destruct (postClassCleanup self); reflexivity. Qed.

Lemma fromCoroutine_eq (coro : M unit) w :
  fromCoroutine coro w =
    (fst (coro w), Ret (coroutine_deferred w (fst (coro w)) (snd (coro w)))).
Proof.
  unfold fromCoroutine, deferred_since, coroutine_deferred.
  destruct (coro w) as [w' [a | e | ]]; reflexivity.
Qed.

(** [_runFixturesAndTest], step by step. *)
Lemma runFixturesAndTest_eq self s w :
  let w1 := fst (_deferSetUp self (set_timedOut false w)) in
  let d := coroutine_deferred (set_timedOut false w) w1
             (snd (_deferSetUp self (set_timedOut false w))) in
  let w2 := fst (_wait self s d w1) in
  let r := snd (_wait self s d w1) in
  _runFixturesAndTest self s w =
    match r with
    | Hang => (w2, Hang)
    | _ =>
        match snd (_cleanUp self w2) with
        | Ret _ => (fst (_classCleanUp self (fst (_cleanUp self w2))), r)
        | Raise e => (fst (_cleanUp self w2), Raise e)
        | Hang => (fst (_cleanUp self w2), Hang)
        end
    end.
Proof.
  intros w1 d w2 r. subst r w2 d w1.
  unfold _runFixturesAndTest.
  unfold bind at 1, exec at 1.
  rewrite (bind_Ret _ _ _ _ _ (fromCoroutine_eq _ _)).
  rewrite (try_finally_eq _ _ _ _ _ (surjective_pairing _)).
  destruct (snd (_wait self s _ _)) as [[] | e | ]; try reflexivity;
    unfold bind; destruct (_cleanUp self _) as [w3 [[] | e3 | ]];
    simpl; rewrite ?classCleanUp_eq; reflexivity.
Qed.

(** X8.  [_cleanUp] and [_classCleanUp] run whenever [_wait] comes back,
    by a return or by an exception (the [KeyboardInterrupt] of an aborted
    run, the [RuntimeError] of a nested wait), and what [_wait] raised then
    leaves [_runFixturesAndTest]: the two neither raise nor hide it. *)
Theorem runFixturesAndTest_cleans_up self s w :
  janitor_returns (postCaseCleanup self) <> Hang ->
  exists w1 d w2 r,
    fromCoroutine (_deferSetUp self) (set_timedOut false w) = (w1, Ret d) /\
    _wait self s d w1 = (w2, r) /\
    _runFixturesAndTest self s w =
      match r with
      | Hang => (w2, Hang)
      | _ => (fst (_classCleanUp self (fst (_cleanUp self w2))), r)
      end.
Proof.
  intros Hjanitor.
  pose proof (runFixturesAndTest_eq self s w) as E. cbv zeta in E.
  do 4 eexists. split; [apply fromCoroutine_eq | ].
  split; [apply surjective_pairing | ].
  rewrite E.
  match goal with
  | |- context [_cleanUp self ?w2] =>
      destruct (cleanUp_spec self w2) as (w3 & _ & H3)
  end.
  destruct (janitor_returns (postCaseCleanup self)) as [clean | e | ];
    [ | | congruence];
    destruct H3 as (E3 & _); rewrite E3; reflexivity.
Qed.

Lemma classified_passed self c w :
  _passed (classified self c w) = true -> _passed w = true \/ c = Passed.
Proof. destruct c; simpl; auto. Qed.

Lemma classify_passed self r :
  classify self r = Passed -> (exists v, r = inl v) /\ getTodo self = None.
Proof.
  unfold classify, classify_unexpected.
  destruct r as [v | f]; destruct (getTodo self) as [t | ]; try discriminate.
  - eauto.
  - destruct (expected t f); try discriminate.
    destruct (assertion_failure self f); try discriminate.
    destruct (isinstance f KeyboardInterrupt); try discriminate.
    destruct (isinstance f SkipTest); discriminate.
  - destruct (assertion_failure self f); try discriminate.
    destruct (isinstance f KeyboardInterrupt); try discriminate.
    destruct (isinstance f SkipTest); discriminate.
Qed.

(** Only a test method that returns, with no todo annotation, sets
    [_passed]. *)
Lemma deferSetUp_testMethod_passed self w :
  _passed (fst (_deferSetUp_testMethod self w)) = true ->
  _passed w = true \/
  ((exists v, phase_result self (testMethod self) (_testMethodName self) = Ret v) /\
   getTodo self = None).
Proof.
  pose proof (deferSetUp_testMethod_eq self w) as E.
  destruct (await_run_spec self (testMethod self) (_testMethodName self) w)
    as (w1 & E1 & _ & _ & _ & Hp & _).
  rewrite E1 in E. rewrite E.
  destruct (phase_result self (testMethod self) (_testMethodName self))
    as [v | e | ]; cbn [fst]; intros H.
  - apply classified_passed in H. destruct H as [H | H]; [left; congruence | ].
    apply classify_passed in H. right. split; [eauto | apply H].
  - apply classified_passed in H. destruct H as [H | H]; [left; congruence | ].
    apply classify_passed in H. destruct H as [[v Hv] _]. discriminate.
  - left. congruence.
Qed.

(** A tearDown that raises clears [_passed]. *)
Lemma deferTearDown_passed self w :
  _passed (fst (_deferTearDown self w)) = true ->
  _passed w = true /\
  forall e, phase_result self (tearDown self) "tearDown" <> Raise e.
Proof.
  pose proof (deferTearDown_eq self w) as E.
  destruct (await_run_spec self (tearDown self) "tearDown"%string
              (note (Enter TearingDown) w))
    as (w1 & E1 & _ & _ & _ & Hp & _).
  rewrite E1 in E. rewrite E. simpl in Hp.
  destruct (phase_result self (tearDown self) "tearDown"%string) as [v | e | ];
    simpl; intros H; try discriminate;
    (split; [congruence | discriminate]).
Qed.

Lemma try_finally_fst {A} (m : M A) (fin : M unit) w :
  fst (try_finally m fin w) =
    match snd (m w) with
    | Hang => fst (m w)
    | _ => fst (fin (fst (m w)))
    end.
Proof.
  rewrite (try_finally_eq _ _ _ _ _ (surjective_pairing _)).
  destruct (snd (m w)); reflexivity.
Qed.

(** What the coroutine reports, and what it takes for [_passed] to come out
    set. *)
Lemma deferSetUp_verdict self w :
  exists evs,
    log (fst (_deferSetUp self w)) = log w ++ evs /\
    Forall (fun c => c <> addSuccess) evs /\
    (_passed (fst (_deferSetUp self w)) = true ->
     _passed w = true \/
     ((exists v, phase_result self (setUp self) "setUp" = Ret v) /\
      (exists v, phase_result self (testMethod self) (_testMethodName self) = Ret v) /\
      getTodo self = None /\
      (snd (_deferSetUp self w) <> Hang ->
       forall e, phase_result self (tearDown self) "tearDown" <> Raise e))).
Proof.
  rewrite deferSetUp_unfold.
  destruct (await_run_spec self (setUp self) "setUp"%string (note (Enter SettingUp) w))
    as (w1 & E1 & _ & _ & Hl1 & Hp1 & _).
  rewrite E1. simpl in Hl1, Hp1.
  pose proof (Forall_error_report_not_success _
                (phase_reports_error self (setUp self) "setUp"%string)) as Hf1.
  destruct (phase_result self (setUp self) "setUp"%string) as [v | e | ].
  - (* setUp returned *)
    match goal with
    | |- context [try_finally ?a ?b w1] =>
        remember (try_finally a b w1) as res eqn:Eres
    end.
    unfold try_finally at 1 in Eres. unfold try_finally at 1 in Eres.
    unfold bind at 1, exec at 1 in Eres.
    destruct (deferSetUp_testMethod_frame self (note (Enter RunningTest) w1))
      as (w3 & evs3 & E3 & _ & _ & Hl3 & Hf3 & _).
    pose proof (deferSetUp_testMethod_passed self (note (Enter RunningTest) w1)) as Hp3.
    rewrite E3 in Eres, Hp3. simpl in Hl3. cbn [fst] in Hp3.
    change (_passed (note (Enter RunningTest) w1)) with (_passed w1) in Hp3.
    rewrite Hp1 in Hp3.
    destruct (deferRunCleanups_frame self w3)
      as (w4 & r4 & tr4 & evs4 & E4 & _ & _ & Hl4 & Hf4 & Hp4 & _).
    apply Forall_error_report_not_success in Hf4.
    destruct (deferTearDown_frame self w4)
      as (w5 & r5 & evs5 & E5 & _ & _ & Hl5 & Hf5 & _).
    pose proof (deferTearDown_passed self w4) as Hp5.
    rewrite E5 in Hp5. cbn [fst] in Hp5.
    assert (H43 : _passed w4 = true -> _passed w3 = true).
    { intros H4. destruct (_passed w3); [reflexivity | ]. rewrite Hp4 in H4; auto. }
    assert (Hstop3 :
              exists evs,
                log w3 = log w ++ evs /\ Forall (fun c => c <> addSuccess) evs).
    { exists (phase_reports self (setUp self) "setUp"%string ++ evs3).
      rewrite Hl3, Hl1, app_assoc. split; [reflexivity | apply Forall_app; auto]. }
    assert (Hstop4 :
              exists evs,
                log w4 = log w ++ evs /\ Forall (fun c => c <> addSuccess) evs).
    { destruct Hstop3 as (evs & Hl & Hf). exists (evs ++ evs4).
      rewrite Hl4, Hl, app_assoc. split; [reflexivity | apply Forall_app; auto]. }
    assert (Hstop5 :
              exists evs,
                log w5 = log w ++ evs /\ Forall (fun c => c <> addSuccess) evs).
    { destruct Hstop4 as (evs & Hl & Hf). exists (evs ++ evs5).
      rewrite Hl5, Hl, app_assoc. split; [reflexivity | apply Forall_app; auto]. }
    assert (Hfull : fst res = w5 ->
              exists evs,
                log (fst res) = log w ++ evs /\
                Forall (fun c => c <> addSuccess) evs /\
                (_passed (fst res) = true ->
                 _passed w = true \/
                 ((exists v0, Ret v = Ret v0) /\
                  (exists v0,
                     phase_result self (testMethod self) (_testMethodName self) =
                     Ret v0) /\
                  getTodo self = None /\
                  (snd res <> Hang ->
                   forall e,
                     phase_result self (tearDown self) "tearDown" <> Raise e)))).
    { intros ->. destruct Hstop5 as (evs & Hl & Hf). exists evs.
      split; [exact Hl | split; [exact Hf | ]].
      intros H5. destruct (Hp5 H5) as [H4 Htd].
      destruct (Hp3 (H43 H4)) as [H1 | [Htest Htodo]]; [left; exact H1 | ].
      right. split; [eauto | auto]. }
    assert (Hdrain : fst res = w4 -> snd res = Hang ->
              exists evs,
                log (fst res) = log w ++ evs /\
                Forall (fun c => c <> addSuccess) evs /\
                (_passed (fst res) = true ->
                 _passed w = true \/
                 ((exists v0, Ret v = Ret v0) /\
                  (exists v0,
                     phase_result self (testMethod self) (_testMethodName self) =
                     Ret v0) /\
                  getTodo self = None /\
                  (snd res <> Hang ->
                   forall e,
                     phase_result self (tearDown self) "tearDown" <> Raise e)))).
    { intros -> Hhang. destruct Hstop4 as (evs & Hl & Hf). exists evs.
      split; [exact Hl | split; [exact Hf | ]].
      intros H4.
      destruct (Hp3 (H43 H4)) as [H1 | [Htest Htodo]]; [left; exact H1 | ].
      right. split; [eauto | ]. split; [exact Htest | ].
      split; [exact Htodo | congruence]. }
    destruct (phase_result self (testMethod self) (_testMethodName self))
      as [v3 | e3 | ].
    + rewrite E4 in Eres. destruct r4 as [[] | e4 | ].
      * rewrite E5 in Eres. apply Hfull. subst res. destruct r5; reflexivity.
      * rewrite E5 in Eres. apply Hfull. subst res. destruct r5; reflexivity.
      * apply Hdrain; subst res; reflexivity.
    + rewrite E4 in Eres. destruct r4 as [[] | e4 | ].
      * rewrite E5 in Eres. apply Hfull. subst res. destruct r5; reflexivity.
      * rewrite E5 in Eres. apply Hfull. subst res. destruct r5; reflexivity.
      * apply Hdrain; subst res; reflexivity.
    + subst res. cbn [fst snd].
      destruct Hstop3 as (evs & Hl & Hf). exists evs.
      split; [exact Hl | split; [exact Hf | ]].
      intros H3. destruct (Hp3 H3) as [H1 | [[v0 Hv0] _]];
        [left; exact H1 | discriminate].
  - (* setUp failed *)
    cbv zeta.
    match goal with
    | |- context [_deferRunCleanups self ?w2] =>
        assert (H2 : exists evs2,
                  log w2 = log w1 ++ evs2 /\
                  Forall (fun c => c <> addSuccess) evs2 /\
                  _passed w2 = _passed w1);
        [ | destruct (deferRunCleanups_frame self w2)
              as (w3 & r3 & tr3 & evs3 & E3 & _ & _ & Hl3 & Hf3 & Hp3 & _) ]
    end.
    { destruct (isinstance e SkipTest); [ | destruct (isinstance e KeyboardInterrupt)];
        eexists; simpl; (split; [try reflexivity | split; [ | reflexivity]]).
      - constructor; [discriminate | constructor].
      - rewrite <- app_assoc. reflexivity.
      - constructor; [discriminate | constructor; [discriminate | constructor]].
      - constructor; [discriminate | constructor]. }
    destruct H2 as (evs2 & Hl2 & Hf2 & Hp2).
    apply Forall_error_report_not_success in Hf3.
    rewrite E3.
    exists (phase_reports self (setUp self) "setUp"%string ++ evs2 ++ evs3).
    assert (Hfst : fst (match r3 with
                        | Ret _ => (w3, Ret tt)
                        | Raise e' => (w3, Raise e')
                        | Hang => (w3, Hang)
                        end) = w3) by (destruct r3; reflexivity).
    rewrite Hfst, Hl3, Hl2, Hl1, <- !app_assoc.
    split; [reflexivity | split; [repeat (apply Forall_app; split); auto | ]].
    intros H3. left. rewrite <- Hp1, <- Hp2.
    match goal with
    | |- ?x = true =>
        destruct x; [reflexivity | rewrite (Hp3 eq_refl) in H3; discriminate]
    end.
  - (* setUp never resumes the coroutine *)
    exists (phase_reports self (setUp self) "setUp"%string).
    cbn [fst]. split; [exact Hl1 | split; [exact Hf1 | ]].
    intros H. left. congruence.
Qed.

(** X9.  What a run reports is: reports that are no [addSuccess]; then at
    most one [addSuccess], from [_cleanUp]; then nothing, or the one error
    of the class cleanup.  When [_passed] is not set at the start,
    [addSuccess] is reported only if the awaits of setUp and of the test
    method returned (with a result, or with a [StopIteration] held by a
    Deferred that had its result when it was awaited), there is no todo
    annotation, the janitor found the reactor clean and no error was
    logged. *)
Theorem success_is_earned self s w :
  exists before verdict after,
    log (fst (_runFixturesAndTest self s w)) =
      log w ++ before ++ verdict ++ after /\
    Forall (fun c => c <> addSuccess) before /\
    (verdict = [] \/ verdict = [addSuccess]) /\
    (after = [] \/
     exists e, postClassCleanup self = Some e /\ after = [addError e]) /\
    (_passed w = false -> verdict = [addSuccess] ->
     (exists v, phase_result self (setUp self) "setUp" = Ret v) /\
     (exists v, phase_result self (testMethod self) (_testMethodName self) = Ret v) /\
     getTodo self = None /\
     janitor_returns (postCaseCleanup self) = Ret true /\
     getErrors self = []).
Proof.
  rewrite runFixturesAndTest_eq.
  destruct (deferSetUp_verdict self (set_timedOut false w))
    as (evs1 & Hl1 & Hf1 & Hp1).
  simpl in Hl1, Hp1.
  set (w1 := fst (_deferSetUp self (set_timedOut false w))) in *.
  set (d := coroutine_deferred (set_timedOut false w) w1
              (snd (_deferSetUp self (set_timedOut false w)))).
  destruct (wait_frame self s d w1) as (Hl2 & Hp2 & _).
  set (w2 := fst (_wait self s d w1)) in *.
  assert (Hstop : exists before verdict after,
            log w2 = log w ++ before ++ verdict ++ after /\
            Forall (fun c => c <> addSuccess) before /\
            (verdict = [] \/ verdict = [addSuccess]) /\
            (after = [] \/
     exists e, postClassCleanup self = Some e /\ after = [addError e]) /\
            (_passed w = false -> verdict = [addSuccess] ->
             (exists v, phase_result self (setUp self) "setUp" = Ret v) /\
             (exists v, phase_result self (testMethod self) (_testMethodName self)
                        = Ret v) /\
             getTodo self = None /\
             janitor_returns (postCaseCleanup self) = Ret true /\
             getErrors self = [])).
  { exists evs1, [], []. rewrite Hl2, Hl1, !app_nil_r.
    split; [reflexivity | split; [exact Hf1 | split; [auto | split; [auto | ]]]].
    discriminate. }
  destruct (cleanUp_spec self w2) as (w3 & _ & H3).
  assert (Hdone :
    (exists before verdict after,
       log (fst (_classCleanUp self w3)) = log w ++ before ++ verdict ++ after /\
       Forall (fun c => c <> addSuccess) before /\
       (verdict = [] \/ verdict = [addSuccess]) /\
       (after = [] \/
     exists e, postClassCleanup self = Some e /\ after = [addError e]) /\
       (_passed w = false -> verdict = [addSuccess] ->
        (exists v, phase_result self (setUp self) "setUp" = Ret v) /\
        (exists v, phase_result self (testMethod self) (_testMethodName self)
                   = Ret v) /\
        getTodo self = None /\
        janitor_returns (postCaseCleanup self) = Ret true /\
        getErrors self = [])) \/
    janitor_returns (postCaseCleanup self) = Hang).
  { destruct (janitor_returns (postCaseCleanup self)) as [clean | e | ] eqn:Ej;
      [ | | right; reflexivity]; left; destruct H3 as (_ & Hp3 & Hl3).
    - exists (evs1 ++ map addError
                (janitor_reports (postCaseCleanup self) ++ [] ++ getErrors self)),
        (if _passed w2 && (if clean then true else false) &&
            match getErrors self with [] => true | _ :: _ => false end
         then [addSuccess] else []),
        (match postClassCleanup self with Some e => [addError e] | None => [] end).
      rewrite classCleanUp_eq. cbn [fst].
      split.
      { destruct (postClassCleanup self); simpl; rewrite Hl3, Hl2, Hl1; list_eq. }
      split.
      { apply Forall_app; split; [exact Hf1 | ].
        apply Forall_forall. intros c Hc. apply in_map_iff in Hc.
        destruct Hc as (f & <- & _). discriminate. }
      split; [destruct (_ && _ && _); auto | ].
      split; [destruct (postClassCleanup self); eauto | ].
      intros Hw Hv.
      assert (E21 : _passed w2 = true -> _passed w1 = true) by congruence.
      destruct (_passed w2); [ | discriminate].
      destruct clean; [ | discriminate].
      destruct (getErrors self); [ | discriminate].
      destruct (Hp1 (E21 eq_refl)) as [H | (Hs & Ht & Htodo & _)];
        [congruence | auto].
    - exists (evs1 ++ map addError
                (janitor_reports (postCaseCleanup self) ++ [e] ++ getErrors self)),
        [],
        (match postClassCleanup self with Some e => [addError e] | None => [] end).
      rewrite classCleanUp_eq. cbn [fst].
      rewrite andb_false_r in Hl3. simpl andb in Hl3. cbv iota in Hl3.
      split.
      { destruct (postClassCleanup self); simpl; rewrite Hl3, Hl2, Hl1; list_eq. }
      split.
      { apply Forall_app; split; [exact Hf1 | ].
        apply Forall_forall. intros c Hc. apply in_map_iff in Hc.
        destruct Hc as (f & <- & _). discriminate. }
      split; [auto | ].
      split; [destruct (postClassCleanup self); eauto | ].
      discriminate. }
  destruct (snd (_wait self s d w1)) as [[] | e | ]; [ | | exact Hstop].
  - destruct (janitor_returns (postCaseCleanup self)) as [clean | e | ] eqn:Ej.
    + destruct H3 as (E3 & _). rewrite E3. cbn [fst snd].
      destruct Hdone as [Hdone | Hdone]; [exact Hdone | discriminate].
    + destruct H3 as (E3 & _). rewrite E3. cbn [fst snd].
      destruct Hdone as [Hdone | Hdone]; [exact Hdone | discriminate].
    + destruct H3 as (E3 & _ & Hl3). rewrite E3. cbn [fst snd].
      exists (evs1 ++ map addError (janitor_reports (postCaseCleanup self))), [], [].
      rewrite Hl3, Hl2, Hl1, !app_nil_r, app_assoc.
      split; [reflexivity | split].
      { apply Forall_app; split; [exact Hf1 | ].
        apply Forall_forall. intros c Hc. apply in_map_iff in Hc.
        destruct Hc as (f & <- & _). discriminate. }
      split; [auto | split; [auto | discriminate]].
  - destruct (janitor_returns (postCaseCleanup self)) as [clean | e' | ] eqn:Ej.
    + destruct H3 as (E3 & _). rewrite E3. cbn [fst snd].
      destruct Hdone as [Hdone | Hdone]; [exact Hdone | discriminate].
    + destruct H3 as (E3 & _). rewrite E3. cbn [fst snd].
      destruct Hdone as [Hdone | Hdone]; [exact Hdone | discriminate].
    + destruct H3 as (E3 & _ & Hl3). rewrite E3. cbn [fst snd].
      exists (evs1 ++ map addError (janitor_reports (postCaseCleanup self))), [], [].
      rewrite Hl3, Hl2, Hl1, !app_nil_r, app_assoc.
      split; [reflexivity | split].
      { apply Forall_app; split; [exact Hf1 | ].
        apply Forall_forall. intros c Hc. apply in_map_iff in Hc.
        destruct Hc as (f & <- & _). discriminate. }
      split; [auto | split; [auto | discriminate]].
Qed.


(** ** The timeout call *)

Lemma active_eq call w : active call w = (w, Ret (PyBool (is_active call w))).
Proof. reflexivity. Qed.

Lemma idle_iff w : idle w <-> forall call, is_active call w = false.
Proof.
  unfold idle. split; intros H call; specialize (H call);
    rewrite active_eq in *; simpl in *; congruence.
Qed.

Lemma calmer_refl w : calmer w w.
Proof. intros call H. exact H. Qed.

Lemma calmer_trans w1 w2 w3 : calmer w1 w2 -> calmer w2 w3 -> calmer w1 w3.
Proof. intros H12 H23 call H. auto. Qed.

Lemma calmer_same w w' : delayedCalls w' = delayedCalls w -> calmer w w'.
Proof. intros E call. unfold is_active. rewrite E. auto. Qed.

Lemma calmer_idle w w' : calmer w w' -> idle w -> idle w'.
Proof.
  rewrite !idle_iff. intros Hc Hi call.
  destruct (is_active call w') eqn:E; [ | reflexivity].
  apply Hc in E. congruence.
Qed.

Lemma nth_error_update_nth {A} (f : A -> A) (l : list A) : forall n i,
  nth_error (update_nth n f l) i =
    if Nat.eqb i n then option_map f (nth_error l i) else nth_error l i.
Proof.
  induction l as [ | x t IH]; intros n i.
  - destruct n; destruct i; simpl; try reflexivity.
    destruct (Nat.eqb i n); reflexivity.
  - destruct n as [ | n]; destruct i as [ | i]; simpl; try reflexivity.
    apply IH.
Qed.

(** The continuation cancels its call and no other. *)
Lemma cancelTimeout_calls call x w :
  calmer w (fst (cancelTimeout call x w)) /\
  is_active call (fst (cancelTimeout call x w)) = false.
Proof.
  unfold cancelTimeout. rewrite (bind_Ret _ _ _ _ _ (active_eq call w)).
  destruct (is_active call w) eqn:Ea; simpl.
  - unfold is_active in Ea. unfold bind, cancel, ret.
    destruct (nth_error (delayedCalls w) call) as [c | ] eqn:E; [ | discriminate].
    destruct (dc_cancelled c) eqn:Ec; [discriminate | ].
    destruct (dc_called c) eqn:Ed; [discriminate | ]. simpl.
    split.
    + intros i. unfold is_active. simpl. rewrite nth_error_update_nth.
      destruct (Nat.eqb_spec i call) as [-> | Hne]; [ | auto].
      rewrite E. simpl. rewrite Ec, Ed. auto.
    + unfold is_active. simpl. rewrite nth_error_update_nth, Nat.eqb_refl, E.
      reflexivity.
  - unfold bind, ret. simpl. split; [apply calmer_refl | exact Ea].
Qed.

Lemma runCallbacks_from_calls cbs : forall o w,
  calmer w (fst (_runCallbacks_from cbs o w)) /\
  forall call, In (CancelTimeout call) cbs ->
    is_active call (fst (_runCallbacks_from cbs o w)) = false.
Proof.
  induction cbs as [ | [f | k] rest IH]; intros o w; simpl.
  - split; [apply calmer_refl | contradiction].
  - destruct (IH (f o) w) as [Hc Hk]. split; [exact Hc | ].
    intros call [Hin | Hin]; [discriminate | auto].
  - destruct (cancelTimeout_calls k o w) as [Hc1 Hk1].
    pose proof (cancelTimeout_result k o w) as Hr.
    destruct (cancelTimeout k o w) as [w1 r]. simpl in *. subst r.
    destruct (IH o w1) as [Hc Hk]. split.
    + eapply calmer_trans; eassumption.
    + intros call [Hin | Hin]; [ | auto].
      injection Hin as <-.
      destruct (is_active k (fst (_runCallbacks_from rest o w1))) eqn:E;
        [ | reflexivity].
      apply Hc in E. congruence.
Qed.

Lemma runCallbacks_calls d w :
  calmer w (fst (_runCallbacks d w)) /\
  (d_called d && negb (d_paused d) = true ->
   forall call, In (CancelTimeout call) (d_callbacks d) ->
     is_active call (fst (_runCallbacks d w)) = false).
Proof.
  unfold _runCallbacks.
  destruct (d_called d && negb (d_paused d)).
  - destruct (runCallbacks_from_calls (d_callbacks d) (d_result d) w) as [Hc Hk].
    destruct (_runCallbacks_from (d_callbacks d) (d_result d) w) as [w' r].
    simpl in *. auto.
  - simpl. split; [apply calmer_refl | discriminate].
Qed.

Lemma runCallbacks_result d w :
  exists d', snd (_runCallbacks d w) = Ret d' /\
    (d_called d && negb (d_paused d) = false -> d' = d) /\
    (d_called d && negb (d_paused d) = true -> d_callbacks d' = []).
Proof.
  unfold _runCallbacks.
  destruct (d_called d && negb (d_paused d)).
  - destruct (_runCallbacks_from (d_callbacks d) (d_result d) w) as [w' r].
    eexists. split; [reflexivity | ]. split; [discriminate | reflexivity].
  - exists d. split; [reflexivity | ]. split; [reflexivity | discriminate].
Qed.

Lemma runCallbacks_result_ret d w : exists d', snd (_runCallbacks d w) = Ret d'.
Proof. destruct (runCallbacks_result d w) as (d' & E & _). eauto. Qed.

Lemma settled_callbacks d o : settled d = Some o -> d_callbacks d = [].
Proof. unfold settled. destruct (d_callbacks d); [reflexivity | discriminate]. Qed.

(** A chain that has come to its end has run the continuation that cancels
    the call. *)
Lemma runCallbacks_settles d w call :
  In (CancelTimeout call) (d_callbacks d) ->
  forall d', snd (_runCallbacks d w) = Ret d' -> settled d' <> None ->
  is_active call (fst (_runCallbacks d w)) = false.
Proof.
  intros Hin d' Hd' Hs.
  destruct (runCallbacks_calls d w) as [_ Hk].
  destruct (runCallbacks_result d w) as (d'' & E & Hsame & _).
  rewrite Hd' in E. injection E as <-.
  destruct (d_called d && negb (d_paused d)) eqn:Er; [auto | ].
  rewrite (Hsame eq_refl) in Hs.
  destruct (settled d) as [o | ] eqn:Es; [ | congruence].
  apply settled_callbacks in Es. rewrite Es in Hin. contradiction.
Qed.

Lemma fire_calmer d o w : calmer w (fst (fire d o w)).
Proof.
  unfold fire. destruct (d_called d); [apply calmer_refl | ].
  apply runCallbacks_calls.
Qed.

Lemma deliver_calmer d o w : calmer w (fst (deliver d o w)).
Proof.
  unfold deliver, resume. destruct (d_called d); [ | apply fire_calmer].
  apply runCallbacks_calls.
Qed.

Lemma deliver_settles d o w call :
  In (CancelTimeout call) (d_callbacks d) ->
  forall d', snd (deliver d o w) = Ret d' -> settled d' <> None ->
  is_active call (fst (deliver d o w)) = false.
Proof.
  unfold deliver, resume, fire. intros Hin d' Hd' Hs.
  destruct (d_called d).
  - eapply runCallbacks_settles; [ | exact Hd' | exact Hs]. exact Hin.
  - eapply runCallbacks_settles; [ | exact Hd' | exact Hs]. exact Hin.
Qed.

Lemma onTimeout_calmer self funcDescription timeout d w :
  calmer w (fst (onTimeout self funcDescription timeout d w)).
Proof.
  unfold onTimeout, try_except, errback.
  pose proof (fire_calmer d
                (Failed (mkExn [TimeoutError; Exception]
                               (StillRunning funcDescription timeout))) w) as Hf.
  destruct (fire d _ w) as [w1 [d1 | err | ]]; simpl in *; try exact Hf.
  destruct (isinstance err AlreadyCalledError); [ | exact Hf].
  eapply calmer_trans; [exact Hf | ].
  unfold bind, exec, ret.
  destruct (getTodo self) as [t | ]; [destruct (expected t _) | ];
    apply calmer_same; reflexivity.
Qed.

(** Once the reactor has been through a delayed call, it is not active. *)
Lemma runDelayedCall_calls self call d w :
  calmer w (fst (runDelayedCall self call d w)) /\
  is_active call (fst (runDelayedCall self call d w)) = false.
Proof.
  unfold runDelayedCall.
  destruct (nth_error (delayedCalls w) call) as [c | ] eqn:E.
  - destruct (negb (dc_cancelled c || dc_called c)) eqn:Ea.
    + match goal with
      | |- context [onTimeout self ?fd ?t d ?w1] =>
          pose proof (onTimeout_calmer self fd t d w1) as Ho;
          assert (H1 : calmer w w1);
          [ | assert (H2 : is_active call w1 = false) ]
      end.
      * intros i. unfold is_active. simpl. rewrite nth_error_update_nth.
        destruct (Nat.eqb_spec i call) as [-> | Hne]; [ | auto].
        rewrite E. simpl. rewrite orb_true_r. discriminate.
      * unfold is_active. simpl. rewrite nth_error_update_nth, Nat.eqb_refl, E.
        simpl. rewrite orb_true_r. reflexivity.
      * split; [eapply calmer_trans; eassumption | ].
        match goal with
        | |- ?x = false => destruct x eqn:Ex; [ | reflexivity]
        end.
        apply Ho in Ex. congruence.
    + simpl. split; [apply calmer_refl | ].
      unfold is_active. rewrite E. exact Ea.
  - simpl. split; [apply calmer_refl | ].
    unfold is_active. rewrite E. reflexivity.
Qed.

Lemma result_of_same o w : fst (result_of o w) = w.
Proof.
  destruct o as [v | e]; [reflexivity | ].
  unfold result_of. destruct (isinstance e StopIteration); reflexivity.
Qed.

Lemma result_of_returns o w : snd (result_of o w) <> Hang.
Proof.
  destruct o as [v | e]; [discriminate | ].
  unfold result_of. destruct (isinstance e StopIteration); discriminate.
Qed.

Lemma resumed_with_same o w : fst (resumed_with o w) = w.
Proof. destruct o; reflexivity. Qed.

Lemma resumed_with_returns o w : snd (resumed_with o w) <> Hang.
Proof. destruct o; discriminate. Qed.

(** An await and a yield end in the same world, and one leaves its
    caller suspended for ever exactly when the other does. *)
Lemma await_run_fst self func funcDescription w :
  fst (await_run self func funcDescription w) =
  fst (yield_run self func funcDescription w).
Proof.
  rewrite await_run_yield_run.
  destruct (yield_run self func funcDescription w); reflexivity.
Qed.

Lemma await_run_hang self func funcDescription w :
  snd (await_run self func funcDescription w) = Hang <->
  snd (yield_run self func funcDescription w) = Hang.
Proof.
  rewrite await_run_yield_run.
  destruct (yield_run self func funcDescription w) as [w' [v | e | ]]; simpl;
    [split; discriminate | | split; reflexivity].
  destruct (_ && isinstance e StopIteration); split; discriminate.
Qed.

(** The wait on the Deferred of [_run], which ends with the continuation
    that cancels the call: no call becomes active, and the call is not
    active when the coroutine is resumed. *)
Lemma suspend_calls self later d call w :
  In (CancelTimeout call) (d_callbacks d) ->
  calmer w (fst (suspend self later (d, Some call) w)) /\
  (snd (suspend self later (d, Some call) w) <> Hang ->
   is_active call (fst (suspend self later (d, Some call) w)) = false).
Proof.
  intros Hin. unfold suspend, bind, exec.
  set (w0 := suspension w).
  assert (H0 : calmer w w0) by (apply calmer_same; reflexivity).
  clearbody w0.
  assert (Hend : forall d1 w1,
            calmer w w1 ->
            (settled d1 <> None -> is_active call w1 = false) ->
            let m :=
              match settled d1 with
              | Some o => resumed_with o
              | None =>
                  fun w =>
                    match runDelayedCall self call d1 w with
                    | (w', Ret d2) =>
                        match settled d2 with
                        | Some o => resumed_with o
                        | None => hang
                        end w'
                    | (w', Raise e) => (w', Raise e)
                    | (w', Hang) => (w', Hang)
                    end
              end in
            calmer w (fst (m w1)) /\
            (snd (m w1) <> Hang -> is_active call (fst (m w1)) = false)).
  { intros d1 w1 Hc1 Hk1 m. subst m.
    destruct (settled d1) as [o' | ].
    - rewrite resumed_with_same. split; [exact Hc1 | ].
      intros _. apply Hk1. discriminate.
    - destruct (runDelayedCall_calls self call d1 w1) as [Hc2 Hk2].
      destruct (runDelayedCall self call d1 w1) as [w2 [d2 | e | ]]; simpl in *;
        try (split; [eapply calmer_trans; eassumption | intros _; exact Hk2]).
      destruct (settled d2) as [o' | ].
      + rewrite resumed_with_same.
        split; [eapply calmer_trans; eassumption | intros _; exact Hk2].
      + simpl. split; [eapply calmer_trans; eassumption | intros _; exact Hk2]. }
  destruct later as [o | ].
  - pose proof (deliver_calmer d o w0) as Hc.
    pose proof (deliver_settles d o w0 call Hin) as Hk.
    assert (Hret : exists d', snd (deliver d o w0) = Ret d').
    { unfold deliver, resume, fire.
      destruct (d_called d); apply runCallbacks_result_ret. }
    destruct Hret as (d' & Hd').
    destruct (deliver d o w0) as [w1 r]. simpl in *. subst r.
    apply Hend; [eapply calmer_trans; eassumption | ].
    intros Hs. apply (Hk d' eq_refl Hs).
  - unfold ret. apply Hend; [exact H0 | ].
    intros Hs. destruct (settled d) as [o | ] eqn:Es; [ | congruence].
    apply settled_callbacks in Es. rewrite Es in Hin. contradiction.
Qed.

Lemma await_calls self later d call w :
  In (CancelTimeout call) (d_callbacks d) ->
  calmer w (fst (await self later (d, Some call) w)) /\
  (snd (await self later (d, Some call) w) <> Hang ->
   is_active call (fst (await self later (d, Some call) w)) = false).
Proof.
  intros Hin. unfold await. simpl.
  destruct (settled d) as [o | ] eqn:Es.
  { apply settled_callbacks in Es. rewrite Es in Hin. contradiction. }
  apply suspend_calls. exact Hin.
Qed.

Lemma is_active_callLater timeout funcDescription w i :
  is_active i (fst (callLater timeout funcDescription w)) =
    is_active i w || Nat.eqb i (List.length (delayedCalls w)).
Proof.
  unfold is_active, callLater. simpl.
  destruct (Nat.lt_trichotomy i (List.length (delayedCalls w))) as [Hlt | [-> | Hgt]].
  - rewrite nth_error_app1 by exact Hlt.
    destruct (Nat.eqb_spec i (List.length (delayedCalls w))); [lia | ].
    rewrite orb_false_r. reflexivity.
  - rewrite nth_error_last, Nat.eqb_refl, orb_true_r. reflexivity.
  - rewrite nth_error_app2 by lia.
    destruct (i - List.length (delayedCalls w)) as [ | k] eqn:Ek; [lia | ].
    simpl. destruct k; simpl;
      rewrite (proj2 (nth_error_None (delayedCalls w) i)) by lia;
      destruct (Nat.eqb_spec i (List.length (delayedCalls w))); try lia;
      reflexivity.
Qed.

Lemma guarded_await_eq self funcDescription timeout d later w :
  let call := List.length (delayedCalls w) in
  let w1 := fst (callLater timeout funcDescription w) in
  let d0 := mkDeferred (d_called d) (d_paused d) (d_result d)
                       (d_callbacks d ++ [CancelTimeout call]) in
  guarded_await self funcDescription timeout d later w =
    await self later
      (match snd (_runCallbacks d0 w1) with Ret d' => d' | _ => d0 end, Some call)
      (fst (_runCallbacks d0 w1)).
Proof.
  intros call w1 d0. unfold guarded_await, bind, callLater, addBoth. simpl.
  fold call. fold d0.
  destruct (runCallbacks_result_ret d0 w1) as (d' & Hd').
  subst w1. unfold callLater in Hd'. simpl in Hd'. fold call in Hd'.
  destruct (_runCallbacks d0 _) as [w2 r]. simpl in *. subst r. reflexivity.
Qed.

(** A phase leaves no delayed call behind when the coroutine is resumed:
    its timeout call has been cancelled, or has run. *)
Lemma guarded_await_tidy self funcDescription timeout d later :
  tidy (guarded_await self funcDescription timeout d later).
Proof.
  intros w Hidle. rewrite guarded_await_eq. cbv zeta.
  set (call := List.length (delayedCalls w)).
  set (w1 := fst (callLater timeout funcDescription w)).
  set (d0 := mkDeferred (d_called d) (d_paused d) (d_result d)
                        (d_callbacks d ++ [CancelTimeout call])).
  assert (Hin : In (CancelTimeout call) (d_callbacks d0)).
  { simpl. apply in_or_app. right. left. reflexivity. }
  assert (H1 : forall i, i <> call -> is_active i w1 = false).
  { intros i Hi. subst w1. rewrite is_active_callLater.
    rewrite idle_iff in Hidle. rewrite Hidle.
    destruct (Nat.eqb_spec i (List.length (delayedCalls w))); [contradiction | ].
    reflexivity. }
  destruct (runCallbacks_calls d0 w1) as [Hc2 Hk2].
  destruct (runCallbacks_result d0 w1) as (d' & Hd' & Hsame & Hdone).
  rewrite Hd'.
  set (w2 := fst (_runCallbacks d0 w1)) in *.
  assert (Hfinal : forall w3,
            calmer w2 w3 -> is_active call w3 = false -> idle w3).
  { intros w3 Hc3 Hk3. apply idle_iff. intros i.
    destruct (Nat.eq_dec i call) as [-> | Hne]; [exact Hk3 | ].
    destruct (is_active i w3) eqn:E; [ | reflexivity].
    apply Hc3, Hc2 in E. rewrite H1 in E by exact Hne. discriminate. }
  destruct (d_called d0 && negb (d_paused d0)) eqn:Er.
  - (* the chain has run already *)
    intros _. unfold await.
    destruct (runCallbacks_ready d0 w1 Er) as (w2' & E2 & _).
    assert (Ed' : d' = mkDeferred true false (chain (d_callbacks d0) (d_result d0)) []).
    { rewrite E2 in Hd'. cbn [snd] in Hd'. congruence. }
    rewrite Ed'. simpl. rewrite result_of_same.
    apply Hfinal; [apply calmer_refl | ].
    apply Hk2; [reflexivity | exact Hin].
  - rewrite (Hsame eq_refl).
    destruct (await_calls self later d0 call w2 Hin) as [Hc3 Hk3].
    intros Hnh. apply Hfinal; auto.
Qed.

Lemma await_run_tidy self func funcDescription :
  tidy (await_run self func funcDescription).
Proof.
  intros w Hidle. rewrite await_run_unfold.
  set (w0 := if getTimeout_warns self then warn timeout_warning w else w).
  assert (H0 : idle w0).
  { subst w0. destruct (getTimeout_warns self); [ | exact Hidle].
    eapply calmer_idle; [ | exact Hidle]. apply calmer_same. reflexivity. }
  destruct (getTimeout_value self) as [timeout | e | ]; simpl; auto.
  destruct (isgeneratorfunction func); simpl; auto.
  apply guarded_await_tidy.
  eapply calmer_idle; [ | exact H0]. apply calmer_same. reflexivity.
Qed.

Lemma yield_run_tidy self func funcDescription :
  tidy (yield_run self func funcDescription).
Proof.
  intros w Hidle Hnh. rewrite <- await_run_fst.
  apply await_run_tidy; [exact Hidle | ].
  intros H. apply Hnh. apply await_run_hang. exact H.
Qed.

Lemma tidy_ret {A} (a : A) : tidy (ret a).
Proof. intros w H _. exact H. Qed.

Lemma tidy_raise {A} (e : Exn) : tidy (@raise A e).
Proof. intros w H _. exact H. Qed.

Lemma tidy_exec (f : World -> World) :
  (forall w, delayedCalls (f w) = delayedCalls w) -> tidy (exec f).
Proof.
  intros Hf w H _. simpl. eapply calmer_idle; [ | exact H].
  apply calmer_same. apply Hf.
Qed.

Lemma tidy_bind {A B} (m : M A) (k : A -> M B) :
  tidy m -> (forall a, tidy (k a)) -> tidy (bind m k).
Proof.
  intros Hm Hk w H. specialize (Hm w H). unfold bind.
  destruct (m w) as [w1 [a | e | ]]; simpl in *.
  - apply Hk. apply Hm. discriminate.
  - intros _. apply Hm. discriminate.
  - congruence.
Qed.

Lemma tidy_try_except {A} (m : M A) (h : Exn -> M A) :
  tidy m -> (forall e, tidy (h e)) -> tidy (try_except m h).
Proof.
  intros Hm Hh w H. specialize (Hm w H). unfold try_except.
  destruct (m w) as [w1 [a | e | ]]; simpl in *.
  - intros _. apply Hm. discriminate.
  - apply Hh. apply Hm. discriminate.
  - congruence.
Qed.

Lemma tidy_try_finally {A} (m : M A) (fin : M unit) :
  tidy m -> tidy fin -> tidy (try_finally m fin).
Proof.
  intros Hm Hfin w H. specialize (Hm w H).
  rewrite (try_finally_eq _ _ _ _ _ (surjective_pairing _)).
  destruct (snd (m w)) as [a | e | ]; simpl; try congruence;
    intros Hnh; apply Hfin; try (apply Hm; discriminate);
    destruct (snd (fin (fst (m w)))); congruence.
Qed.

Lemma tidy_for_each {A} (l : list A) (body : A -> M unit) :
  (forall x, tidy (body x)) -> tidy (for_each l body).
Proof.
  intros H. induction l as [ | x t IH]; simpl.
  - apply tidy_ret.
  - apply tidy_bind; auto.
Qed.

Ltac tidy_steps :=
  repeat first
    [ apply tidy_ret
    | apply tidy_raise
    | apply tidy_exec; reflexivity
    | apply await_run_tidy
    | apply yield_run_tidy
    | apply tidy_bind; [ | intros ? ]
    | apply tidy_try_except; [ | intros ? ]
    | apply tidy_for_each; intros ?
    | match goal with
      | |- tidy (if ?b then _ else _) => destruct b
      | |- tidy (match ?x with _ => _ end) => destruct x
      end ].

Lemma cleanup_turn_tidy self a : tidy (cleanup_turn self a).
Proof. unfold cleanup_turn. tidy_steps. Qed.

Lemma while_tidy self fuel : forall failures,
  tidy (_deferRunCleanups_while self fuel failures).
Proof.
  induction fuel as [ | fuel IH]; intros failures w Hidle.
  - simpl. destruct (pop (_cleanups w)) as [[rest a] | ]; simpl; [congruence | auto].
  - destruct (pop (_cleanups w)) as [[rest a] | ] eqn:Hpop.
    + rewrite (while_unfold_turn self fuel failures w rest a Hpop).
      assert (H0 : idle (set_cleanups rest w)).
      { eapply calmer_idle; [ | exact Hidle]. apply calmer_same. reflexivity. }
      pose proof (cleanup_turn_tidy self a _ H0) as H1.
      destruct (cleanup_turn self a (set_cleanups rest w)) as [w1 [v | e | ]];
        simpl in *.
      * apply IH. apply H1. discriminate.
      * destruct (isinstance e Exception).
        -- apply IH. apply H1. discriminate.
        -- intros _. apply H1. discriminate.
      * congruence.
    + rewrite while_unfold_empty by exact Hpop. auto.
Qed.

Lemma deferRunCleanups_tidy self : tidy (_deferRunCleanups self).
Proof.
  unfold _deferRunCleanups.
  apply tidy_bind; [apply tidy_exec; reflexivity | intros _].
  apply tidy_bind.
  - intros w Hidle. apply while_tidy. exact Hidle.
  - intros failures. tidy_steps.
Qed.

Lemma deferTearDown_tidy self : tidy (_deferTearDown self).
Proof. unfold _deferTearDown. tidy_steps. Qed.

Lemma deferSetUp_testMethod_tidy self : tidy (_deferSetUp_testMethod self).
Proof. unfold _deferSetUp_testMethod, _ebDeferTestMethod. tidy_steps. Qed.

(** X11.  When the coroutine of the fixtures comes to its end, by a return
    or by an exception, none of the timeout calls it scheduled is left
    pending in the reactor: each has been cancelled by the continuation
    [_run] attached, or has run.  (Stated for a start with no pending
    delayed call; none is ever made active again.) *)
Theorem deferSetUp_leaves_no_timeout self w :
  idle w ->
  snd (_deferSetUp self w) <> Hang ->
  idle (fst (_deferSetUp self w)).
Proof.
  revert w. change (tidy (_deferSetUp self)).
  unfold _deferSetUp.
  apply tidy_bind; [apply tidy_exec; reflexivity | intros _].
  apply tidy_bind.
  - apply tidy_try_except.
    + tidy_steps.
    + intros e.
      destruct (isinstance e SkipTest); [ | destruct (isinstance e KeyboardInterrupt)];
        repeat first
          [ apply deferRunCleanups_tidy
          | apply tidy_ret
          | apply tidy_exec; reflexivity
          | apply tidy_bind; [ | intros _] ].
  - intros [ | ]; [ | apply tidy_ret].
    apply tidy_try_finally; [ | apply deferTearDown_tidy].
    apply tidy_try_finally; [ | apply deferRunCleanups_tidy].
    apply tidy_bind; [apply tidy_exec; reflexivity | intros _].
    apply deferSetUp_testMethod_tidy.
Qed.

(** X12.  When the function returns a Deferred that has not fired, [_run]
    schedules one delayed call at the timeout and appends to the Deferred
    the continuation that cancels it.  If nothing fires the Deferred before
    the timeout, it is errbacked with a [TimeoutError] that names the phase
    and the timeout, through the callbacks the function had attached: the
    phase fails with the timeout failure unless they handle it, and with it
    exactly when there are none.  Nothing is reported, the reactor is not
    crashed and [_timedOut] is not set on this path. *)
Theorem run_times_out self func funcDescription d timeout w :
  snd (getTimeout self w) = Ret timeout ->
  isgeneratorfunction func = false ->
  behaves func = ReturnsDeferred d None ->
  d_called d = false ->
  d_paused d = false ->
  let f := timeoutFailure funcDescription timeout in
  let call := List.length (delayedCalls w) in
  exists w1 w',
    _run self func funcDescription w =
      (w1, Ret (mkDeferred false false (d_result d)
                  (d_callbacks d ++ [CancelTimeout call]), Some call)) /\
    nth_error (delayedCalls w1) call =
      Some (mkDelayedCall timeout funcDescription false false) /\
    await_run self func funcDescription w =
      (w', match chain (d_callbacks d) (Failed f) with
           | Success v => Ret v
           | Failed e => Raise e
           end) /\
    (d_callbacks d = [] -> snd (await_run self func funcDescription w) = Raise f) /\
    log w' = log w /\
    _timedOut w' = _timedOut w /\
    crashes w' = crashes w.
Proof.
  intros Hto Hgen Hb Hcalled Hpaused f call.
  rewrite getTimeout_eq in Hto. simpl in Hto.
  set (w0 := if getTimeout_warns self then warn timeout_warning w else w).
  assert (Hcalls : delayedCalls w0 = delayedCalls w).
  { subst w0. destruct (getTimeout_warns self); reflexivity. }
  destruct (await_run_spec self func funcDescription w)
    as (w' & E & _ & _ & Hl & _ & _ & Ho & Hx).
  assert (Hres : phase_result self func funcDescription =
                 match chain (d_callbacks d) (Failed f) with
                 | Success v => Ret v
                 | Failed e => Raise e
                 end).
  { rewrite phase_result_yield_result. unfold yield_result, invoked.
    rewrite Hto, Hgen, Hb. simpl. rewrite Hcalled, Hpaused. simpl.
    fold f. destruct (chain (d_callbacks d) (Failed f)); reflexivity. }
  assert (Hrep : phase_reports self func funcDescription = []).
  { unfold phase_reports. rewrite Hto, Hgen, Hb. simpl.
    rewrite Hcalled. reflexivity. }
  assert (Hst : phase_stalls self func = false).
  { unfold phase_stalls. rewrite Hb. simpl. rewrite Hcalled.
    apply andb_false_r. }
  rewrite Hres in E. rewrite Hrep, app_nil_r in Hl. rewrite Hst in Ho, Hx.
  exists (set_delayedCalls
            (delayedCalls w0 ++ [mkDelayedCall timeout funcDescription false false])
            (set_cleanups (_cleanups w0 ++ registers func)
               (note (Call funcDescription func) w0))),
    w'.
  split.
  { unfold _run, bind. rewrite getTimeout_eq.
    fold w0. rewrite Hto, Hgen.
    unfold exec, maybeDeferred, bind, callLater, addBoth, ret. rewrite Hb.
    simpl. unfold _runCallbacks. simpl. rewrite Hcalled, Hpaused. simpl.
    subst call. rewrite Hcalls. reflexivity. }
  split.
  { simpl. subst call. rewrite <- Hcalls. apply nth_error_last. }
  split; [exact E | ].
  split; [ | auto].
  intros Hnone. rewrite E, Hnone. reflexivity.
Qed.

(** ** assertFailure *)

Lemma ExcClass_eqb_refl cls : ExcClass_eqb cls cls = true.
Proof. unfold ExcClass_eqb. destruct (ExcClass_eq_dec cls cls); congruence. Qed.

Lemma isinstance_instance cls args : isinstance (instance cls args) cls = true.
Proof.
  unfold isinstance, instance. simpl.
  destruct cls; try reflexivity; rewrite ExcClass_eqb_refl; reflexivity.
Qed.

Lemma runCallbacks_from_user f o w :
  _runCallbacks_from [User f] o w = (w, f o).
Proof. reflexivity. Qed.

Lemma assertFailure_eq self deferred expectedFailures w :
  assertFailure self deferred expectedFailures w =
    _runCallbacks
      (mkDeferred (d_called deferred) (d_paused deferred) (d_result deferred)
         (d_callbacks deferred ++ [User (asserted self expectedFailures)])) w.
Proof. reflexivity. Qed.

(** X13.  [assertFailure] returns the Deferred with one more step at the
    end of its chain, which turns the outcome around: a Failure of one of
    the expected classes becomes a result, the exception itself; a result,
    and a Failure of any other class, become a Failure that is an instance
    of [failureException].  With no expected class given every outcome
    becomes such a Failure.  On a Deferred that has its final result the
    step runs at once. *)
Theorem assertFailure_turns_outcome self deferred expectedFailures w :
  (forall v, exists f,
     asserted self expectedFailures (Success v) = Failed f /\
     isinstance f (failureException self) = true) /\
  (forall f, check f expectedFailures = true ->
     asserted self expectedFailures (Failed f) = Success (value f)) /\
  (forall f, check f expectedFailures = false ->
     exists f',
       asserted self expectedFailures (Failed f) = Failed f' /\
       isinstance f' (failureException self) = true) /\
  (forall o, exists f',
     asserted self [] o = Failed f' /\
     isinstance f' (failureException self) = true) /\
  (forall o, settled deferred = Some o ->
     assertFailure self deferred expectedFailures w =
       (w, Ret (mkDeferred true false (asserted self expectedFailures o) []))) /\
  (d_called deferred && negb (d_paused deferred) = false ->
   exists d',
     assertFailure self deferred expectedFailures w = (w, Ret d') /\
     d_called d' = d_called deferred /\
     d_paused d' = d_paused deferred /\
     forall o,
       chain (d_callbacks d') o =
       asserted self expectedFailures (chain (d_callbacks deferred) o)).
Proof.
  split; [ | split; [ | split; [ | split; [ | split]]]].
  - intros v. eexists. split; [reflexivity | apply isinstance_instance].
  - intros f Hc. unfold asserted, _eb. rewrite Hc. reflexivity.
  - intros f Hc. unfold asserted, _eb. rewrite Hc.
    eexists. split; [reflexivity | apply isinstance_instance].
  - intros [v | f]; simpl; unfold _cb, _eb; simpl;
      eexists; (split; [reflexivity | apply isinstance_instance]).
  - intros o Hs. rewrite assertFailure_eq.
    pose proof (settled_callbacks _ _ Hs) as Hcbs.
    unfold settled in Hs. rewrite Hcbs in Hs.
    destruct (d_called deferred && negb (d_paused deferred)) eqn:Er;
      [ | discriminate].
    injection Hs as <-.
    unfold _runCallbacks. simpl. rewrite Er, Hcbs. reflexivity.
  - intros Er. rewrite assertFailure_eq.
    rewrite runCallbacks_waiting by exact Er.
    eexists. split; [reflexivity | ]. simpl.
    split; [reflexivity | split; [reflexivity | ]].
    intros o. rewrite chain_app. reflexivity.
Qed.

Lemma phase_outcome_assertFailure self deferred expectedFailures later w0 f :
  exists d',
    snd (assertFailure self deferred expectedFailures w0) = Ret d' /\
    phase_outcome f (ReturnsDeferred d' later) =
      option_map (asserted self expectedFailures)
        (phase_outcome f (ReturnsDeferred deferred later)) /\
    d_called d' && negb (d_paused d') =
      d_called deferred && negb (d_paused deferred).
Proof.
  rewrite assertFailure_eq.
  destruct (d_called deferred && negb (d_paused deferred)) eqn:Er.
  - destruct (runCallbacks_ready
                (mkDeferred (d_called deferred) (d_paused deferred)
                   (d_result deferred)
                   (d_callbacks deferred ++ [User (asserted self expectedFailures)]))
                w0 Er) as (w1 & E & _).
    rewrite E. eexists. split; [reflexivity | ].
    simpl. rewrite Er, chain_app. split; reflexivity.
  - rewrite runCallbacks_waiting by exact Er.
    eexists. split; [reflexivity | ].
    simpl. rewrite Er. split; [ | reflexivity].
    destruct (d_paused deferred); destruct later as [o | ];
      destruct (d_called deferred); simpl; rewrite ?chain_app; reflexivity.
Qed.

(** X14.  A test method that returns [self.assertFailure(deferred, ...)],
    with no todo annotation: when its phase ends, the test is marked passed
    and nothing is reported if the Deferred came to fail with one of the
    expected classes; in every other case exactly one [addFailure] is
    reported, never an error or a skip.  The timeout counts as a failure of
    the Deferred: a test that expects [TimeoutError] passes by timing out.
    (One exception, stated with the rest: when [failureException] is itself
    a [StopIteration] class and the Deferred has its result when it is
    awaited, the failure ends the await like a result, and the test is
    marked passed.) *)
Theorem assertFailure_passes_or_fails self deferred expectedFailures later
    timeout w0 d' w :
  snd (assertFailure self deferred expectedFailures w0) = Ret d' ->
  behaves (testMethod self) = ReturnsDeferred d' later ->
  isgeneratorfunction (testMethod self) = false ->
  getTodo self = None ->
  snd (getTimeout self w) = Ret timeout ->
  let f := timeoutFailure (_testMethodName self) timeout in
  let w' := fst (_deferSetUp_testMethod self w) in
  match phase_outcome f (ReturnsDeferred deferred later) with
  | None => snd (_deferSetUp_testMethod self w) = Hang
  | Some o =>
      match asserted self expectedFailures o with
      | Success _ =>
          (exists e, o = Failed e /\ check e expectedFailures = true) /\
          snd (_deferSetUp_testMethod self w) = Ret tt /\
          log w' = log w /\
          _passed w' = true
      | Failed f' =>
          isinstance f' (failureException self) = true /\
          if d_called deferred && negb (d_paused deferred) &&
             isinstance f' StopIteration
          then
            snd (_deferSetUp_testMethod self w) = Ret tt /\
            log w' = log w /\
            _passed w' = true
          else
            snd (_deferSetUp_testMethod self w) = Raise f' /\
            log w' = log w ++ [addFailure f'] /\
            _passed w' = _passed w
      end
  end.
Proof.
  intros Hd' Hb Hgen Htodo Hto f w'. subst w'.
  rewrite getTimeout_eq in Hto. simpl in Hto.
  destruct (phase_outcome_assertFailure self deferred expectedFailures later w0 f)
    as (d'' & Hd'' & Hout & Hready).
  rewrite Hd' in Hd''. injection Hd'' as <-.
  pose proof (deferSetUp_testMethod_eq self w) as E.
  destruct (await_run_spec self (testMethod self) (_testMethodName self) w)
    as (w1 & E1 & _ & _ & Hl & Hp & _).
  rewrite E1 in E.
  pose proof (phase_reports_nil self (testMethod self) (_testMethodName self)) as Hnil.
  assert (Hres : phase_result self (testMethod self) (_testMethodName self) =
                 match option_map (asserted self expectedFailures)
                         (phase_outcome f (ReturnsDeferred deferred later)) with
                 | Some (Success v) => Ret v
                 | Some (Failed e) =>
                     if d_called deferred && negb (d_paused deferred) &&
                        isinstance e StopIteration
                     then Ret (stop_value e)
                     else Raise e
                 | None => Hang
                 end).
  { rewrite phase_result_yield_result. unfold yield_result, invoked.
    rewrite Hto, Hgen, Hb. fold f. rewrite Hout. simpl.
    rewrite negb_involutive, Hready.
    destruct (option_map _ _) as [[v | e] | ]; reflexivity. }
  rewrite Hres in E, Hnil.
  destruct (phase_outcome f (ReturnsDeferred deferred later)) as [o | ];
    simpl in E, Hnil; [ | rewrite E; reflexivity].
  assert (Hturn : forall v, asserted self expectedFailures o = Success v ->
                  exists e, o = Failed e /\ check e expectedFailures = true).
  { intros v Hv. destruct o as [v0 | e]; simpl in Hv; [discriminate | ].
    exists e. split; [reflexivity | ].
    unfold _eb in Hv. destruct (check e expectedFailures); [reflexivity | discriminate]. }
  assert (Hfail : forall f', asserted self expectedFailures o = Failed f' ->
                  isinstance f' (failureException self) = true).
  { intros f' Hf'. destruct o as [v0 | e]; simpl in Hf'.
    - injection Hf' as <-. apply isinstance_instance.
    - unfold _eb in Hf'. destruct (check e expectedFailures); [discriminate | ].
      injection Hf' as <-. apply isinstance_instance. }
  destruct (asserted self expectedFailures o) as [v | f'].
  - rewrite E. unfold classify. rewrite Htodo. simpl.
    rewrite Hnil, app_nil_r in Hl by discriminate.
    split; [eauto | auto].
  - specialize (Hfail f' eq_refl). split; [exact Hfail | ].
    destruct (d_called deferred && negb (d_paused deferred) &&
              isinstance f' StopIteration).
    + rewrite E. unfold classify. rewrite Htodo. simpl.
      rewrite Hnil, app_nil_r in Hl by discriminate. auto.
    + rewrite E.
      unfold classify, classify_unexpected, assertion_failure.
      rewrite Htodo, Hfail. simpl.
      rewrite Hnil, app_nil_r in Hl by discriminate.
      rewrite Hl, Hp. auto.
Qed.

(** ** The reactor methods a test must not use *)

Lemma dict_get_set_eq k v d : dict_get k (dict_set k v d) = Some v.
Proof.
  induction d as [ | [k' v'] rest IH]; simpl.
  - rewrite String.eqb_refl. reflexivity.
  - destruct (String.eqb k' k) eqn:E; simpl.
    + rewrite String.eqb_refl. reflexivity.
    + rewrite E. exact IH.
Qed.

Lemma dict_get_set_neq k k' v d :
  k <> k' -> dict_get k' (dict_set k v d) = dict_get k' d.
Proof.
  intros Hne. induction d as [ | [k0 v0] rest IH]; simpl.
  - destruct (String.eqb_spec k k'); [contradiction | reflexivity].
  - destruct (String.eqb_spec k0 k) as [-> | Hk]; simpl.
    + destruct (String.eqb_spec k k'); [contradiction | reflexivity].
    + destruct (String.eqb k0 k'); [reflexivity | exact IH].
Qed.

Lemma dict_set_set k v v' d : dict_set k v (dict_set k v' d) = dict_set k v d.
Proof.
  induction d as [ | [k0 v0] rest IH]; simpl.
  - rewrite String.eqb_refl. reflexivity.
  - destruct (String.eqb k0 k) eqn:E; simpl.
    + rewrite String.eqb_refl. reflexivity.
    + rewrite E, IH. reflexivity.
Qed.

Lemma dict_set_same k v d : dict_get k d = Some v -> dict_set k v d = d.
Proof.
  induction d as [ | [k0 v0] rest IH]; simpl; [discriminate | ].
  destruct (String.eqb_spec k0 k) as [-> | Hk].
  - intros H. injection H as ->. reflexivity.
  - intros H. rewrite IH by exact H. reflexivity.
Qed.

Lemma dict_set_comm k k' v v' d :
  k <> k' -> dict_get k d <> None ->
  dict_set k v (dict_set k' v' d) = dict_set k' v' (dict_set k v d).
Proof.
  intros Hne. induction d as [ | [k0 v0] rest IH]; simpl; [congruence | ].
  destruct (String.eqb_spec k0 k) as [-> | Hk].
  - intros _. destruct (String.eqb_spec k k'); [contradiction | ].
    simpl. rewrite String.eqb_refl.
    destruct (String.eqb_spec k k'); [contradiction | reflexivity].
  - intros H. destruct (String.eqb_spec k0 k') as [-> | Hk'].
    + simpl. destruct (String.eqb_spec k' k); [congruence | ].
      rewrite String.eqb_refl. reflexivity.
    + simpl. destruct (String.eqb_spec k0 k); [contradiction | ].
      destruct (String.eqb_spec k0 k'); [contradiction | ].
      rewrite IH by exact H. reflexivity.
Qed.

(** Putting back what was there, under any number of later changes of
    other keys. *)
Lemma dict_restore k v v' d :
  dict_get k d = Some v -> dict_set k v (dict_set k v' d) = d.
Proof. intros H. rewrite dict_set_set. apply dict_set_same. exact H. Qed.

Lemma deprecateReactor_eq s :
  _deprecateReactor s =
    let r := reactor_attrs s in
    let out b attrs methods :=
      (mkPatching attrs methods (deprecations s) (reactor_calls s), b) in
    match dict_get "crash" r with
    | None => out (Raise (mkExn [AttributeError; Exception] (Text "crash"))) r []
    | Some m1 =>
        let r1 := dict_set "crash" (Deprecating "crash") r in
        match dict_get "iterate" r with
        | None =>
            out (Raise (mkExn [AttributeError; Exception] (Text "iterate")))
                r1 [("crash", m1)]%string
        | Some m2 =>
            let r2 := dict_set "iterate" (Deprecating "iterate") r1 in
            match dict_get "stop" r with
            | None =>
                out (Raise (mkExn [AttributeError; Exception] (Text "stop")))
                    r2 [("crash", m1); ("iterate", m2)]%string
            | Some m3 =>
                out (Ret tt)
                    (dict_set "stop" (Deprecating "stop") r2)
                    [("crash", m1); ("iterate", m2); ("stop", m3)]%string
            end
        end
    end.
Proof.
  unfold _deprecateReactor. simpl.
  destruct (dict_get "crash" (reactor_attrs s)) as [m1 | ]; [ | reflexivity].
  simpl. rewrite dict_get_set_neq by discriminate.
  destruct (dict_get "iterate" (reactor_attrs s)) as [m2 | ]; [ | reflexivity].
  simpl. rewrite !dict_get_set_neq by discriminate.
  destruct (dict_get "stop" (reactor_attrs s)) as [m3 | ]; reflexivity.
Qed.

Ltac dict_side :=
  rewrite ?dict_get_set_neq by discriminate;
  rewrite ?dict_get_set_eq;
  try discriminate; try congruence.

(** X15.  [_undeprecateReactor] undoes [_deprecateReactor]: after the
    two, the reactor has the attributes it had, whether or not
    [_deprecateReactor] got through all three names, and
    [self._reactorMethods] is empty; no warning has been issued and nothing
    has been called.  A function of [_makeReactorMethod] that was kept and
    is called after that warns and raises [KeyError]. *)
Theorem undeprecateReactor_restores s :
  let s1 := fst (_deprecateReactor s) in
  let s2 := fst (_undeprecateReactor s1) in
  snd (_undeprecateReactor s1) = Ret tt /\
  reactor_attrs s2 = reactor_attrs s /\
  _reactorMethods s2 = [] /\
  deprecations s2 = deprecations s /\
  reactor_calls s2 = reactor_calls s /\
  (forall depth name,
     call_method depth (Deprecating name) s2 =
       (mkPatching (reactor_attrs s2) []
          (deprecations s2 ++ [deprecation_message name]) (reactor_calls s2),
        Raise (mkExn [UserClass "KeyError"; UserClass "LookupError"; Exception]
                     (Text name)))).
Proof.
  intros s1 s2.
  assert (H : reactor_attrs s2 = reactor_attrs s /\
              _reactorMethods s2 = [] /\
              deprecations s2 = deprecations s /\
              reactor_calls s2 = reactor_calls s).
  { subst s2 s1. rewrite deprecateReactor_eq. cbv zeta.
    destruct (dict_get "crash" (reactor_attrs s)) as [m1 | ] eqn:E1;
      [ | simpl; auto].
    destruct (dict_get "iterate" (reactor_attrs s)) as [m2 | ] eqn:E2.
    2:{ simpl. rewrite (dict_restore "crash") by exact E1. auto. }
    destruct (dict_get "stop" (reactor_attrs s)) as [m3 | ] eqn:E3.
    - simpl.
      rewrite (dict_set_comm "crash" "stop") by dict_side.
      rewrite (dict_set_comm "crash" "iterate") by dict_side.
      rewrite (dict_restore "crash") by exact E1.
      rewrite (dict_set_comm "iterate" "stop") by dict_side.
      rewrite (dict_restore "iterate") by exact E2.
      rewrite (dict_restore "stop") by exact E3.
      auto.
    - simpl.
      rewrite (dict_set_comm "crash" "iterate") by dict_side.
      rewrite (dict_restore "crash") by exact E1.
      rewrite (dict_restore "iterate") by exact E2.
      auto. }
  destruct H as (Hr & Hm & Hd & Hc).
  split; [reflexivity | ].
  clearbody s2.
  repeat split; auto.
  intros depth name.
  destruct depth; simpl; rewrite Hm; reflexivity.
Qed.

(** X16.  [_deprecateReactor] returns exactly when the reactor has the
    three attributes; otherwise what leaves it is the [AttributeError] of
    [getattr].  When it returns, each of [crash], [iterate] and [stop] is
    replaced by a function that warns the method cannot be used inside unit
    tests and then calls what the reactor had under that name, which
    [self._reactorMethods] keeps; every other attribute of the reactor is
    as it was, and no warning has been issued yet. *)
Theorem deprecateReactor_wraps s :
  let names := ["crash"; "iterate"; "stop"]%string in
  let s1 := fst (_deprecateReactor s) in
  (snd (_deprecateReactor s) = Ret tt <->
   forall name, In name names -> dict_get name (reactor_attrs s) <> None) /\
  (forall e, snd (_deprecateReactor s) = Raise e ->
     isinstance e AttributeError = true) /\
  (snd (_deprecateReactor s) = Ret tt ->
   (forall name, In name names ->
      dict_get name (reactor_attrs s1) = Some (Deprecating name) /\
      dict_get name (_reactorMethods s1) = dict_get name (reactor_attrs s) /\
      forall depth original,
        dict_get name (reactor_attrs s) = Some original ->
        call_method (S depth) (Deprecating name) s1 =
          call_method depth original
            (mkPatching (reactor_attrs s1) (_reactorMethods s1)
               (deprecations s1 ++ [deprecation_message name])
               (reactor_calls s1))) /\
   (forall name, ~ In name names ->
      dict_get name (reactor_attrs s1) = dict_get name (reactor_attrs s)) /\
   deprecations s1 = deprecations s /\
   reactor_calls s1 = reactor_calls s).
Proof.
  intros names s1. subst s1 names.
  rewrite deprecateReactor_eq. cbv zeta.
  destruct (dict_get "crash" (reactor_attrs s)) as [m1 | ] eqn:E1.
  2:{ simpl. split; [ | split; [ | discriminate]].
      - split; [discriminate | ]. intros H. exfalso.
        apply (H "crash"%string); [simpl; auto | exact E1].
      - intros e He. injection He as <-. reflexivity. }
  destruct (dict_get "iterate" (reactor_attrs s)) as [m2 | ] eqn:E2.
  2:{ simpl. split; [ | split; [ | discriminate]].
      - split; [discriminate | ]. intros H. exfalso.
        apply (H "iterate"%string); [simpl; auto | exact E2].
      - intros e He. injection He as <-. reflexivity. }
  destruct (dict_get "stop" (reactor_attrs s)) as [m3 | ] eqn:E3.
  2:{ simpl. split; [ | split; [ | discriminate]].
      - split; [discriminate | ]. intros H. exfalso.
        apply (H "stop"%string); [simpl; auto | exact E3].
      - intros e He. injection He as <-. reflexivity. }
  cbn [fst snd].
  split.
  { split; [ | reflexivity]. intros _ name [<- | [<- | [<- | []]]]; congruence. }
  split; [discriminate | ].
  intros _. cbn [reactor_attrs _reactorMethods deprecations reactor_calls].
  split; [ | split; [ | auto]].
  - intros name [<- | [<- | [<- | []]]].
    + split; [dict_side | ]. split; [simpl; congruence | ].
      intros depth original Ho. simpl. congruence.
    + split; [dict_side | ]. split; [simpl; congruence | ].
      intros depth original Ho. simpl. congruence.
    + split; [dict_side | ]. split; [simpl; congruence | ].
      intros depth original Ho. simpl. congruence.
  - intros name Hn.
    rewrite !dict_get_set_neq; [reflexivity | | | ];
      intros <-; apply Hn; simpl; auto.
Qed.

(** ** A timeout that cannot errback *)

Lemma wait_stopped self w :
  running w = [] ->
  _wait self Stopped None w =
    (w, if _timedOut w then Ret tt
        else Raise (mkExn [KeyboardInterrupt] (Text ""))).
Proof.
  intros Er. unfold _wait. rewrite wait_with_admitted by exact Er.
  unfold try_finally, bind, exec, ret, raise. simpl. rewrite Er. simpl.
  destruct (_timedOut w); destruct w; simpl in *; subst; reflexivity.
Qed.

Lemma phase_stalls_hang self func funcDescription :
  phase_stalls self func = true ->
  phase_result self func funcDescription = Hang /\
  exists timeout,
    getTimeout_value self = Ret timeout /\
    phase_reports self func funcDescription =
      [timeout_report self (timeoutFailure funcDescription timeout)].
Proof.
  intros Hst.
  split; [apply phase_result_hang, yield_result_stalls; exact Hst | ].
  revert Hst. unfold phase_stalls, invoked, phase_reports.
  destruct (getTimeout_value self) as [timeout | e | ]; try discriminate.
  destruct (isgeneratorfunction func); [discriminate | ]. simpl.
  intros Hst. rewrite Hst. eauto.
Qed.

(** X17.  When the test method's Deferred has fired but its chain is
    still waiting at the timeout, [onTimeout] reports the timeout itself,
    crashes the reactor and sets [_timedOut]; the coroutine is never
    resumed, so neither the drain nor tearDown runs.  [_wait] then finds the
    reactor stopped with no result and, because [_timedOut] is set, returns
    instead of raising [KeyboardInterrupt]; [_cleanUp] and [_classCleanUp]
    run and [_runFixturesAndTest] returns. *)
Theorem stalled_test_ends_run self w v :
  running w = [] ->
  janitor_returns (postCaseCleanup self) <> Hang ->
  phase_result self (setUp self) "setUp" = Ret v ->
  phase_stalls self (testMethod self) = true ->
  exists timeout w3 w',
    getTimeout_value self = Ret timeout /\
    _deferSetUp self (set_timedOut false w) = (w3, Hang) /\
    log w3 =
      log w ++ [timeout_report self
                  (timeoutFailure (_testMethodName self) timeout)] /\
    entries (trace w3) = entries (trace w) ++ [SettingUp; RunningTest] /\
    _timedOut w3 = true /\
    _passed w3 = _passed w /\
    _wait self Stopped None w3 = (w3, Ret tt) /\
    _runFixturesAndTest self Stopped w = (w', Ret tt) /\
    w' = fst (_classCleanUp self (fst (_cleanUp self w3))).
Proof.
  intros Er Hjanitor HsetUp Hstall.
  destruct (phase_stalls_hang self (testMethod self) (_testMethodName self) Hstall)
    as (Hhang & timeout & Hto & Hrep).
  (* setUp *)
  destruct (await_run_spec self (setUp self) "setUp"%string
              (note (Enter SettingUp) (set_timedOut false w)))
    as (w1 & E1 & _ & Ht1 & Hl1 & Hp1 & Hr1 & _).
  rewrite HsetUp in E1.
  rewrite phase_reports_nil, app_nil_r in Hl1 by congruence.
  destruct (phase_result_ret_invoked _ _ _ _ HsetUp) as [Hinv1 _].
  rewrite Hinv1 in Ht1. simpl in Ht1, Hl1, Hp1, Hr1.
  (* the test method *)
  pose proof (deferSetUp_testMethod_eq self (note (Enter RunningTest) w1)) as E3.
  destruct (await_run_spec self (testMethod self) (_testMethodName self)
              (note (Enter RunningTest) w1))
    as (w3 & E2 & _ & Ht2 & Hl2 & Hp2 & Hr2 & Ho2 & _).
  rewrite E2, Hhang in E3. rewrite Hrep in Hl2. rewrite Hstall in Ho2.
  assert (Hinv2 : invoked self (testMethod self) = true).
  { unfold phase_stalls in Hstall. apply andb_true_iff in Hstall. apply Hstall. }
  rewrite Hinv2 in Ht2. simpl in Ht2, Hl2, Hp2, Hr2.
  assert (Ecoro : _deferSetUp self (set_timedOut false w) = (w3, Hang)).
  { rewrite deferSetUp_unfold, E1.
    unfold try_finally, bind, exec. rewrite E3. reflexivity. }
  assert (Er3 : running w3 = []) by congruence.
  pose proof (wait_stopped self w3 Er3) as Ewait. rewrite Ho2 in Ewait.
  destruct (cleanUp_spec self w3) as (w4 & _ & H4).
  exists timeout, w3, (fst (_classCleanUp self (fst (_cleanUp self w3)))).
  split; [exact Hto | split; [exact Ecoro | ]].
  split; [rewrite Hl2, Hl1; reflexivity | ].
  split.
  { rewrite Ht2, Ht1. simpl. rewrite !entries_app. simpl.
    rewrite !app_nil_r, <- app_assoc. reflexivity. }
  split; [exact Ho2 | split; [congruence | split; [exact Ewait | ]]].
  split; [ | reflexivity].
  rewrite runFixturesAndTest_eq. rewrite Ecoro. cbn [fst snd].
  unfold coroutine_deferred.
  rewrite Ewait. cbn [fst snd].
  destruct (janitor_returns (postCaseCleanup self)) as [clean | e | ];
    [ | | congruence]; destruct H4 as (E4 & _); rewrite E4; reflexivity.
Qed.

(** ** What leaves the run *)

Lemma keeps_lock_ret {A} (a : A) : keeps_lock (ret a).
Proof. intros w. reflexivity. Qed.

Lemma keeps_lock_raise {A} (e : Exn) : keeps_lock (@raise A e).
Proof. intros w. reflexivity. Qed.

Lemma keeps_lock_exec (f : World -> World) :
  (forall w, running (f w) = running w) -> keeps_lock (exec f).
Proof. intros Hf w. apply Hf. Qed.

Lemma keeps_lock_bind {A B} (m : M A) (k : A -> M B) :
  keeps_lock m -> (forall a, keeps_lock (k a)) -> keeps_lock (bind m k).
Proof.
  intros Hm Hk w. specialize (Hm w). unfold bind.
  destruct (m w) as [w1 [a | e | ]]; simpl in *; try exact Hm.
  rewrite Hk. exact Hm.
Qed.

Lemma keeps_lock_try_except {A} (m : M A) (h : Exn -> M A) :
  keeps_lock m -> (forall e, keeps_lock (h e)) -> keeps_lock (try_except m h).
Proof.
  intros Hm Hh w. specialize (Hm w). unfold try_except.
  destruct (m w) as [w1 [a | e | ]]; simpl in *; try exact Hm.
  rewrite Hh. exact Hm.
Qed.

Lemma keeps_lock_try_finally {A} (m : M A) (fin : M unit) :
  keeps_lock m -> keeps_lock fin -> keeps_lock (try_finally m fin).
Proof.
  intros Hm Hfin w. specialize (Hm w). rewrite try_finally_fst.
  destruct (snd (m w)); try exact Hm; rewrite Hfin; exact Hm.
Qed.

Lemma keeps_lock_for_each {A} (l : list A) (body : A -> M unit) :
  (forall x, keeps_lock (body x)) -> keeps_lock (for_each l body).
Proof.
  intros H. induction l as [ | x t IH]; simpl.
  - apply keeps_lock_ret.
  - apply keeps_lock_bind; auto.
Qed.

Lemma await_run_keeps_lock self func funcDescription :
  keeps_lock (await_run self func funcDescription).
Proof.
  intros w.
  destruct (await_run_spec self func funcDescription w)
    as (w' & E & _ & _ & _ & _ & Hr & _).
  rewrite E. exact Hr.
Qed.

Lemma deferRunCleanups_keeps_lock self : keeps_lock (_deferRunCleanups self).
Proof.
  intros w.
  destruct (deferRunCleanups_frame self w) as (w' & r & tr & evs & E & _ & _ & _ & _ & _ & Hr).
  rewrite E. exact Hr.
Qed.

Ltac keeps_lock_steps :=
  repeat first
    [ apply keeps_lock_ret
    | apply keeps_lock_raise
    | apply keeps_lock_exec; reflexivity
    | apply await_run_keeps_lock
    | apply deferRunCleanups_keeps_lock
    | apply keeps_lock_bind; [ | intros ? ]
    | apply keeps_lock_try_except; [ | intros ? ]
    | apply keeps_lock_try_finally
    | apply keeps_lock_for_each; intros ?
    | match goal with
      | |- keeps_lock (if ?b then _ else _) => destruct b
      | |- keeps_lock (match ?x with _ => _ end) => destruct x
      end ].

Lemma deferSetUp_keeps_lock self : keeps_lock (_deferSetUp self).
Proof.
  unfold _deferSetUp, _deferTearDown, _deferSetUp_testMethod, _ebDeferTestMethod.
  keeps_lock_steps.
Qed.

(** ** Giving way to the reactor *)

Lemma only_calls_suspensions w w' : only_calls w w' -> suspensions w' = suspensions w.
Proof. unfold only_calls. intros ->. reflexivity. Qed.

Lemma runCallbacks_suspensions d w :
  suspensions (fst (_runCallbacks d w)) = suspensions w.
Proof.
  destruct (d_called d && negb (d_paused d)) eqn:E.
  - destruct (runCallbacks_ready d w E) as (w' & E' & H). rewrite E'.
    apply only_calls_suspensions. exact H.
  - rewrite runCallbacks_waiting by exact E. reflexivity.
Qed.

Lemma fire_suspensions d o w : suspensions (fst (fire d o w)) = suspensions w.
Proof.
  unfold fire. destruct (d_called d); [reflexivity | apply runCallbacks_suspensions].
Qed.

Lemma deliver_suspensions d o w : suspensions (fst (deliver d o w)) = suspensions w.
Proof.
  unfold deliver, resume.
  destruct (d_called d); [apply runCallbacks_suspensions | apply fire_suspensions].
Qed.

Lemma onTimeout_suspensions self funcDescription timeout d w :
  suspensions (fst (onTimeout self funcDescription timeout d w)) = suspensions w.
Proof.
  unfold onTimeout, try_except, errback.
  pose proof (fire_suspensions d
                (Failed (mkExn [TimeoutError; Exception]
                               (StillRunning funcDescription timeout))) w) as Hf.
  destruct (fire d _ w) as [w1 [d1 | err | ]]; simpl in *; try exact Hf.
  destruct (isinstance err AlreadyCalledError); [ | exact Hf].
  unfold bind, exec, ret.
  destruct (getTodo self) as [t | ]; [destruct (expected t _) | ]; exact Hf.
Qed.

Lemma runDelayedCall_suspensions self call d w :
  suspensions (fst (runDelayedCall self call d w)) = suspensions w.
Proof.
  unfold runDelayedCall.
  destruct (nth_error (delayedCalls w) call) as [c | ]; [ | reflexivity].
  destruct (negb (dc_cancelled c || dc_called c)); [ | reflexivity].
  rewrite onTimeout_suspensions. reflexivity.
Qed.

(** Each suspension is counted once. *)
Lemma suspend_suspensions self later p w :
  suspensions (fst (suspend self later p w)) = S (suspensions w).
Proof.
  destruct p as [d call]. unfold suspend, bind, exec.
  set (w0 := suspension w).
  assert (H0 : suspensions w0 = S (suspensions w)) by reflexivity.
  clearbody w0.
  assert (Hend : forall d1 w1,
            suspensions w1 = S (suspensions w) ->
            suspensions
              (fst (match settled d1 with
                    | Some o => resumed_with o
                    | None =>
                        fun w =>
                          match match call with
                                | Some c => runDelayedCall self c d1
                                | None => ret d1
                                end w with
                          | (w', Ret d2) =>
                              match settled d2 with
                              | Some o => resumed_with o
                              | None => hang
                              end w'
                          | (w', Raise e) => (w', Raise e)
                          | (w', Hang) => (w', Hang)
                          end
                    end w1)) = S (suspensions w)).
  { intros d1 w1 H1.
    destruct (settled d1) as [o' | ]; [rewrite resumed_with_same; exact H1 | ].
    assert (H2 : suspensions
                   (fst (match call with
                         | Some c => runDelayedCall self c d1
                         | None => ret d1
                         end w1)) = S (suspensions w)).
    { destruct call as [c | ]; [rewrite runDelayedCall_suspensions | ]; exact H1. }
    destruct (match call with
              | Some c => runDelayedCall self c d1
              | None => ret d1
              end w1) as [w2 [d2 | e | ]]; simpl in *; try exact H2.
    destruct (settled d2) as [o' | ]; [rewrite resumed_with_same | ]; exact H2. }
  destruct later as [o | ].
  - pose proof (deliver_suspensions d o w0) as Hd.
    assert (Hret : exists d', snd (deliver d o w0) = Ret d').
    { unfold deliver, resume, fire.
      destruct (d_called d); apply runCallbacks_result_ret. }
    destruct Hret as (d' & Hd').
    destruct (deliver d o w0) as [w1 r]. simpl in *. subst r.
    apply Hend. congruence.
  - unfold ret. apply Hend. exact H0.
Qed.

Lemma guarded_yield_suspensions self funcDescription timeout d later w :
  suspensions (fst (guarded_yield self funcDescription timeout d later w)) =
  suspensions w + (if d_called d && negb (d_paused d) then 0 else 1).
Proof.
  unfold guarded_yield, bind, callLater, addBoth.
  set (c := List.length (delayedCalls w)).
  set (w1 := set_delayedCalls _ w).
  assert (H1 : suspensions w1 = suspensions w) by reflexivity.
  clearbody w1 c.
  destruct (d_called d && negb (d_paused d)) eqn:Eready.
  - destruct (runCallbacks_ready
                (mkDeferred (d_called d) (d_paused d) (d_result d)
                            (d_callbacks d ++ [CancelTimeout c])) w1 Eready)
      as (w2 & E2 & H2).
    rewrite E2. unfold yield. simpl. rewrite resumed_with_same.
    rewrite (only_calls_suspensions _ _ H2). lia.
  - rewrite runCallbacks_waiting by exact Eready.
    unfold yield, ret. cbn [fst snd]. rewrite settled_pending.
    rewrite suspend_suspensions. lia.
Qed.

Lemma yield_run_suspensions self func funcDescription w :
  suspensions (fst (yield_run self func funcDescription w)) =
  suspensions w + (if phase_suspends self func then 1 else 0).
Proof.
  rewrite yield_run_unfold. unfold phase_suspends, invoked.
  set (w0 := if getTimeout_warns self then warn timeout_warning w else w).
  assert (H0 : suspensions w0 = suspensions w).
  { subst w0. destruct (getTimeout_warns self); reflexivity. }
  clearbody w0.
  destruct (getTimeout_value self) as [timeout | e | ]; simpl; try lia.
  destruct (isgeneratorfunction func); simpl; [lia | ].
  rewrite guarded_yield_suspensions, suspends_deferred_of. simpl.
  destruct (d_called _ && negb _); simpl; lia.
Qed.

Lemma await_run_suspensions self func funcDescription w :
  suspensions (fst (await_run self func funcDescription w)) =
  suspensions w + (if phase_suspends self func then 1 else 0).
Proof. rewrite await_run_fst. apply yield_run_suspensions. Qed.

Lemma cleanup_turn_suspensions self a w :
  suspensions (fst (cleanup_turn self a w)) =
  suspensions w + (if cleanup_suspends self a then 1 else 0).
Proof.
  unfold cleanup_turn, cleanup_suspends.
  destruct (__name__ a) as [name | ]; [apply yield_run_suspensions | simpl; lia].
Qed.

(** The drain is suspended once on each cleanup that returns a Deferred
    with no result yet. *)
Lemma while_suspensions self fuel : forall failures w,
  stack_weight (_cleanups w) <= fuel ->
  forallb (deep (unwinds self)) (_cleanups w) = true ->
  suspensions (fst (_deferRunCleanups_while self fuel failures w)) =
  suspensions w +
  List.length (filter (cleanup_suspends self) (unwind_order (_cleanups w))).
Proof.
  induction fuel as [ | fuel IH]; intros failures w Hfuel Hdeep.
  - destruct (pop (_cleanups w)) as [[rest a] | ] eqn:Hpop.
    + apply pop_some in Hpop. rewrite Hpop, stack_weight_snoc in Hfuel. lia.
    + rewrite while_unfold_empty by exact Hpop. apply pop_none in Hpop.
      rewrite Hpop. simpl. lia.
  - destruct (pop (_cleanups w)) as [[rest a] | ] eqn:Hpop.
    + rewrite (while_unfold_turn self fuel failures w rest a Hpop).
      pose proof (cleanup_turn_suspensions self a (set_cleanups rest w)) as Hs.
      destruct (cleanup_turn_spec self a (set_cleanups rest w))
        as (w1 & E & Hc & _).
      rewrite E in *. simpl in Hs, Hc.
      apply pop_some in Hpop. rewrite Hpop in *.
      destruct (deep_stack_step _ _ _ (cleanup_called self a) Hdeep) as [Ha Hnext].
      apply (stack_weight_step _ _ (cleanup_called self a)) in Hfuel.
      rewrite <- Hc in Hnext, Hfuel.
      unfold unwinds in Ha. apply andb_true_iff in Ha. destruct Ha as [Hcalled Ha].
      rewrite Hcalled in Hc.
      rewrite unwind_order_snoc. simpl filter.
      assert (Hlen : forall n,
                n = suspensions w1 +
                    List.length (filter (cleanup_suspends self)
                                   (unwind_order (_cleanups w1))) ->
                n = suspensions w +
                    List.length
                      (if cleanup_suspends self a
                       then a :: filter (cleanup_suspends self)
                                   (unwind_order (rest ++ registers a))
                       else filter (cleanup_suspends self)
                              (unwind_order (rest ++ registers a)))).
      { intros n ->. rewrite Hs, Hc.
        destruct (cleanup_suspends self a); simpl; lia. }
      destruct (cleanup_result self a) as [v | e | ]; [ | | discriminate].
      * apply Hlen. apply IH; assumption.
      * rewrite Ha. apply Hlen. apply IH; assumption.
    + rewrite while_unfold_empty by exact Hpop. apply pop_none in Hpop.
      rewrite Hpop. simpl. lia.
Qed.

Lemma report_failures_suspensions failures : forall w,
  suspensions
    (fst (for_each failures
            (fun f => exec (report (addError f)) ;; exec (set_passed false)) w)) =
  suspensions w.
Proof.
  induction failures as [ | f fs IH]; intros w; [reflexivity | ].
  simpl. unfold bind at 1. unfold bind at 1. unfold exec at 1 2.
  rewrite IH. reflexivity.
Qed.

Lemma deferRunCleanups_suspensions self w :
  forallb (deep (unwinds self)) (_cleanups w) = true ->
  suspensions (fst (_deferRunCleanups self w)) =
  suspensions w +
  List.length (filter (cleanup_suspends self) (unwind_order (_cleanups w))).
Proof.
  intros Hdeep. rewrite deferRunCleanups_unfold.
  pose proof (while_suspensions self (stack_weight (_cleanups w)) []
                (note (Enter CleaningUp) w) (le_n _) Hdeep) as Hs.
  destruct (_deferRunCleanups_while self (stack_weight (_cleanups w)) []
              (note (Enter CleaningUp) w)) as [w1 [failures | e | ]];
    simpl in *; try exact Hs.
  rewrite report_failures_suspensions. exact Hs.
Qed.

Lemma deferTearDown_suspensions self w :
  suspensions (fst (_deferTearDown self w)) =
  suspensions w + (if phase_suspends self (tearDown self) then 1 else 0).
Proof.
  pose proof (deferTearDown_eq self w) as E.
  pose proof (await_run_suspensions self (tearDown self) "tearDown"%string
                (note (Enter TearingDown) w)) as Hs.
  destruct (await_run self (tearDown self) "tearDown" (note (Enter TearingDown) w))
    as [w1 [v | e | ]]; rewrite E; simpl in *; try exact Hs.
  unfold error_calls. destruct (isinstance e KeyboardInterrupt); exact Hs.
Qed.

Lemma classified_suspensions self c w :
  suspensions (classified self c w) = suspensions w.
Proof. destruct c; reflexivity. Qed.

Lemma deferSetUp_testMethod_suspensions self w :
  suspensions (fst (_deferSetUp_testMethod self w)) =
  suspensions w + (if phase_suspends self (testMethod self) then 1 else 0).
Proof.
  pose proof (deferSetUp_testMethod_eq self w) as E.
  pose proof (await_run_suspensions self (testMethod self) (_testMethodName self) w)
    as Hs.
  destruct (await_run self (testMethod self) (_testMethodName self) w)
    as [w1 [v | e | ]]; rewrite E; simpl in *;
    rewrite ?classified_suspensions; exact Hs.
Qed.

Lemma filter_none {A} (f : A -> bool) l :
  List.length (filter f l) = 0 <-> existsb f l = false.
Proof.
  induction l as [ | x t IH]; simpl; [split; reflexivity | ].
  destruct (f x); simpl; [split; discriminate | exact IH].
Qed.

(** *** The count never goes down *)

Lemma rising_ret {A} (a : A) : rising (ret a).
Proof. intros w. apply le_n. Qed.

Lemma rising_raise {A} (e : Exn) : rising (@raise A e).
Proof. intros w. apply le_n. Qed.

Lemma rising_exec (f : World -> World) :
  (forall w, suspensions (f w) = suspensions w) -> rising (exec f).
Proof. intros Hf w. simpl. rewrite Hf. apply le_n. Qed.

Lemma rising_bind {A B} (m : M A) (k : A -> M B) :
  rising m -> (forall a, rising (k a)) -> rising (bind m k).
Proof.
  intros Hm Hk w. specialize (Hm w). unfold bind.
  destruct (m w) as [w1 [a | e | ]]; simpl in *; try exact Hm.
  specialize (Hk a w1). lia.
Qed.

Lemma rising_try_except {A} (m : M A) (h : Exn -> M A) :
  rising m -> (forall e, rising (h e)) -> rising (try_except m h).
Proof.
  intros Hm Hh w. specialize (Hm w). unfold try_except.
  destruct (m w) as [w1 [a | e | ]]; simpl in *; try exact Hm.
  specialize (Hh e w1). lia.
Qed.

Lemma rising_try_finally {A} (m : M A) (fin : M unit) :
  rising m -> rising fin -> rising (try_finally m fin).
Proof.
  intros Hm Hfin w. specialize (Hm w). rewrite try_finally_fst.
  destruct (snd (m w)); try exact Hm; specialize (Hfin (fst (m w))); lia.
Qed.

Lemma rising_for_each {A} (l : list A) (body : A -> M unit) :
  (forall x, rising (body x)) -> rising (for_each l body).
Proof.
  intros H. induction l as [ | x t IH]; simpl.
  - apply rising_ret.
  - apply rising_bind; auto.
Qed.

Lemma await_run_rising self func funcDescription :
  rising (await_run self func funcDescription).
Proof. intros w. rewrite await_run_suspensions. lia. Qed.

Lemma yield_run_rising self func funcDescription :
  rising (yield_run self func funcDescription).
Proof. intros w. rewrite yield_run_suspensions. lia. Qed.

Ltac rising_steps :=
  repeat first
    [ apply rising_ret
    | apply rising_raise
    | apply rising_exec; reflexivity
    | apply await_run_rising
    | apply yield_run_rising
    | apply rising_bind; [ | intros ? ]
    | apply rising_try_except; [ | intros ? ]
    | apply rising_for_each; intros ?
    | match goal with
      | |- rising (if ?b then _ else _) => destruct b
      | |- rising (match ?x with _ => _ end) => destruct x
      end ].

Lemma cleanup_turn_rising self a : rising (cleanup_turn self a).
Proof. unfold cleanup_turn. rising_steps. Qed.

Lemma while_rising self fuel : forall failures,
  rising (_deferRunCleanups_while self fuel failures).
Proof.
  induction fuel as [ | fuel IH]; intros failures w.
  - simpl. destruct (pop (_cleanups w)) as [[rest a] | ]; apply le_n.
  - destruct (pop (_cleanups w)) as [[rest a] | ] eqn:Hpop.
    + rewrite (while_unfold_turn self fuel failures w rest a Hpop).
      pose proof (cleanup_turn_rising self a (set_cleanups rest w)) as H1.
      destruct (cleanup_turn self a (set_cleanups rest w)) as [w1 [v | e | ]];
        simpl in *; try exact H1.
      * specialize (IH failures w1). lia.
      * destruct (isinstance e Exception); [ | exact H1].
        specialize (IH (failures ++ [e]) w1). lia.
    + rewrite while_unfold_empty by exact Hpop. apply le_n.
Qed.

Lemma deferRunCleanups_rising self : rising (_deferRunCleanups self).
Proof.
  unfold _deferRunCleanups.
  apply rising_bind; [apply rising_exec; reflexivity | intros _].
  apply rising_bind.
  - intros w. apply while_rising.
  - intros failures. rising_steps.
Qed.

Lemma deferTearDown_rising self : rising (_deferTearDown self).
Proof. unfold _deferTearDown. rising_steps. Qed.

Lemma deferSetUp_testMethod_rising self : rising (_deferSetUp_testMethod self).
Proof. unfold _deferSetUp_testMethod, _ebDeferTestMethod. rising_steps. Qed.

(** A coroutine that is suspended on setUp has given way, whatever comes
    after. *)
Lemma deferSetUp_gives_way self w :
  phase_suspends self (setUp self) = true ->
  suspensions w < suspensions (fst (_deferSetUp self w)).
Proof.
  intros Hs. rewrite deferSetUp_unfold.
  pose proof (await_run_suspensions self (setUp self) "setUp"%string
                (note (Enter SettingUp) w)) as H1.
  rewrite Hs in H1.
  destruct (await_run self (setUp self) "setUp" (note (Enter SettingUp) w))
    as [w1 [v | e | ]]; simpl in H1.
  - assert (Hrest : rising
              (try_finally
                 (try_finally
                    (exec (note (Enter RunningTest)) ;; _deferSetUp_testMethod self)
                    (_deferRunCleanups self))
                 (_deferTearDown self))).
    { apply rising_try_finally; [ | apply deferTearDown_rising].
      apply rising_try_finally; [ | apply deferRunCleanups_rising].
      apply rising_bind; [apply rising_exec; reflexivity | intros _].
      apply deferSetUp_testMethod_rising. }
    specialize (Hrest w1). lia.
  - cbv zeta.
    match goal with
    | |- context [_deferRunCleanups self ?w2] =>
        pose proof (deferRunCleanups_rising self w2) as H2;
        assert (H12 : suspensions w2 = suspensions w1);
        [ | destruct (_deferRunCleanups self w2) as [w3 [[] | e' | ]];
            simpl in *; lia ]
    end.
    destruct (isinstance e SkipTest); [ | destruct (isinstance e KeyboardInterrupt)];
      reflexivity.
  - simpl. lia.
Qed.

(** *** A coroutine that comes to its end has not crashed the reactor *)

Lemma calm_ret {A} (a : A) : calm (ret a).
Proof. intros w _. reflexivity. Qed.

Lemma calm_raise {A} (e : Exn) : calm (@raise A e).
Proof. intros w _. reflexivity. Qed.

Lemma calm_exec (f : World -> World) :
  (forall w, crashes (f w) = crashes w) -> calm (exec f).
Proof. intros Hf w _. apply Hf. Qed.

Lemma calm_bind {A B} (m : M A) (k : A -> M B) :
  calm m -> (forall a, calm (k a)) -> calm (bind m k).
Proof.
  intros Hm Hk w. specialize (Hm w). unfold bind.
  destruct (m w) as [w1 [a | e | ]]; simpl in *.
  - intros H. rewrite (Hk a w1 H). apply Hm. discriminate.
  - intros _. apply Hm. discriminate.
  - congruence.
Qed.

Lemma calm_try_except {A} (m : M A) (h : Exn -> M A) :
  calm m -> (forall e, calm (h e)) -> calm (try_except m h).
Proof.
  intros Hm Hh w. specialize (Hm w). unfold try_except.
  destruct (m w) as [w1 [a | e | ]]; simpl in *.
  - intros _. apply Hm. discriminate.
  - intros H. rewrite (Hh e w1 H). apply Hm. discriminate.
  - congruence.
Qed.

Lemma calm_try_finally {A} (m : M A) (fin : M unit) :
  calm m -> calm fin -> calm (try_finally m fin).
Proof.
  intros Hm Hfin w. specialize (Hm w).
  rewrite (try_finally_eq _ _ _ _ _ (surjective_pairing _)).
  destruct (snd (m w)) as [a | e | ]; simpl; try congruence;
    intros Hnh; rewrite Hfin;
    try (apply Hm; discriminate);
    destruct (snd (fin (fst (m w)))); congruence.
Qed.

Lemma calm_for_each {A} (l : list A) (body : A -> M unit) :
  (forall x, calm (body x)) -> calm (for_each l body).
Proof.
  intros H. induction l as [ | x t IH]; simpl.
  - apply calm_ret.
  - apply calm_bind; auto.
Qed.

Lemma yield_run_calm self func funcDescription :
  calm (yield_run self func funcDescription).
Proof.
  intros w Hnh.
  destruct (yield_run_spec self func funcDescription w)
    as (w' & E & _ & _ & _ & _ & _ & _ & Hx).
  rewrite E in *. simpl in *. rewrite Hx.
  destruct (phase_stalls self func) eqn:Hs; [ | reflexivity].
  exfalso. apply Hnh. apply yield_result_stalls. exact Hs.
Qed.

Lemma await_run_calm self func funcDescription :
  calm (await_run self func funcDescription).
Proof.
  intros w Hnh. rewrite await_run_fst. apply yield_run_calm.
  intros H. apply Hnh. apply await_run_hang. exact H.
Qed.

Ltac calm_steps :=
  repeat first
    [ apply calm_ret
    | apply calm_raise
    | apply calm_exec; reflexivity
    | apply await_run_calm
    | apply yield_run_calm
    | apply calm_bind; [ | intros ? ]
    | apply calm_try_except; [ | intros ? ]
    | apply calm_for_each; intros ?
    | match goal with
      | |- calm (if ?b then _ else _) => destruct b
      | |- calm (match ?x with _ => _ end) => destruct x
      end ].

Lemma cleanup_turn_calm self a : calm (cleanup_turn self a).
Proof. unfold cleanup_turn. calm_steps. Qed.

Lemma while_calm self fuel : forall failures,
  calm (_deferRunCleanups_while self fuel failures).
Proof.
  induction fuel as [ | fuel IH]; intros failures w.
  - simpl. destruct (pop (_cleanups w)) as [[rest a] | ]; simpl; [congruence | auto].
  - destruct (pop (_cleanups w)) as [[rest a] | ] eqn:Hpop.
    + rewrite (while_unfold_turn self fuel failures w rest a Hpop).
      pose proof (cleanup_turn_calm self a (set_cleanups rest w)) as H1.
      destruct (cleanup_turn self a (set_cleanups rest w)) as [w1 [v | e | ]];
        simpl in *.
      * intros H. rewrite (IH failures w1 H). apply H1. discriminate.
      * destruct (isinstance e Exception).
        -- intros H. rewrite (IH _ w1 H). apply H1. discriminate.
        -- intros _. apply H1. discriminate.
      * congruence.
    + rewrite while_unfold_empty by exact Hpop. auto.
Qed.

Lemma deferRunCleanups_calm self : calm (_deferRunCleanups self).
Proof.
  unfold _deferRunCleanups.
  apply calm_bind; [apply calm_exec; reflexivity | intros _].
  apply calm_bind.
  - intros w. apply while_calm.
  - intros failures. calm_steps.
Qed.

Lemma deferTearDown_calm self : calm (_deferTearDown self).
Proof. unfold _deferTearDown. calm_steps. Qed.

Lemma deferSetUp_testMethod_calm self : calm (_deferSetUp_testMethod self).
Proof. unfold _deferSetUp_testMethod, _ebDeferTestMethod. calm_steps. Qed.

Lemma deferSetUp_calm self : calm (_deferSetUp self).
Proof.
  unfold _deferSetUp.
  apply calm_bind; [apply calm_exec; reflexivity | intros _].
  apply calm_bind.
  - apply calm_try_except.
    + calm_steps.
    + intros e.
      destruct (isinstance e SkipTest); [ | destruct (isinstance e KeyboardInterrupt)];
        repeat first
          [ apply deferRunCleanups_calm
          | apply calm_ret
          | apply calm_exec; reflexivity
          | apply calm_bind; [ | intros _] ].
  - intros [ | ]; [ | apply calm_ret].
    apply calm_try_finally; [ | apply deferTearDown_calm].
    apply calm_try_finally; [ | apply deferRunCleanups_calm].
    apply calm_bind; [apply calm_exec; reflexivity | intros _].
    apply deferSetUp_testMethod_calm.
Qed.

Lemma wait_firing self o w :
  running w = [] -> _wait self (Firing o) None w = (crash w, Ret tt).
Proof.
  intros Er. unfold _wait. rewrite wait_with_admitted by exact Er.
  unfold try_finally, bind, exec, ret. simpl. rewrite Er. simpl.
  destruct w; simpl in *; subst; reflexivity.
Qed.

(** X10.  A test whose setUp, test method and tearDown return, with no
    todo annotation, whose cleanups all succeed, and after which the janitor
    finds nothing and no error was logged, is reported by exactly one
    [addSuccess] and nothing else, and [_runFixturesAndTest] returns.  When
    no fixture and no cleanup returned a Deferred that was still without its
    result, the coroutine has come to its end when [_wait] is called and the
    reactor is not run, whatever it would do.  Otherwise the coroutine comes
    to its end under the reactor, in a run that fires its Deferred, and
    [_wait] crashes the reactor, once.  The states are entered in their
    order; the cleanups tearDown registered are left on the stack: the drain
    came before it. *)
Theorem passing_test self s w v1 v2 v3 :
  running w = [] ->
  phase_result self (setUp self) "setUp" = Ret v1 ->
  phase_result self (testMethod self) (_testMethodName self) = Ret v2 ->
  getTodo self = None ->
  let cs := _cleanups w ++ registers (setUp self) ++ registers (testMethod self) in
  forallb (deep (unwinds self)) cs = true ->
  failures_of self (unwind_order cs) = [] ->
  phase_result self (tearDown self) "tearDown" = Ret v3 ->
  postCaseCleanup self = mkJanitorRun [] (Ret true) ->
  getErrors self = [] ->
  postClassCleanup self = None ->
  let asynchronous :=
    phase_suspends self (setUp self) ||
    phase_suspends self (testMethod self) ||
    existsb (cleanup_suspends self) (unwind_order cs) ||
    phase_suspends self (tearDown self) in
  let run := if asynchronous then Firing (Success PyNone) else s in
  exists w',
    _runFixturesAndTest self run w = (w', Ret tt) /\
    log w' = log w ++ [addSuccess] /\
    _passed w' = true /\
    _cleanups w' = registers (tearDown self) /\
    entries (trace w') =
      entries (trace w) ++ [SettingUp; RunningTest; CleaningUp; TearingDown] /\
    running w' = [] /\
    crashes w' = crashes w + (if asynchronous then 1 else 0).
Proof.
  intros Er HsetUp Htest Htodo cs Hdeep Hfail HtearDown Hjanitor Herrors Hclass
    asynchronous run.
  (* setUp *)
  pose proof (await_run_suspensions self (setUp self) "setUp"%string
                (note (Enter SettingUp) (set_timedOut false w))) as Hs1.
  destruct (await_run_spec self (setUp self) "setUp"%string
              (note (Enter SettingUp) (set_timedOut false w)))
    as (w1 & E1 & Hc1 & Ht1 & Hl1 & Hp1 & Hr1 & _ & Hx1).
  rewrite E1 in Hs1. rewrite HsetUp in E1.
  rewrite phase_reports_nil, app_nil_r in Hl1 by congruence.
  destruct (phase_result_ret_invoked _ _ _ _ HsetUp) as [Hinv1 _].
  rewrite Hinv1 in Hc1, Ht1. simpl in Hc1, Ht1, Hl1, Hr1, Hs1, Hx1.
  (* the test method *)
  pose proof (deferSetUp_testMethod_eq self (note (Enter RunningTest) w1)) as E3.
  pose proof (await_run_suspensions self (testMethod self) (_testMethodName self)
                (note (Enter RunningTest) w1)) as Hs2.
  destruct (await_run_spec self (testMethod self) (_testMethodName self)
              (note (Enter RunningTest) w1))
    as (w2 & E2 & Hc2 & Ht2 & Hl2 & _ & Hr2 & _ & Hx2).
  rewrite E2 in Hs2. rewrite E2, Htest in E3.
  rewrite phase_reports_nil, app_nil_r in Hl2 by congruence.
  destruct (phase_result_ret_invoked _ _ _ _ Htest) as [Hinv2 _].
  rewrite Hinv2 in Hc2, Ht2. simpl in Hc2, Ht2, Hl2, Hr2, Hs2, Hx2.
  unfold classify in E3. rewrite Htodo in E3. simpl in E3.
  assert (Hcs : _cleanups (set_passed true w2) = cs).
  { simpl. rewrite Hc2, Hc1. subst cs. rewrite <- app_assoc. reflexivity. }
  (* the drain *)
  pose proof (deferRunCleanups_suspensions self (set_passed true w2)) as Hs4.
  pose proof (deferRunCleanups_calm self (set_passed true w2)) as Hx4.
  destruct (deferRunCleanups_spec self (set_passed true w2))
    as (w3' & w4 & _ & _ & Ht3' & _ & E4 & Hc4 & Ht4 & Hl4 & Hp4 & Hr4).
  { rewrite Hcs. exact Hdeep. }
  rewrite E4, Hcs in Hs4. specialize (Hs4 Hdeep).
  rewrite E4 in Hx4. specialize (Hx4 ltac:(discriminate)).
  rewrite Hcs in Hl4, Hp4, Ht3'. rewrite Hfail in Hl4, Hp4.
  simpl in Hl4, Hp4, Hr4, Ht3', Hs4, Hx4. rewrite app_nil_r in Hl4.
  (* tearDown *)
  pose proof (deferTearDown_eq self w4) as E5.
  pose proof (await_run_suspensions self (tearDown self) "tearDown"%string
                (note (Enter TearingDown) w4)) as Hs5.
  destruct (await_run_spec self (tearDown self) "tearDown"%string
              (note (Enter TearingDown) w4))
    as (w5 & E5' & Hc5 & Ht5 & Hl5 & Hp5 & Hr5 & _ & Hx5).
  rewrite E5' in Hs5. rewrite E5', HtearDown in E5.
  rewrite phase_reports_nil, app_nil_r in Hl5 by congruence.
  destruct (phase_result_ret_invoked _ _ _ _ HtearDown) as [Hinv5 _].
  rewrite Hinv5 in Hc5, Ht5. simpl in Hc5, Ht5, Hl5, Hp5, Hr5, Hs5, Hx5.
  (* the phases came to an end, so none has crashed the reactor *)
  assert (Hstall : forall func fd v,
            phase_result self func fd = Ret v -> phase_stalls self func = false).
  { intros func fd v Hv. destruct (phase_stalls self func) eqn:Hst; [ | reflexivity].
    apply (yield_result_stalls self func fd) in Hst.
    apply phase_result_hang in Hst. congruence. }
  rewrite (Hstall _ _ _ HsetUp) in Hx1.
  rewrite (Hstall _ _ _ Htest) in Hx2.
  rewrite (Hstall _ _ _ HtearDown) in Hx5.
  assert (Hx : crashes w5 = crashes w) by (simpl in *; congruence).
  (* the coroutine *)
  assert (Ecoro : _deferSetUp self (set_timedOut false w) = (w5, Ret tt)).
  { rewrite deferSetUp_unfold, E1.
    unfold try_finally, bind, exec. rewrite E3, E4, E5. reflexivity. }
  assert (Er5 : running w5 = []) by congruence.
  assert (Hasync : Nat.eqb (suspensions w5) (suspensions w) = negb asynchronous).
  { subst asynchronous.
    destruct (existsb (cleanup_suspends self) (unwind_order cs)) eqn:Hex.
    - assert (Hpos : 0 < List.length (filter (cleanup_suspends self)
                                        (unwind_order cs))).
      { destruct (List.length (filter (cleanup_suspends self) (unwind_order cs)))
          eqn:El; [ | lia].
        apply filter_none in El. congruence. }
      rewrite !orb_true_r. simpl. apply Nat.eqb_neq. lia.
    - apply filter_none in Hex. rewrite Hex in Hs4.
      destruct (phase_suspends self (setUp self)),
               (phase_suspends self (testMethod self)),
               (phase_suspends self (tearDown self)); simpl;
        first [apply Nat.eqb_eq; lia | apply Nat.eqb_neq; lia]. }
  (* the wait *)
  assert (Ewait : exists w5',
            _wait self run
              (coroutine_deferred (set_timedOut false w) w5 (Ret tt)) w5 =
              (w5', Ret tt) /\
            log w5' = log w5 /\ _passed w5' = _passed w5 /\
            running w5' = [] /\
            crashes w5' = crashes w5 + (if asynchronous then 1 else 0)).
  { unfold coroutine_deferred. simpl suspensions. rewrite Hasync. subst run.
    clearbody asynchronous. destruct asynchronous; simpl.
    - exists (crash w5). rewrite wait_firing by exact Er5.
      repeat split; auto. simpl. lia.
    - exists w5. rewrite wait_fired by exact Er5.
      repeat split; auto. }
  destruct Ewait as (w5' & Ewait & Hl5' & Hp5' & Hr5' & Hx5').
  assert (Hc5' : _cleanups w5' = _cleanups w5 /\ trace w5' = trace w5).
  { pose proof (wait_frame self run
                  (coroutine_deferred (set_timedOut false w) w5 (Ret tt)) w5) as Hf.
    rewrite Ewait in Hf. destruct Hf as (_ & _ & Hc & Ht & _). auto. }
  destruct Hc5' as [Hc5' Ht5'].
  (* the end *)
  destruct (cleanUp_spec self w5') as (w6 & Hs6 & H6).
  rewrite Hjanitor, Herrors in H6. simpl in H6.
  destruct H6 as (E6 & Hp6 & Hl6).
  rewrite Hp5', Hp5, Hp4 in Hp6, Hl6. simpl in Hp6, Hl6.
  destruct Hs6 as (Hc6 & Ht6 & Hr6 & _ & Hx6 & _).
  exists w6. split.
  { rewrite runFixturesAndTest_eq. rewrite Ecoro. cbn [fst snd].
    rewrite Ewait. cbn [fst snd]. rewrite E6. cbn [fst snd].
    rewrite classCleanUp_eq, Hclass. reflexivity. }
  split; [rewrite Hl6, Hl5', Hl5, Hl4; simpl; rewrite Hl2, Hl1; reflexivity | ].
  split; [exact Hp6 | ].
  split; [rewrite Hc6, Hc5', Hc5, Hc4; reflexivity | ].
  split; [ | split; [congruence | rewrite Hx6, Hx5', Hx; reflexivity]].
  rewrite Ht6, Ht5', Ht5, Ht4, Ht3'. simpl. rewrite Ht2. simpl. rewrite Ht1.
  rewrite <- !app_assoc. simpl.
  rewrite !entries_app. simpl.
  assert (Hcalls : forall l, entries (map cleanup_call l) = []).
  { induction l; simpl; auto. }
  change (Enter CleaningUp :: ?l) with ([Enter CleaningUp] ++ l).
  rewrite !entries_app, Hcalls. reflexivity.
Qed.

(** X18.  Whatever setUp, the test method, tearDown and the cleanups
    raise, a [KeyboardInterrupt] included, stays inside
    [_runFixturesAndTest]: when the coroutine of the fixtures comes to its
    end, by a return or by an exception, it has not crashed the reactor, and
    [_runFixturesAndTest] returns after [_cleanUp] and [_classCleanUp].
    When the coroutine has not given way to the reactor, its Deferred has
    fired when [_wait] is called, and [_wait] returns without running the
    reactor, whatever the reactor would have done.  When it has given way,
    as it does when setUp returns a Deferred with no result yet, it comes to
    its end under the reactor, in a run that fires its Deferred, and [_wait]
    crashes the reactor, once.  What was raised is known from the result
    only. *)
Theorem fixture_exceptions_stay_inside self s w :
  running w = [] ->
  janitor_returns (postCaseCleanup self) <> Hang ->
  snd (_deferSetUp self (set_timedOut false w)) <> Hang ->
  let w1 := fst (_deferSetUp self (set_timedOut false w)) in
  let o := match snd (_deferSetUp self (set_timedOut false w)) with
           | Raise e => Failed (leaving e)
           | _ => Success PyNone
           end in
  let gave_way := negb (Nat.eqb (suspensions w1) (suspensions w)) in
  _runFixturesAndTest self (if gave_way then Firing o else s) w =
    (fst (_classCleanUp self
            (fst (_cleanUp self (if gave_way then crash w1 else w1)))),
     Ret tt) /\
  crashes w1 = crashes w /\
  (phase_suspends self (setUp self) = true -> gave_way = true).
Proof.
  intros Er Hjanitor Hend w1 o gave_way.
  assert (Er1 : running w1 = []).
  { subst w1. rewrite deferSetUp_keeps_lock. exact Er. }
  split; [ | split].
  - rewrite runFixturesAndTest_eq. cbv zeta. fold w1.
    assert (Ed : coroutine_deferred (set_timedOut false w) w1
                   (snd (_deferSetUp self (set_timedOut false w))) =
                 if gave_way then None else Some o).
    { unfold coroutine_deferred. subst gave_way o. simpl suspensions.
      destruct (snd (_deferSetUp self (set_timedOut false w))) as [[] | e | ];
        [ | | congruence];
        destruct (Nat.eqb (suspensions w1) (suspensions w)); reflexivity. }
    rewrite Ed.
    assert (Ewait : _wait self (if gave_way then Firing o else s)
                      (if gave_way then None else Some o) w1 =
                    (if gave_way then crash w1 else w1, Ret tt)).
    { destruct gave_way; [apply wait_firing | apply wait_fired]; exact Er1. }
    rewrite Ewait. cbn [fst snd].
    destruct (cleanUp_spec self (if gave_way then crash w1 else w1))
      as (w2 & _ & H2).
    destruct (janitor_returns (postCaseCleanup self)) as [clean | e' | ];
      [ | | congruence]; destruct H2 as (E2 & _); rewrite E2; reflexivity.
  - subst w1. rewrite deferSetUp_calm by exact Hend. reflexivity.
  - intros Hs. subst gave_way. apply negb_true_iff. apply Nat.eqb_neq.
    pose proof (deferSetUp_gives_way self (set_timedOut false w) Hs) as Hlt.
    fold w1 in Hlt. simpl in Hlt. lia.
Qed.


(** X19.  A cleanup without [__name__] (a [functools.partial] object,
    say) is not called: building the description of the phase raises
    [AttributeError] inside the [try], which is collected like a failure of
    the cleanup.  The drain goes on with the rest of the stack and reports
    the [AttributeError] with the other failures. *)
Theorem nameless_cleanup_is_passed_over self w base a :
  _cleanups w = base ++ [a] ->
  __name__ a = None ->
  forallb (deep (unwinds self)) base = true ->
  let error := mkExn [AttributeError; Exception] (Text "__name__") in
  exists w',
    _deferRunCleanups self w = (w', Ret tt) /\
    trace w' =
      trace w ++ Enter CleaningUp :: map cleanup_call (unwind_order base) /\
    log w' =
      log w ++ map addError (error :: failures_of self (unwind_order base)) /\
    _passed w' = false /\
    _cleanups w' = [].
Proof.
  intros Hc Hname Hdeep error.
  rewrite deferRunCleanups_unfold.
  rewrite Hc, stack_weight_snoc.
  assert (Hpop : pop (_cleanups (note (Enter CleaningUp) w)) = Some (base, a)).
  { simpl. rewrite Hc. apply pop_snoc. }
  destruct (while_step self (stack_weight (base ++ registers a)) []
              (note (Enter CleaningUp) w) base a Hpop)
    as (w1 & Hc1 & Ht1 & Hl1 & Hp1 & _ & E1).
  assert (Hcalled : cleanup_called self a = false).
  { unfold cleanup_called. rewrite Hname. reflexivity. }
  assert (Hres : cleanup_result self a = Raise error).
  { unfold cleanup_result. rewrite Hname. reflexivity. }
  assert (Hrep : cleanup_reports self a = []).
  { unfold cleanup_reports. rewrite Hname. reflexivity. }
  rewrite Hcalled, app_nil_r in Hc1, Ht1. rewrite Hrep, app_nil_r in Hl1.
  rewrite E1, Hres. simpl isinstance. cbv iota.
  destruct (while_unwinds self (stack_weight (base ++ registers a)) ([] ++ [error]) w1)
    as (w2 & E2 & Hc2 & Ht2 & Hl2 & Hp2 & _).
  { rewrite Hc1, stack_weight_app. lia. }
  { rewrite Hc1. exact Hdeep. }
  change (isinstance error Exception) with true. cbv iota.
  rewrite E2, Hc1.
  destruct (report_failures (([] ++ [error]) ++ failures_of self (unwind_order base)) w2)
    as (w3 & E3 & Hl3 & Hp3 & Ht3 & Hc3 & _).
  exists w3. rewrite E3.
  split; [reflexivity | ].
  split; [rewrite Ht3, Ht2, Ht1, Hc1; simpl; list_eq | ].
  split; [rewrite Hl3, Hl2, Hl1; reflexivity | ].
  split; [rewrite Hp3; reflexivity | ].
  rewrite Hc3. exact Hc2.
Qed.

End Trial.

(** * Examples *)

Module Examples.

(** A text-to-float conversion for the examples: it reads decimal integers,
    which is all the examples need. *)
Fixpoint digits_value (s : string) (acc : Z) : option Z :=
  match s with
  | EmptyString => Some acc
  | String c rest =>
      let n := Z.of_nat (Ascii.nat_of_ascii c) in
      if ((48 <=? n) && (n <=? 57))%Z
      then digits_value rest (10 * acc + (n - 48))
      else None
  end.

Definition integer_literal (s : string) : option pyfloat :=
  match s with
  | EmptyString => None
  | _ => match digits_value s 0 with
         | Some z => float_of_int z
         | None => None
         end
  end.

Definition two_minutes : pyfloat := binary_normalize 53 1024 120 0 false.
Definition five_seconds : pyfloat := binary_normalize 53 1024 5 0 false.

Definition empty_world : World := mkWorld [] [] false false [] 0 [] [] [] 0.

Definition function (name : string) (b : Behaviour) : Action :=
  mkAction (Some name) false [] b.

Definition passes : Action := function "passes" (Returns PyNone).

Definition boom : Exn := mkExn [RuntimeError; Exception] (Text "boom").
Definition interrupt : Exn := mkExn [KeyboardInterrupt] (Text "").
Definition no_network : Exn := mkExn [SkipTest; Exception] (Text "no network").


Definition cleanup_ok : Action := function "cleanup_ok" (Returns PyNone).
Definition cleanup_boom : Action := function "cleanup_boom" (Raises boom).
Definition cleanup_interrupted : Action :=
  function "cleanup_interrupted" (Raises interrupt).

(** A test method like [test_calledButNeverCallback]: its Deferred has fired
    and the chain waits for a Deferred that never fires. *)
Definition calledButNeverCallback : Action :=
  function "test_calledButNeverCallback"
    (ReturnsDeferred (mkDeferred true true (Success (PyInt 1)) []) None).

(** A test method like [test_timeout]: its Deferred never fires. *)
Definition never_fires : Action :=
  function "test_method"
    (ReturnsDeferred (mkDeferred false false (Success PyNone) []) None).

(** A test method whose Deferred the reactor fires before the timeout. *)
Definition fires_later : Action :=
  function "test_method"
    (ReturnsDeferred (mkDeferred false false (Success PyNone) [])
       (Some (Success PyNone))).

(** A generator function as a test method. *)
Definition generator : Action :=
  mkAction (Some "test_generator"%string) true [] (Returns (PyObject "generator")).

Definition clean : JanitorRun := mkJanitorRun [] (Ret true).

Definition test_case (timeout : option PyValue) (setUp testMethod : Action)
  : TestCase :=
  mkTestCase [None; timeout] None FailTest setUp "test_method" testMethod passes
             (fun _ e => match exn_args e with Text s => s | _ => ""%string end)
             clean None [].

(** setUp registers [cleanups], then does [b]. *)
Definition setUp_registering (cleanups : list Action) (b : Behaviour) : Action :=
  mkAction (Some "setUp"%string) false cleanups b.

Definition plain : TestCase := test_case None passes passes.

Definition too_large : PyValue := PyInt (10 ^ 400).


(** An interpretation of what [assertFailure] takes from the interpreter,
    for the examples. *)
Definition only_Exception (cls : ExcClass) : list ExcClass := [Exception].
Definition some_repr (v : PyValue) : string := "<value>".
Definition some_classes (l : list ExcClass) : string := "<classes>".
Definition some_str (f : Exn) : string := "<failure>".
Definition exception_object (f : Exn) : PyValue := PyObject "<exception>".

(** A test method that returns [self.assertFailure(defer.fail(boom),
    RuntimeError)]: the Deferred [assertFailure] hands back. *)
Definition boom_expected : Deferred :=
  mkDeferred true false (Success (exception_object boom)) [].

Definition test_assertFailure : Action :=
  function "test_method" (ReturnsDeferred boom_expected None).

(** A reactor with the three methods and one more. *)
Definition a_reactor : Patching :=
  mkPatching
    [("run", Native "run" (Ret PyNone));
     ("crash", Native "crash" (Ret PyNone));
     ("iterate", Native "iterate" (Ret PyNone));
     ("stop", Native "stop" (Ret PyNone))]%string
    [] [] [].

End Examples.

Import Examples.

(** ** The timeout *)

Lemma getTimeout_numeric_string :
  getTimeout integer_literal two_minutes
    (test_case (Some (PyStr "5")) passes passes) empty_world =
  (empty_world, Ret five_seconds).
Proof.
  apply (proj1 (proj2 (proj2
           (getTimeout_float_or_default integer_literal two_minutes
              (test_case (Some (PyStr "5")) passes passes) empty_world))))
    with (s := "5"%string); reflexivity.
Defined.

(** [float] raises [OverflowError] on an int out of range, and [getTimeout]
    lets it through: it does not return a float. *)
Lemma getTimeout_overflow :
  (forall f w, getTimeout integer_literal two_minutes
                 (test_case (Some too_large) passes passes) empty_world
               <> (w, Ret f)) /\
  getTimeout integer_literal two_minutes
    (test_case (Some too_large) passes passes) empty_world =
  (empty_world,
   Raise (mkExn [OverflowError; UserClass "ArithmeticError"; Exception]
                (Text "int too large to convert to float"))).
Proof.
  assert (E : getTimeout integer_literal two_minutes
                (test_case (Some too_large) passes passes) empty_world =
              (empty_world,
               Raise (mkExn [OverflowError; UserClass "ArithmeticError"; Exception]
                            (Text "int too large to convert to float"))))
    by (vm_compute; reflexivity).
  split; [ | exact E].
  intros f w. rewrite E. discriminate.
Qed.

(** ** The phase runner *)

Lemma cancelTimeout_active_call :
  let w := set_delayedCalls
             [mkDelayedCall two_minutes "setUp" false false] empty_world in
  let x := Success (PyStr "value") in
  snd (active 0 w) = Ret (PyBool true) /\
  snd (cancelTimeout 0 x w) = Ret x /\
  snd (active 0 (fst (cancelTimeout 0 x w))) = Ret (PyBool false).
Proof.
  intros w x.
  destruct (cancelTimeout_identity 0 x w) as (H1 & H2 & _).
  split; [reflexivity | split; [exact H1 | apply H2; reflexivity]].
Defined.

Lemma run_generator_refused :
  isgeneratorfunction generator = true /\
  exists w',
    _run integer_literal two_minutes plain generator "test_generator" empty_world =
      (w', Ret (fail (mkExn [TypeError; Exception]
                            (NeverRuns (Some "test_generator"%string))), None)) /\
    delayedCalls w' = [] /\ trace w' = [].
Proof.
  split; [reflexivity | ].
  destruct (run_generator_function integer_literal two_minutes plain generator
              "test_generator" empty_world two_minutes eq_refl eq_refl)
    as (w' & E & Hd & Ht & _).
  exists w'. split; [exact E | split; assumption].
Defined.

(** With a timeout out of the range of a float, [_run] on a generator
    function raises the [OverflowError] of [getTimeout]: it does not get to
    the [TypeError]. *)
Lemma run_generator_overflow :
  isgeneratorfunction generator = true /\
  _run integer_literal two_minutes (test_case (Some too_large) passes generator)
    generator "test_method" empty_world =
  (empty_world,
   Raise (mkExn [OverflowError; UserClass "ArithmeticError"; Exception]
                (Text "int too large to convert to float"))).
Proof. split; [reflexivity | vm_compute; reflexivity]. Qed.

Lemma onTimeout_reports_error :
  let d := mkDeferred true true (Success (PyInt 1)) [CancelTimeout 0] in
  let f := timeoutFailure "test_method" two_minutes in
  d_called d = true /\
  onTimeout plain "test_method" two_minutes d empty_world =
    (report (addError f) (set_timedOut true (crash empty_world)), Ret d).
Proof.
  intros d f. split; [reflexivity | ].
  destruct (onTimeout_already_called integer_literal two_minutes plain
              "test_method" two_minutes d empty_world eq_refl)
    as (_ & _ & _ & H & _).
  apply H. reflexivity.
Defined.

(** ** The cleanup stack *)

Lemma drain_reports_failure :
  let w := set_cleanups [cleanup_boom; cleanup_ok] empty_world in
  exists w',
    _deferRunCleanups integer_literal two_minutes plain w = (w', Ret tt) /\
    trace w' =
      [Enter CleaningUp; cleanup_call cleanup_ok; cleanup_call cleanup_boom] /\
    log w' = [addError boom].
Proof.
  intros w.
  destruct (deferRunCleanups_unwinds integer_literal two_minutes plain w eq_refl)
    as (_ & _ & w1 & w' & _ & _ & Ht1 & _ & E & Ht & Hl).
  exists w'. split; [exact E | split].
  - rewrite Ht. exact Ht1.
  - exact Hl.
Defined.

(** A cleanup that raises [KeyboardInterrupt] ends the drain: the cleanup
    registered before it is not called, and the failure collected before is
    not reported. *)
Lemma drain_interrupted :
  let w := set_cleanups [cleanup_ok; cleanup_interrupted; cleanup_boom]
             empty_world in
  let r := _deferRunCleanups integer_literal two_minutes plain w in
  snd r = Raise interrupt /\
  trace (fst r) =
    [Enter CleaningUp; cleanup_call cleanup_boom;
     cleanup_call cleanup_interrupted] /\
  _cleanups (fst r) = [cleanup_ok] /\
  log (fst r) = [].
Proof. vm_compute. repeat split. Qed.

(** A callable without [__name__] (a [functools.partial], say) is not
    called: formatting the description raises [AttributeError], which is
    collected as if the cleanup had failed. *)
Lemma nameless_cleanup_not_called :
  let partial := mkAction None false [] (Returns PyNone) in
  let r := _deferRunCleanups integer_literal two_minutes plain
             (set_cleanups [partial] empty_world) in
  snd r = Ret tt /\
  trace (fst r) = [Enter CleaningUp] /\
  log (fst r) = [addError (mkExn [AttributeError; Exception] (Text "__name__"))].
Proof. vm_compute. repeat split. Qed.

(** A cleanup whose Deferred has fired already when the timeout elapses: the
    drain is not resumed, the cleanup below is not called and the failure
    collected before is not reported. *)
Lemma stalled_cleanup_abandons_drain :
  let stalled := function "stalled"
                   (ReturnsDeferred (mkDeferred true true (Success PyNone) []) None) in
  let r := _deferRunCleanups integer_literal two_minutes plain
             (set_cleanups [cleanup_ok; stalled; cleanup_boom] empty_world) in
  snd r = Hang /\
  _cleanups (fst r) = [cleanup_ok] /\
  log (fst r) =
    [addError (timeoutFailure "cleanup function stalled" two_minutes)].
Proof. vm_compute. repeat split. Qed.

(** ** The fixture sequence *)

Lemma finalizers_after_timeout :
  phase_result integer_literal two_minutes
    (test_case None (setUp_registering [cleanup_boom] (Returns PyNone)) never_fires)
    never_fires "test_method" =
    Raise (timeoutFailure "test_method" two_minutes) /\
  entries (trace (fst (_deferSetUp integer_literal two_minutes
                         (test_case None (setUp_registering [cleanup_boom]
                                            (Returns PyNone)) never_fires)
                         empty_world))) =
  [SettingUp; RunningTest; CleaningUp; TearingDown].
Proof.
  split; [reflexivity | ].
  destruct (finalizers_run_once integer_literal two_minutes
              (test_case None (setUp_registering [cleanup_boom] (Returns PyNone))
                 never_fires)
              empty_world PyNone eq_refl) as (tr & Ht & He).
  - discriminate.
  - reflexivity.
  - rewrite Ht. simpl. rewrite entries_app, He. reflexivity.
Defined.

(** A test method whose Deferred has fired already when the timeout elapses:
    setUp completed, and neither the drain nor tearDown runs. *)
Lemma stalled_test_skips_finalizers :
  let tc := test_case None (setUp_registering [cleanup_ok] (Returns PyNone))
              calledButNeverCallback in
  let r := _deferSetUp integer_literal two_minutes tc empty_world in
  phase_result integer_literal two_minutes tc (setUp tc) "setUp" = Ret PyNone /\
  snd r = Hang /\
  entries (trace (fst r)) = [SettingUp; RunningTest] /\
  _cleanups (fst r) = [cleanup_ok] /\
  log (fst r) = [addError (timeoutFailure "test_method" two_minutes)].
Proof. vm_compute. repeat split. Qed.


Lemma skip_in_setUp :
  let tc := test_case None (setUp_registering [cleanup_ok] (Raises no_network))
              passes in
  let w := fst (_deferSetUp integer_literal two_minutes tc empty_world) in
  log w = [addSkip "no network"] /\
  entries (trace w) = [SettingUp; CleaningUp].
Proof.
  intros tc w.
  destruct (setUp_skip integer_literal two_minutes tc empty_world no_network
              eq_refl eq_refl)
    as (w2 & tr & evs & Hc & _ & Ht & He & Hl & _ & Hevs).
  subst w. rewrite Hl, Ht, Hevs.
  - rewrite Hc. split; [reflexivity | exact He].
  - rewrite Hc. reflexivity.
Defined.

(** setUp registers a cleanup that fails, then raises [SkipTest]: the result
    receives [addSkip] and [addError]. *)
Lemma skip_with_failing_cleanup :
  let tc := test_case None (setUp_registering [cleanup_boom] (Raises no_network))
              passes in
  log (fst (_deferSetUp integer_literal two_minutes tc empty_world)) =
  [addSkip "no network"; addError boom].
Proof. vm_compute. reflexivity. Qed.

(** ** The end of the test *)

Lemma failing_cleanup_is_no_success :
  let tc := test_case None (setUp_registering [cleanup_boom] (Returns PyNone))
              passes in
  exists evs,
    log (fst (_runFixturesAndTest integer_literal two_minutes tc Stopped
                empty_world)) = evs /\
    In (addError boom) evs /\ ~ In addSuccess evs.
Proof.
  intros tc.
  destruct (cleanup_failure_demotes integer_literal two_minutes tc Stopped
              empty_world PyNone PyNone eq_refl eq_refl eq_refl)
    as (evs & Hl & Hin & Hno).
  - discriminate.
  - exists evs. split; [exact Hl | split; [ | exact Hno]].
    apply Hin. left. reflexivity.
Defined.

(** The test method passes and a cleanup raises [KeyboardInterrupt]: the
    result receives [addSuccess] and no [addError]. *)
Lemma interrupted_cleanup_is_a_success :
  let tc := test_case None (setUp_registering [cleanup_interrupted] (Returns PyNone))
              passes in
  cleanup_result integer_literal two_minutes tc cleanup_interrupted =
    Raise interrupt /\
  log (fst (_runFixturesAndTest integer_literal two_minutes tc Stopped
              empty_world)) = [addSuccess].
Proof. vm_compute. split; reflexivity. Qed.

(** ** Waiting *)

Lemma wait_refused_in_flight :
  let w := set_running [tt] empty_world in
  running w <> [] /\
  _wait plain Forever None w =
    (w, Raise (mkExn [RuntimeError; Exception] NotReentrant)).
Proof.
  intros w. split; [discriminate | ].
  apply (proj1 (wait_not_reentrant plain Forever None w)). discriminate.
Defined.

(** * Further examples *)

(** ** The fixture sequence *)

(** setUp registers a cleanup and fails with a [RuntimeError]. *)
Lemma setUp_error_is_reported :
  let tc := test_case None (setUp_registering [cleanup_ok] (Raises boom)) passes in
  phase_result integer_literal two_minutes tc (setUp tc) "setUp" = Raise boom /\
  isinstance boom SkipTest = false /\
  exists tr evs,
    trace (fst (_deferSetUp integer_literal two_minutes tc empty_world)) = tr /\
    entries tr = [SettingUp; CleaningUp] /\
    log (fst (_deferSetUp integer_literal two_minutes tc empty_world)) =
      addError boom :: evs /\
    Forall error_report evs.
Proof.
  intros tc. split; [reflexivity | split; [reflexivity | ]].
  destruct (setUp_failure integer_literal two_minutes tc empty_world boom
              eq_refl eq_refl)
    as (w2 & tr & evs & _ & Hl2 & _ & _ & Ht & He & Hl & Hf).
  exists tr, evs. rewrite Ht, Hl, Hl2.
  split; [reflexivity | split; [exact He | split; [reflexivity | exact Hf]]].
Defined.

(** ** The cleanup stack *)

(** A cleanup that raises [KeyboardInterrupt] between one that fails and
    one that does not. *)
Lemma drain_stops_at_interrupt :
  let w := set_cleanups [cleanup_ok; cleanup_interrupted; cleanup_boom]
             empty_world in
  cleanup_result integer_literal two_minutes plain cleanup_interrupted =
    Raise interrupt /\
  isinstance interrupt Exception = false /\
  exists w',
    _deferRunCleanups integer_literal two_minutes plain w = (w', Raise interrupt) /\
    _cleanups w' = [cleanup_ok] /\
    log w' = [].
Proof.
  intros w. split; [reflexivity | split; [reflexivity | ]].
  destruct (deferRunCleanups_interrupted integer_literal two_minutes plain w
              [cleanup_ok] cleanup_interrupted [cleanup_boom] interrupt
              eq_refl eq_refl eq_refl eq_refl)
    as (w' & E & Hc & _ & Hl & _).
  exists w'. split; [exact E | split; [exact Hc | exact Hl]].
Defined.

(** ** The end of the test *)

Lemma cleanUp_reports_success :
  janitor_returns (postCaseCleanup plain) <> Hang /\
  exists w',
    _cleanUp plain (set_passed true empty_world) = (w', Ret tt) /\
    _passed w' = true /\
    log w' = [addSuccess].
Proof.
  split; [discriminate | ].
  destruct (cleanUp_verdict plain (set_passed true empty_world))
    as (w' & E & Hp & Hl); [discriminate | ].
  exists w'. split; [exact E | split; [exact Hp | exact Hl]].
Defined.

(** The run is aborted while the Deferred of the coroutine has not fired. *)
Lemma wait_aborted :
  running empty_world = [] /\
  _wait plain Stopped None empty_world =
    (empty_world, Raise (mkExn [KeyboardInterrupt] (Text ""))).
Proof.
  split; [reflexivity | ].
  destruct (wait_outcomes plain empty_world eq_refl) as (_ & _ & H & _).
  exact H.
Defined.

(** A test whose Deferred is paused and never resumes the coroutine, in a
    run that is aborted: the [KeyboardInterrupt] of [_wait] leaves
    [_runFixturesAndTest], after the janitor and the class cleanup have
    run. *)
Lemma aborted_run_is_cleaned_up :
  let tc := test_case None passes
              (function "test_method"
                 (ReturnsDeferred (mkDeferred false true (Success PyNone) []) None)) in
  janitor_returns (postCaseCleanup tc) <> Hang /\
  snd (_runFixturesAndTest integer_literal two_minutes tc Stopped empty_world) =
    Raise (mkExn [KeyboardInterrupt] (Text "")).
Proof.
  intros tc. split; [discriminate | ].
  destruct (runFixturesAndTest_cleans_up integer_literal two_minutes tc Stopped
              empty_world)
    as (w1 & d & w2 & r & E1 & E2 & E); [discriminate | ].
  vm_compute in E1. inversion E1; subst w1 d.
  vm_compute in E2. inversion E2; subst w2 r.
  rewrite E. reflexivity.
Defined.

(** A test with nothing asynchronous in it, in a run in which the reactor
    would never return; and a test whose Deferred the reactor fires. *)
Lemma plain_test_passes :
  (exists w',
     _runFixturesAndTest integer_literal two_minutes plain Forever empty_world =
       (w', Ret tt) /\
     log w' = [addSuccess] /\
     _passed w' = true /\
     crashes w' = 0) /\
  (let tc := test_case None passes fires_later in
   exists w',
     _runFixturesAndTest integer_literal two_minutes tc
       (Firing (Success PyNone)) empty_world = (w', Ret tt) /\
     log w' = [addSuccess] /\
     _passed w' = true /\
     crashes w' = 1).
Proof.
  split.
  - destruct (passing_test integer_literal two_minutes plain Forever empty_world
                PyNone PyNone PyNone
                eq_refl eq_refl eq_refl eq_refl eq_refl eq_refl eq_refl eq_refl
                eq_refl eq_refl)
      as (w' & E & Hl & Hp & _ & _ & _ & Hx).
    exists w'. split; [exact E | split; [exact Hl | split; [exact Hp | exact Hx]]].
  - intros tc.
    destruct (passing_test integer_literal two_minutes tc Stopped empty_world
                PyNone PyNone PyNone
                eq_refl eq_refl eq_refl eq_refl eq_refl eq_refl eq_refl eq_refl
                eq_refl eq_refl)
      as (w' & E & Hl & Hp & _ & _ & _ & Hx).
    exists w'. split; [exact E | split; [exact Hl | split; [exact Hp | exact Hx]]].
Defined.


(** ** The timeout *)

(** [TimeoutTests.test_timeout]: the Deferred never fires. *)
Lemma test_timeout_times_out :
  snd (getTimeout integer_literal two_minutes plain empty_world) = Ret two_minutes /\
  snd (await_run integer_literal two_minutes plain never_fires "test_method"
         empty_world) =
    Raise (timeoutFailure "test_method" two_minutes).
Proof.
  split; [reflexivity | ].
  destruct (run_times_out integer_literal two_minutes plain never_fires
              "test_method" (mkDeferred false false (Success PyNone) [])
              two_minutes empty_world eq_refl eq_refl eq_refl eq_refl eq_refl)
    as (w1 & w' & _ & _ & _ & H & _).
  apply H. reflexivity.
Defined.

(** The same test, with its fixtures: three phases, three timeout calls,
    none left pending. *)
Lemma timed_out_test_leaves_no_call :
  let tc := test_case None passes never_fires in
  let r := _deferSetUp integer_literal two_minutes tc empty_world in
  idle empty_world /\
  snd r <> Hang /\
  idle (fst r) /\
  List.length (delayedCalls (fst r)) = 3.
Proof.
  intros tc r.
  assert (Hidle : idle empty_world) by (intros [ | call]; reflexivity).
  assert (Hr : snd r <> Hang) by (vm_compute; discriminate).
  split; [exact Hidle | split; [exact Hr | split]].
  - exact (deferSetUp_leaves_no_timeout integer_literal two_minutes tc
             empty_world Hidle Hr).
  - vm_compute. reflexivity.
Defined.

(** ** assertFailure *)

Lemma expected_failure_passes :
  let tc := test_case None passes test_assertFailure in
  let r := _deferSetUp_testMethod integer_literal two_minutes tc empty_world in
  snd (assertFailure only_Exception some_repr some_classes some_str
         exception_object tc (fail boom) [RuntimeError] empty_world) =
    Ret boom_expected /\
  snd r = Ret tt /\
  log (fst r) = [] /\
  _passed (fst r) = true.
Proof.
  intros tc r. split; [reflexivity | ].
  destruct (assertFailure_passes_or_fails integer_literal two_minutes
              only_Exception some_repr some_classes some_str exception_object
              tc (fail boom) [RuntimeError] None two_minutes empty_world
              boom_expected empty_world
              eq_refl eq_refl eq_refl eq_refl eq_refl)
    as (_ & Hs & Hl & Hp).
  split; [exact Hs | split; [exact Hl | exact Hp]].
Defined.

(** ** The reactor methods *)

(** During the test [reactor.stop] warns, then stops the reactor. *)
Lemma deprecated_stop_warns :
  let s1 := fst (_deprecateReactor a_reactor) in
  snd (_deprecateReactor a_reactor) = Ret tt /\
  dict_get "stop" (reactor_attrs s1) = Some (Deprecating "stop") /\
  dict_get "run" (reactor_attrs s1) = Some (Native "run" (Ret PyNone)) /\
  call_method 1 (Deprecating "stop") s1 =
    (mkPatching (reactor_attrs s1) (_reactorMethods s1)
       [deprecation_message "stop"] ["stop"%string],
     Ret PyNone).
Proof.
  intros s1.
  destruct (deprecateReactor_wraps a_reactor) as (_ & _ & H).
  destruct (H eq_refl) as (Hnames & Hother & _).
  destruct (Hnames "stop"%string) as (Hget & _ & Hcall); [simpl; auto | ].
  split; [reflexivity | split; [exact Hget | split]].
  - rewrite Hother; [reflexivity | ].
    simpl. intros [H1 | [H1 | [H1 | []]]]; discriminate.
  - etransitivity; [exact (Hcall 0 (Native "stop" (Ret PyNone)) eq_refl) | ].
    reflexivity.
Defined.

Lemma reactor_is_restored :
  let s2 := fst (_undeprecateReactor (fst (_deprecateReactor a_reactor))) in
  reactor_attrs s2 = reactor_attrs a_reactor /\
  _reactorMethods s2 = [].
Proof.
  intros s2.
  destruct (undeprecateReactor_restores a_reactor) as (_ & Hr & Hm & _).
  split; [exact Hr | exact Hm].
Defined.

(** ** A timeout that cannot errback *)

(** [TimeoutTests.test_calledButNeverCallback]: the run ends, with the
    error of the timeout and nothing else reported. *)
Lemma calledButNeverCallback_ends_run :
  let tc := test_case None passes calledButNeverCallback in
  phase_stalls integer_literal two_minutes tc (testMethod tc) = true /\
  exists w',
    _runFixturesAndTest integer_literal two_minutes tc Stopped empty_world =
      (w', Ret tt) /\
    log w' = [addError (timeoutFailure "test_method" two_minutes)].
Proof.
  intros tc. split; [reflexivity | ].
  destruct (stalled_test_ends_run integer_literal two_minutes tc empty_world
              PyNone eq_refl)
    as (timeout & w3 & w' & _ & _ & _ & _ & _ & _ & _ & E & _);
    [discriminate | reflexivity | reflexivity | ].
  exists w'. split; [exact E | ].
  change w' with (fst (w', @Ret unit tt)). rewrite <- E.
  vm_compute. reflexivity.
Defined.

(** ** What leaves the run *)

(** A test method that raises [KeyboardInterrupt]: the run is told to stop,
    and [_runFixturesAndTest] returns, without running the reactor.  And
    [test_timeout], whose Deferred never fires: the coroutine is resumed by
    the timeout under the reactor, and the reactor is crashed once when it
    has come to its end. *)
Lemma interrupted_test_returns :
  (let tc := test_case None passes (function "test_method" (Raises interrupt)) in
   snd (_deferSetUp integer_literal two_minutes tc
          (set_timedOut false empty_world)) = Raise interrupt /\
   exists w',
     _runFixturesAndTest integer_literal two_minutes tc Forever empty_world =
       (w', Ret tt) /\
     log w' = [addError interrupt; stop] /\
     crashes w' = 0) /\
  (let tc := test_case None passes never_fires in
   let f := timeoutFailure "test_method" two_minutes in
   snd (_deferSetUp integer_literal two_minutes tc
          (set_timedOut false empty_world)) = Raise f /\
   exists w',
     _runFixturesAndTest integer_literal two_minutes tc (Firing (Failed f))
       empty_world = (w', Ret tt) /\
     log w' = [addError f] /\
     crashes w' = 1).
Proof.
  split.
  - intros tc. split; [vm_compute; reflexivity | ].
    eexists. split.
    + apply (fixture_exceptions_stay_inside integer_literal two_minutes tc Forever
               empty_world eq_refl); [discriminate | vm_compute; discriminate].
    + vm_compute. split; reflexivity.
  - intros tc f. split; [vm_compute; reflexivity | ].
    eexists. split.
    + apply (fixture_exceptions_stay_inside integer_literal two_minutes tc Stopped
               empty_world eq_refl); [discriminate | vm_compute; discriminate].
    + vm_compute. split; reflexivity.
Defined.

(** A [functools.partial] object on top of a cleanup that fails. *)
Lemma partial_cleanup_is_not_called :
  let partial := mkAction None false [] (Returns PyNone) in
  let w := set_cleanups [cleanup_boom; partial] empty_world in
  exists w',
    _deferRunCleanups integer_literal two_minutes plain w = (w', Ret tt) /\
    trace w' = [Enter CleaningUp; cleanup_call cleanup_boom] /\
    log w' =
      [addError (mkExn [AttributeError; Exception] (Text "__name__"));
       addError boom].
Proof.
  intros partial w.
  destruct (nameless_cleanup_is_passed_over integer_literal two_minutes plain w
              [cleanup_boom] partial eq_refl eq_refl eq_refl)
    as (w' & E & Ht & Hl & _).
  exists w'. split; [exact E | split; [exact Ht | exact Hl]].
Defined.
